(** * swriter: the project tree of a Scrivener-like writing application

    A shallow embedding of the application's state handling
    (the [App] component with local storage, drag and drop, import and
    export) and the properties of its operations.

    - Part I   JavaScript strings and the word counter [countWords].
    - Part II  JavaScript numbers (IEEE 754 binary64) and [Math].
    - Part III JSON values, [JSON.stringify] and [JSON.parse].
    - Part IV  The data model ([Project], [ProjectMetadata]) and the handlers.
    - Part V   The vocabulary in which the properties are stated.
    - Part VI  Lemmas and the theorems about the handlers.

    Line numbers refer to the version of the component that has local
    storage, drag and drop, import and export (619 lines). *)

From Stdlib Require Import String Ascii.
From Stdlib Require Import List NArith ZArith Bool Lia Permutation.
From Stdlib Require Import Floats.SpecFloat.
From Equations Require Import Equations.
Import ListNotations.

(* ===================================================================== *)
(** * Part I. Strings                                                     *)
(* ===================================================================== *)

Module JsString.

(** A JavaScript string is a sequence of UTF-16 code units. *)
Definition code_unit := N.
Definition jsstring := list code_unit.

(** String literals of the development, written in ASCII. *)
Definition js (s : string) : jsstring :=
  List.map N_of_ascii (list_ascii_of_string s).

Definition String_eqb (a b : jsstring) : bool :=
  if list_eq_dec N.eq_dec a b then true else false.

(** The class [\s] of a regular expression, which is also the set of
    characters [String.prototype.trim] removes (WhiteSpace and
    LineTerminator): TAB LF VT FF CR, SPACE, NBSP, U+1680, U+2000..U+200A,
    LS, PS, U+202F, U+205F, U+3000 and the byte order mark. *)
Definition is_whitespace (c : code_unit) : bool :=
  ((9 <=? c) && (c <=? 13) || (c =? 32) || (c =? 160) || (c =? 5760)
   || (8192 <=? c) && (c <=? 8202) || (c =? 8232) || (c =? 8233)
   || (c =? 8239) || (c =? 8287) || (c =? 12288) || (c =? 65279))%N.

Fixpoint drop_while (p : code_unit -> bool) (s : jsstring) : jsstring :=
  match s with
  | [] => []
  | c :: rest => if p c then drop_while p rest else s
  end.

(** [s.trim()] *)
Definition String_trim (s : jsstring) : jsstring :=
  rev (drop_while is_whitespace (rev (drop_while is_whitespace s))).

(** [s.split(/\s+/)].  The split loop of the language walks the string
    from left to right; a match of [\s+] at the current position ends the
    token collected so far ([tok], kept reversed) and swallows the whole run
    of whitespace ([in_sep] is set while inside such a run); the end of the
    string closes the last token.  The empty string gives one empty token. *)
Fixpoint split_loop (in_sep : bool) (tok : jsstring) (s : jsstring)
  : list jsstring :=
  match s with
  | [] => [rev tok]
  | c :: rest =>
      if is_whitespace c
      then if in_sep then split_loop true [] rest
           else rev tok :: split_loop true [] rest
      else split_loop false (c :: tok) rest
  end.

Definition String_split_whitespace (s : jsstring) : list jsstring :=
  split_loop false [] s.

Definition LESS_THAN : code_unit := 60%N.
Definition GREATER_THAN : code_unit := 62%N.

(** The tail [[^>]*>] of the pattern: skip characters other than [>] up to
    the first [>]; the result is what follows it. *)
Fixpoint match_tag_tail (s : jsstring) : option jsstring :=
  match s with
  | [] => None
  | c :: rest => if (c =? GREATER_THAN)%N then Some rest else match_tag_tail rest
  end.

(** A match of [/<[^>]+>/] anchored at the head of [s]: a [<], at least one
    character other than [>], then [>].  The greedy [[^>]+] stops at the
    first [>], and giving characters back never helps, since the character
    after a shorter run is not a [>]. *)
Definition match_tag (s : jsstring) : option jsstring :=
  match s with
  | c :: d :: rest =>
      if ((c =? LESS_THAN) && negb (d =? GREATER_THAN))%N
      then match_tag_tail rest else None
  | _ => None
  end.

Lemma match_tag_tail_shorter s after :
  match_tag_tail s = Some after -> length after < length s.
Proof.
  induction s as [|c rest IH]; simpl; [discriminate|].
  destruct (c =? GREATER_THAN)%N.
  - intros [= ->]. lia.
  - intros H. specialize (IH H). lia.
Qed.

Lemma match_tag_shorter s after :
  match_tag s = Some after -> length after < length s.
Proof.
  destruct s as [|c [|d rest]]; simpl; try discriminate.
  destruct ((c =? LESS_THAN) && negb (d =? GREATER_THAN))%N; [|discriminate].
  intros H. apply match_tag_tail_shorter in H. lia.
Qed.

Definition inspect {A : Type} (x : A) : { y : A | x = y } := exist _ x eq_refl.

(** [s.replace(/<[^>]+>/g, '')]: at each position, a match is dropped and
    the scan goes on after it; otherwise the character is kept. *)
Equations? String_replace_tags (s : jsstring) : jsstring by wf (length s) lt :=
  String_replace_tags [] := [];
  String_replace_tags (c :: rest) with inspect (match_tag (c :: rest)) := {
    | exist _ (Some after) _ := String_replace_tags after;
    | exist _ None _ := c :: String_replace_tags rest }.
Proof.
  match goal with
  | H : _ = Some after |- _ =>
      apply (match_tag_shorter (c :: rest)) in H; simpl in H; lia
  end.
Qed.

(** [s.split(c)] for a separator [c] of one character: the pieces between
    the occurrences of the separator; the empty string gives one empty
    piece. *)
Fixpoint split_char_loop (sep : code_unit) (tok : jsstring) (s : jsstring)
  : list jsstring :=
  match s with
  | [] => [rev tok]
  | c :: rest =>
      if (c =? sep)%N
      then rev tok :: split_char_loop sep [] rest
      else split_char_loop sep (c :: tok) rest
  end.

Definition String_split_char (sep : code_unit) (s : jsstring) : list jsstring :=
  split_char_loop sep [] s.

(** [a.join(sep)] on an array of strings *)
Fixpoint Array_join (sep : jsstring) (a : list jsstring) : jsstring :=
  match a with
  | [] => []
  | x :: rest =>
      match rest with
      | [] => x
      | _ :: _ => x ++ sep ++ Array_join sep rest
      end
  end.

(** [countWords], lines 32-35 of the application:
<<
  const plainText = content.replace(/<[^>]+>/g, '');
  return plainText.trim().split(/\s+/).length;
>> *)
Definition countWords (content : jsstring) : nat :=
  let plainText := String_replace_tags content in
  length (String_split_whitespace (String_trim plainText)).

End JsString.

Import JsString.

(* ===================================================================== *)
(** * Part II. Numbers                                                    *)
(* ===================================================================== *)

Module JsNumber.

(** A JavaScript number is an IEEE 754 binary64 value: 53 bits of
    precision, exponents below 1024; one NaN. *)
Definition prec : Z := 53.
Definition emax : Z := 1024.
Definition number := spec_float.

Definition NaN : number := S754_nan.

(** An integer read as a number (array lengths, literals such as [100]),
    rounded to nearest even when it has more than 53 bits. *)
Definition Number_of_Z (z : Z) : number := binary_normalize prec emax z 0 false.
Definition Number_of_nat (n : nat) : number := Number_of_Z (Z.of_nat n).

(** [a / b] and [a * b] *)
Definition num_div (a b : number) : number := SFdiv prec emax a b.
Definition num_mul (a b : number) : number := SFmul prec emax a b.

(** [a === b] on numbers: NaN differs from itself, [-0] equals [+0]. *)
Definition num_eqb (a b : number) : bool := SFeqb a b.
(** [a <= b] *)
Definition num_leb (a b : number) : bool := SFleb a b.

(** [Math.min(a, b)]: NaN when an argument is NaN; [-0] is below [+0]. *)
Definition Math_min (a b : number) : number :=
  match SFcompare a b with
  | None => NaN
  | Some Lt => a
  | Some Gt => b
  | Some Eq => match a with S754_zero true => a | _ => b end
  end.

(** [Math.max(a, b)] *)
Definition Math_max (a b : number) : number :=
  match SFcompare a b with
  | None => NaN
  | Some Lt => b
  | Some Gt => a
  | Some Eq => match a with S754_zero true => b | _ => a end
  end.

(** [Math.ceil(x)]: NaN, the zeros and the infinities are returned as they
    are, and so is a finite value without fraction bits; a value
    [m * 2^(-p)] is rounded up to the next integer ([-0] when it lies in
    [(-1, 0)]). *)
Definition Math_ceil (x : number) : number :=
  match x with
  | S754_finite s m (Zneg p) =>
      let q := (Zpos m / 2 ^ Zpos p)%Z in
      let r := (Zpos m mod 2 ^ Zpos p)%Z in
      if s
      then if (q =? 0)%Z then S754_zero true else Number_of_Z (- q)
      else Number_of_Z (if (r =? 0)%Z then q else q + 1)
  | _ => x
  end.

(** The value of a character as a digit: [0-9], then the letters in
    either case for the digits from ten on. *)
Definition digit_value (c : code_unit) : option N :=
  if ((48 <=? c) && (c <=? 57))%N then Some (c - 48)%N
  else if ((97 <=? c) && (c <=? 122))%N then Some (c - 87)%N
  else if ((65 <=? c) && (c <=? 90))%N then Some (c - 55)%N
  else None.

Definition radix_digit (R : N) (c : code_unit) : option N :=
  match digit_value c with
  | Some d => if (d <? R)%N then Some d else None
  | None => None
  end.

(** The digits of radix [R] at the head of a string: the string up to its
    first character that is no such digit. *)
Fixpoint leading_digits (R : N) (s : jsstring) : list N :=
  match s with
  | [] => []
  | c :: rest =>
      match radix_digit R c with
      | Some d => d :: leading_digits R rest
      | None => []
      end
  end.

Definition digits_value (R : N) (ds : list N) : N :=
  fold_left (fun acc d => (R * acc + d)%N) ds 0%N.

(** A sign at the head of the string, and the string without it. *)
Definition strip_sign (s : jsstring) : bool * jsstring :=
  match s with
  | c :: rest =>
      if (c =? 45)%N then (true, rest)
      else if (c =? 43)%N then (false, rest)
      else (false, s)
  | [] => (false, s)
  end.

(** The prefix [0x] or [0X] selects radix 16 and is removed. *)
Definition strip_prefix (s : jsstring) : N * jsstring :=
  match s with
  | c0 :: c1 :: rest =>
      if ((c0 =? 48) && ((c1 =? 120) || (c1 =? 88)))%N
      then (16%N, rest) else (10%N, s)
  | _ => (10%N, s)
  end.

(** [parseInt(string)] with no radix given: leading whitespace is skipped,
    a sign is read, then the digits up to the first character that is
    none; no digit gives NaN.  (For more than twenty significant decimal
    digits the language lets an implementation replace the digits after the
    twentieth by zeros; the value here is the exact one.) *)
Definition parseInt (string : jsstring) : number :=
  let '(sign, s1) := strip_sign (drop_while is_whitespace string) in
  let '(R, s2) := strip_prefix s1 in
  match leading_digits R s2 with
  | [] => NaN
  | (_ :: _) as Z =>
      let mathInt := Z.of_N (digits_value R Z) in
      if (mathInt =? 0)%Z then S754_zero sign
      else Number_of_Z (if sign then (- mathInt)%Z else mathInt)
  end.

End JsNumber.

Import JsNumber.

(* ===================================================================== *)
(** * Part III. JSON                                                      *)
(* ===================================================================== *)

Module Json.

(** What [JSON.parse] returns, and what the application keeps in memory:
    an object is the list of its properties in the order in which the
    language enumerates them. *)
Unset Elimination Schemes.
Inductive value :=
| VNull
| VBoolean (b : bool)
| VNumber (x : number)
| VString (s : jsstring)
| VArray (items : list value)
| VObject (properties : list (jsstring * value)).
Set Elimination Schemes.

(** A JSON text is taken after lexical analysis, as the sequence of its
    lexemes: the spelling of numerals and string literals is the
    platform's, and a numeral or a string literal stands for the number or
    string it denotes.  [LOther] is any character that starts no lexeme of
    JSON.  The empty string is the empty sequence. *)
Inductive lexeme :=
| LWhitespace
| LBeginArray | LEndArray
| LBeginObject | LEndObject
| LColon | LComma
| LNull | LTrue | LFalse
| LNumber (x : number)
| LString (s : jsstring)
| LOther.

Definition text := list lexeme.

(** *** [JSON.stringify] *)

(** A finite number is written as the numeral that reads back as it; both
    zeros are written [0]; NaN and the infinities are written [null]. *)
Definition number_lexeme (x : number) : lexeme :=
  match x with
  | S754_finite _ _ _ => LNumber x
  | S754_zero _ => LNumber (S754_zero false)
  | S754_infinity _ | S754_nan => LNull
  end.

(** The parts of an array or of an object, separated by commas. *)
Fixpoint join_comma (parts : list text) : text :=
  match parts with
  | [] => []
  | part :: rest =>
      match rest with
      | [] => part
      | _ :: _ => part ++ LComma :: join_comma rest
      end
  end.

Fixpoint stringify (v : value) : text :=
  match v with
  | VNull => [LNull]
  | VBoolean b => [if b then LTrue else LFalse]
  | VNumber x => [number_lexeme x]
  | VString s => [LString s]
  | VArray items =>
      LBeginArray :: join_comma (List.map stringify items) ++ [LEndArray]
  | VObject properties =>
      LBeginObject ::
      join_comma
        (List.map (fun kv => LString (fst kv) :: LColon :: stringify (snd kv))
           properties)
      ++ [LEndObject]
  end.

Definition JSON_stringify (v : value) : text := stringify v.

(** *** [JSON.parse] *)

Inductive Error := SyntaxError | TypeError.

(** How a call ends: it returns, or it throws. *)
Inductive completion (A : Type) :=
| Returned (a : A)
| Thrown (e : Error).
Arguments Returned {A} a.
Arguments Thrown {A} e.

Fixpoint skip_whitespace (t : text) : text :=
  match t with
  | LWhitespace :: rest => skip_whitespace rest
  | _ => t
  end.

(** A property name that is an array index (a canonical numeral below
    [2^32 - 1]): such properties are enumerated first, in ascending order. *)
Definition digit (c : code_unit) : option N :=
  if ((48 <=? c) && (c <=? 57))%N then Some (c - 48)%N else None.

Fixpoint decimal (acc : N) (s : jsstring) : option N :=
  match s with
  | [] => Some acc
  | c :: rest =>
      match digit c with
      | Some d => decimal (10 * acc + d)%N rest
      | None => None
      end
  end.

Definition array_index (k : jsstring) : option N :=
  match k with
  | [] => None
  | c :: rest =>
      match rest with
      | _ :: _ => if (c =? 48)%N then None else
                    match decimal 0 k with
                    | Some n => if (n <? 4294967295)%N then Some n else None
                    | None => None
                    end
      | [] => digit c
      end
  end.

(** Defining the property [k] of an object: an existing property keeps its
    place and gets the new value; a new array index goes to its place
    among the indices; any other new name goes to the end. *)
Fixpoint define_property (k : jsstring) (v : value)
  (properties : list (jsstring * value)) : list (jsstring * value) :=
  match properties with
  | [] => [(k, v)]
  | (k', v') :: rest =>
      if String_eqb k k' then (k, v) :: rest
      else
        match array_index k, array_index k' with
        | Some n, Some n' =>
            if (n <? n')%N then (k, v) :: properties
            else (k', v') :: define_property k v rest
        | Some _, None => (k, v) :: properties
        | None, _ => (k', v') :: define_property k v rest
        end
  end.

(** The parser of the JSON grammar, by recursive descent; [fuel] bounds the
    depth of the descent.  [parse_elements] reads [value (, value)* ]]
    and [parse_members] reads [string : value (, string : value)* }]. *)
Fixpoint parse_value (fuel : nat) (t : text) {struct fuel}
  : option (value * text) :=
  match fuel with
  | O => None
  | S fuel =>
      match skip_whitespace t with
      | LNull :: rest => Some (VNull, rest)
      | LTrue :: rest => Some (VBoolean true, rest)
      | LFalse :: rest => Some (VBoolean false, rest)
      | LNumber x :: rest => Some (VNumber x, rest)
      | LString s :: rest => Some (VString s, rest)
      | LBeginArray :: rest =>
          match skip_whitespace rest with
          | LEndArray :: rest' => Some (VArray [], rest')
          | _ =>
              match parse_elements fuel rest with
              | Some (items, rest') => Some (VArray items, rest')
              | None => None
              end
          end
      | LBeginObject :: rest =>
          match skip_whitespace rest with
          | LEndObject :: rest' => Some (VObject [], rest')
          | _ =>
              match parse_members fuel [] rest with
              | Some (properties, rest') => Some (VObject properties, rest')
              | None => None
              end
          end
      | _ => None
      end
  end
with parse_elements (fuel : nat) (t : text) {struct fuel}
  : option (list value * text) :=
  match fuel with
  | O => None
  | S fuel =>
      match parse_value fuel t with
      | Some (v, rest) =>
          match skip_whitespace rest with
          | LComma :: rest' =>
              match parse_elements fuel rest' with
              | Some (vs, rest'') => Some (v :: vs, rest'')
              | None => None
              end
          | LEndArray :: rest' => Some ([v], rest')
          | _ => None
          end
      | None => None
      end
  end
with parse_members (fuel : nat) (acc : list (jsstring * value)) (t : text)
  {struct fuel} : option (list (jsstring * value) * text) :=
  match fuel with
  | O => None
  | S fuel =>
      match skip_whitespace t with
      | LString k :: rest =>
          match skip_whitespace rest with
          | LColon :: rest' =>
              match parse_value fuel rest' with
              | Some (v, rest'') =>
                  match skip_whitespace rest'' with
                  | LComma :: r => parse_members fuel (define_property k v acc) r
                  | LEndObject :: r => Some (define_property k v acc, r)
                  | _ => None
                  end
              | None => None
              end
          | _ => None
          end
      | _ => None
      end
  end.

(** [JSON.parse(t)]: one value, then nothing but whitespace; anything
    else is a [SyntaxError].  A descent is never deeper than the text is
    long. *)
Definition JSON_parse (t : text) : completion value :=
  match parse_value (S (length t)) t with
  | Some (v, rest) =>
      match skip_whitespace rest with
      | [] => Returned v
      | _ :: _ => Thrown SyntaxError
      end
  | None => Thrown SyntaxError
  end.

End Json.

Import Json.

(* ===================================================================== *)
(** * Part IV. The data model and the handlers                            *)
(* ===================================================================== *)

(** ** The data model (lines 10-30) *)

(** [status: 'Not Started' | 'In Progress' | 'Completed'] *)
Inductive ProjectStatus := NotStarted | InProgress | Completed.

(** [type: 'project' | 'chapter'] *)
Inductive ProjectType := project | chapter.

Record ProjectMetadata := mkProjectMetadata {
  status : ProjectStatus;
  wordCountGoal : number;
  actualWordCount : number;
  lastModified : jsstring;
  creationDate : jsstring;
  completionPercentage : number;
  tags : list jsstring;
  author : jsstring;
  estimatedReadingTime : number;
  version : jsstring
}.

(** [content?: string]: [None] when the object has no such property. *)
Unset Elimination Schemes.
Inductive Project := mkProject {
  id : number;
  name : jsstring;
  type : ProjectType;
  children : list Project;
  content : option jsstring;
  metadata : ProjectMetadata
}.
Set Elimination Schemes.

Definition ProjectType_eqb (a b : ProjectType) : bool :=
  match a, b with
  | project, project | chapter, chapter => true
  | _, _ => false
  end.

(** Object spread with properties replaced: [{ ...project, children }] and
    [{ ...project, content, metadata }]. *)
Definition with_children (p : Project) (cs : list Project) : Project :=
  mkProject (id p) (name p) (type p) cs (content p) (metadata p).

Definition with_content_metadata (p : Project) (c : jsstring)
  (m : ProjectMetadata) : Project :=
  mkProject (id p) (name p) (type p) (children p) (Some c) m.

(** [{ ...base, ...patch }] on metadata.  [ProjectMetadata] has no optional
    property, so every property of [patch] is present and wins. *)
Definition spread_metadata (base patch : ProjectMetadata) : ProjectMetadata :=
  {| status := status patch;
     wordCountGoal := wordCountGoal patch;
     actualWordCount := actualWordCount patch;
     lastModified := lastModified patch;
     creationDate := creationDate patch;
     completionPercentage := completionPercentage patch;
     tags := tags patch;
     author := author patch;
     estimatedReadingTime := estimatedReadingTime patch;
     version := version patch |}.

(** ** Creation (lines 154-209) *)

(** The clock: [Date.now()] and the two [new Date().toISOString()] of an
    object literal, in the order they are read. *)
Record Clock := mkClock {
  Date_now : number;
  lastModified_iso : jsstring;
  creationDate_iso : jsstring
}.

Definition newMetadata (clock : Clock) : ProjectMetadata :=
  {| status := NotStarted;
     wordCountGoal := Number_of_Z 0;
     actualWordCount := Number_of_Z 0;
     lastModified := lastModified_iso clock;
     creationDate := creationDate_iso clock;
     completionPercentage := Number_of_Z 0;
     tags := [];
     author := js "";
     estimatedReadingTime := Number_of_Z 0;
     version := js "1.0" |}.

(** [handleCreateNewProject] (and [handleSaveNewProject], which has the
    same body): [setProjects([...projects, newProject])]. *)
Definition handleCreateNewProject (projects : list Project)
  (newProjectName : jsstring) (clock : Clock) : list Project :=
  let newProject :=
    mkProject (Date_now clock) newProjectName project [] None (newMetadata clock) in
  projects ++ [newProject].

(** [addChapterToProject]: a [map] over the root list. *)
Definition addChapterToProject (projects : list Project) (projectId : number)
  (newChapter : Project) : list Project :=
  List.map (fun p =>
    if num_eqb (id p) projectId
    then with_children p (children p ++ [newChapter])
    else p) projects.

Definition newChapter (clock : Clock) : Project :=
  mkProject (Date_now clock) (js "New Chapter") chapter [] (Some (js ""))
    (newMetadata clock).

Definition handleCreateNewChapter (projects : list Project) (projectId : number)
  (clock : Clock) : list Project :=
  addChapterToProject projects projectId (newChapter clock).

(** ** Deletion (lines 211-225) *)

(** [projects.filter(project => project.id !== projectId)] *)
Definition handleDeleteProject (projects : list Project) (projectId : number)
  : list Project :=
  List.filter (fun p => negb (num_eqb (id p) projectId)) projects.

Definition handleDeleteChapter (projects : list Project)
  (projectId chapterId : number) : list Project :=
  List.map (fun p =>
    if num_eqb (id p) projectId
    then with_children p
           (List.filter (fun c => negb (num_eqb (id c) chapterId)) (children p))
    else p) projects.

(** The Delete button of a row (line 382):
    [project.type === 'project' ? handleDeleteProject(project.id)
                                : handleDeleteChapter(project.id, project.id)]. *)
Definition deleteButton (projects : list Project) (row : Project) : list Project :=
  match type row with
  | project => handleDeleteProject projects (id row)
  | chapter => handleDeleteChapter projects (id row) (id row)
  end.

(** ** Saving content (lines 251-283) *)

(** The callback of the [map] in [updateProjectContent], which calls
    [updateProjectContent] on the children of a project. *)
Fixpoint updateProject (id0 : number) (c : jsstring) (m : ProjectMetadata)
  (p : Project) {struct p} : Project :=
  if num_eqb (id p) id0
  then with_content_metadata p c (spread_metadata (metadata p) m)
  else match children p with
       | [] => p
       | _ :: _ => with_children p (List.map (updateProject id0 c m) (children p))
       end.

(** [updateProjectContent]: the node with the id is replaced where the
    [map] meets it; below any other node with children the function
    recurses. *)
Definition updateProjectContent (projects : list Project) (id0 : number)
  (c : jsstring) (m : ProjectMetadata) : list Project :=
  List.map (updateProject id0 c m) projects.

(** What [handleSaveContent] reads from the editor:
    [contentState.getPlainText()] and
    [JSON.stringify(convertToRaw(contentState))]. *)
Record EditorContent := mkEditorContent {
  getPlainText : jsstring;
  rawContent : jsstring
}.

Definition updatedMetadata (old : ProjectMetadata) (newWordCount : number)
  (now : jsstring) : ProjectMetadata :=
  {| status := status old;
     wordCountGoal := wordCountGoal old;
     actualWordCount := newWordCount;
     lastModified := now;
     creationDate := creationDate old;
     completionPercentage :=
       Math_min (num_mul (num_div newWordCount (wordCountGoal old))
                         (Number_of_Z 100))
                (Number_of_Z 100);
     tags := tags old;
     author := author old;
     estimatedReadingTime := Math_ceil (num_div newWordCount (Number_of_Z 250));
     version := version old |}.

(** [handleSaveContent]: nothing happens unless a chapter is selected;
    otherwise the new list of projects (also written to local storage)
    and the new selection. *)
Definition handleSaveContent (projects : list Project)
  (selectedProject : option Project) (editor : EditorContent) (now : jsstring)
  : option (list Project * Project) :=
  match selectedProject with
  | Some sel =>
      if ProjectType_eqb (type sel) chapter
      then
        let c := rawContent editor in
        let newWordCount := Number_of_nat (countWords (getPlainText editor)) in
        let md := updatedMetadata (metadata sel) newWordCount now in
        let updatedProjects := updateProjectContent projects (id sel) c md in
        Some (updatedProjects, with_content_metadata sel c md)
      else None
  | None => None
  end.

(** ** Drag and drop (lines 77-83) *)

(** What the drag-and-drop library hands to [onDragEnd]: the list a row
    was taken from and the place it was dropped at, each a droppable id
    (["projectList-<level>"], line 347) and an index in that list. *)
Record DraggableLocation := mkLocation {
  droppableId : jsstring;
  index : nat
}.

Record DropResult := mkDropResult {
  source : DraggableLocation;
  destination : option DraggableLocation
}.

(** [items.splice(i, 1)]: the array without its element [i], and the
    removed elements (none when [i] is past the end). *)
Definition Array_splice_remove {A : Type} (i : nat) (items : list A)
  : list A * list A :=
  (firstn i items ++ skipn (S i) items, firstn 1 (skipn i items)).

(** [items.splice(j, 0, x)]: [x] inserted before position [j], at the end
    when [j] is past it. *)
Definition Array_splice_insert {A : Type} (j : nat) (x : A) (items : list A)
  : list A :=
  firstn j items ++ x :: skipn j items.

(** [onDragEnd].  [None]: no destination, nothing is set.  An element of
    the new array is [None] where the array holds [undefined] (the
    destructuring [[reorderedItem]] of an empty array). *)
Definition onDragEnd (projects : list Project) (result : DropResult)
  : option (list (option Project)) :=
  match destination result with
  | None => None
  | Some dest =>
      let items := List.map Some projects in
      let '(items, removed) := Array_splice_remove (index (source result)) items in
      let reorderedItem := match removed with x :: _ => x | [] => None end in
      Some (Array_splice_insert (index dest) reorderedItem items)
  end.

(** ** Looking at a forest *)

(** The nodes of a forest whose id is [id0], at any depth. *)
Fixpoint occurrences_node (id0 : number) (p : Project) {struct p} : nat :=
  (if num_eqb (id p) id0 then 1 else 0)
  + list_sum (List.map (occurrences_node id0) (children p)).

Definition occurrences (id0 : number) (projects : list Project) : nat :=
  list_sum (List.map (occurrences_node id0) projects).

(** The first node with id [id0] in document order (a node before its
    children, siblings from left to right). *)
Fixpoint find_node (id0 : number) (p : Project) {struct p} : option Project :=
  if num_eqb (id p) id0 then Some p
  else (fix find_in (l : list Project) : option Project :=
          match l with
          | [] => None
          | q :: rest =>
              match find_node id0 q with
              | Some r => Some r
              | None => find_in rest
              end
          end) (children p).

Fixpoint find_project (id0 : number) (projects : list Project) : option Project :=
  match projects with
  | [] => None
  | q :: rest =>
      match find_node id0 q with
      | Some r => Some r
      | None => find_project id0 rest
      end
  end.

(** ** A forest as a value *)

(** The objects the application builds, with their properties in the
    order of the object literals (lines 155-172 and 179-197). *)
Definition value_of_status (st : ProjectStatus) : value :=
  VString (match st with
           | NotStarted => js "Not Started"
           | InProgress => js "In Progress"
           | Completed => js "Completed"
           end).

Definition value_of_type (t : ProjectType) : value :=
  VString (match t with project => js "project" | chapter => js "chapter" end).

Definition value_of_metadata (m : ProjectMetadata) : value :=
  VObject
    [ (js "status", value_of_status (status m));
      (js "wordCountGoal", VNumber (wordCountGoal m));
      (js "actualWordCount", VNumber (actualWordCount m));
      (js "lastModified", VString (lastModified m));
      (js "creationDate", VString (creationDate m));
      (js "completionPercentage", VNumber (completionPercentage m));
      (js "tags", VArray (List.map VString (tags m)));
      (js "author", VString (author m));
      (js "estimatedReadingTime", VNumber (estimatedReadingTime m));
      (js "version", VString (version m)) ].

Fixpoint value_of_project (p : Project) {struct p} : value :=
  VObject
    ([ (js "id", VNumber (id p));
       (js "name", VString (name p));
       (js "type", value_of_type (type p));
       (js "children", VArray (List.map value_of_project (children p))) ]
     ++ match content p with
        | Some c => [ (js "content", VString c) ]
        | None => []
        end
     ++ [ (js "metadata", value_of_metadata (metadata p)) ]).

Definition value_of_projects (projects : list Project) : value :=
  VArray (List.map value_of_project projects).

(** A number that a JSON text can hold and give back: finite, and not the
    negative zero. *)
Definition json_number (x : number) : bool :=
  match x with
  | S754_finite _ _ _ | S754_zero false => true
  | _ => false
  end.

(** The numbers of the schema: the id of every node and the numeric fields
    of its metadata are numbers in that sense. *)
Definition valid_metadata (m : ProjectMetadata) : bool :=
  json_number (wordCountGoal m) && json_number (actualWordCount m)
  && json_number (completionPercentage m)
  && json_number (estimatedReadingTime m).

Fixpoint valid_project (p : Project) {struct p} : bool :=
  json_number (id p) && valid_metadata (metadata p)
  && forallb valid_project (children p).

Definition schema_valid (projects : list Project) : bool :=
  forallb valid_project projects.

(** ** Persistence (lines 37-66) and import, export (lines 101-126) *)

(** The item ['projects'] of the local storage: [None] is [null]. *)
Definition Storage := option text.

(** The state of the component that these handlers touch: the projects in
    memory, which after an import are whatever value the file held, and
    the stored item. *)
Record AppState := mkAppState {
  projects_in_memory : value;
  localStorage : Storage
}.

Definition saveProjectsToLocalStorage (projects : value) : Storage :=
  Some (JSON_stringify projects).

(** [loadProjectsFromLocalStorage]: [if (savedProjects)] holds for a
    string that is not empty. *)
Definition loadProjectsFromLocalStorage (storage : Storage) : completion value :=
  match storage with
  | Some ((_ :: _) as savedProjects) => JSON_parse savedProjects
  | Some [] | None => Returned (VArray [])
  end.

(** [setProjects] of [useProjectsWithStorage]: the new value is stored and
    becomes the state. *)
Definition setProjects (st : AppState) (newProjects : value) : AppState :=
  mkAppState newProjects (saveProjectsToLocalStorage newProjects).

(** [handleExportProjects]: the text of the file offered for download. *)
Definition handleExportProjects (st : AppState) : text :=
  JSON_stringify (projects_in_memory st).

(** [handleImportProjects], once the file is read: the state after the
    two calls of the callback [reader.onload], [JSON.parse] and
    [setProjects], and how they ended.  The new state is then rendered
    ([renderProjects_rows] below). *)
Definition handleImportProjects (st : AppState) (content : text)
  : AppState * completion unit :=
  match JSON_parse content with
  | Returned importedProjects => (setProjects st importedProjects, Returned tt)
  | Thrown e => (st, Thrown e)
  end.

(** ** Renaming (lines 305-319) *)

(** [{ ...project, name: newName }] *)
Definition with_name (p : Project) (n : jsstring) : Project :=
  mkProject (id p) n (type p) (children p) (content p) (metadata p).

(** The callback of the [map] in [updateProjectName]. *)
Fixpoint updateName (id0 : number) (newName : jsstring) (p : Project)
  {struct p} : Project :=
  if num_eqb (id p) id0
  then with_name p newName
  else match children p with
       | [] => p
       | _ :: _ => with_children p (List.map (updateName id0 newName) (children p))
       end.

Definition updateProjectName (projects : list Project) (id0 : number)
  (newName : jsstring) : list Project :=
  List.map (updateName id0 newName) projects.

(** [handleRename]: [setProjects(updateProjectName(projects, id, newName))];
    the selection is not touched. *)
Definition handleRename (projects : list Project) (id0 : number)
  (newName : jsstring) : list Project :=
  updateProjectName projects id0 newName.

(** ** Editing metadata (lines 285-303) *)

(** [{ ...project, metadata }] *)
Definition with_metadata (p : Project) (m : ProjectMetadata) : Project :=
  mkProject (id p) (name p) (type p) (children p) (content p) m.

(** The callback of the [map] in [updateProjectMetadata]. *)
Fixpoint updateMetadata (id0 : number) (m : ProjectMetadata) (p : Project)
  {struct p} : Project :=
  if num_eqb (id p) id0
  then with_metadata p (spread_metadata (metadata p) m)
  else match children p with
       | [] => p
       | _ :: _ => with_children p (List.map (updateMetadata id0 m) (children p))
       end.

Definition updateProjectMetadata (projects : list Project) (id0 : number)
  (m : ProjectMetadata) : list Project :=
  List.map (updateMetadata id0 m) projects.

(** [handleUpdateMetadata]: nothing happens without a selection; otherwise
    the new list of projects, the new selection and the new value of
    [isEditingMetadata], which is [false]. *)
Definition handleUpdateMetadata (projects : list Project)
  (selectedProject : option Project) (newMetadata : ProjectMetadata)
  : option (list Project * Project * bool) :=
  match selectedProject with
  | Some sel =>
      Some (updateProjectMetadata projects (id sel) newMetadata,
            with_metadata sel newMetadata,
            false)
  | None => None
  end.

(** ** Starting, clearing, saving and loading (lines 49-52, 85-99) *)

(** [getInitialProjects] (lines 49-52): what the component starts with. *)
Definition getInitialProjects (storage : Storage) : completion value :=
  loadProjectsFromLocalStorage storage.

(** [clearLocalStorage] (lines 85-88): [localStorage.removeItem('projects')],
    then [setProjects([])]. *)
Definition clearLocalStorage (st : AppState) : AppState :=
  setProjects (mkAppState (projects_in_memory st) None) (VArray []).

(** [handleSaveAllProjects] (lines 90-93) *)
Definition handleSaveAllProjects (st : AppState) : AppState :=
  mkAppState (projects_in_memory st)
             (saveProjectsToLocalStorage (projects_in_memory st)).

(** [handleLoadProjects] (lines 95-99): the state after the call, and how
    the call ended. *)
Definition handleLoadProjects (st : AppState) : AppState * completion unit :=
  match loadProjectsFromLocalStorage (localStorage st) with
  | Returned loadedProjects => (setProjects st loadedProjects, Returned tt)
  | Thrown e => (st, Thrown e)
  end.

(** ** The metadata editor (lines 409-489) *)

Definition COMMA : code_unit := 44%N.

(** The text shown in the field of the tags (line 458):
    [tags.join(', ')]. *)
Definition tags_value (tags : list jsstring) : jsstring :=
  Array_join (js ", ") tags.

(** The tags read from the text of the field (line 459):
    [e.target.value.split(',').map(tag => tag.trim())]. *)
Definition tags_of_input (value : jsstring) : list jsstring :=
  List.map String_trim (String_split_char COMMA value).

(** [{ ...selectedProject.metadata, tags: ... }] *)
Definition with_tags (m : ProjectMetadata) (newTags : list jsstring)
  : ProjectMetadata :=
  {| status := status m;
     wordCountGoal := wordCountGoal m;
     actualWordCount := actualWordCount m;
     lastModified := lastModified m;
     creationDate := creationDate m;
     completionPercentage := completionPercentage m;
     tags := newTags;
     author := author m;
     estimatedReadingTime := estimatedReadingTime m;
     version := version m |}.

(** The [onChange] of the field of the tags (line 459). *)
Definition onChange_tags (projects : list Project) (sel : Project)
  (value : jsstring) : option (list Project * Project * bool) :=
  handleUpdateMetadata projects (Some sel)
    (with_tags (metadata sel) (tags_of_input value)).

(** [{ ...selectedProject.metadata, wordCountGoal: ... }] *)
Definition with_wordCountGoal (m : ProjectMetadata) (goal : number)
  : ProjectMetadata :=
  {| status := status m;
     wordCountGoal := goal;
     actualWordCount := actualWordCount m;
     lastModified := lastModified m;
     creationDate := creationDate m;
     completionPercentage := completionPercentage m;
     tags := tags m;
     author := author m;
     estimatedReadingTime := estimatedReadingTime m;
     version := version m |}.

(** The [onChange] of the field of the goal (line 434):
    [handleUpdateMetadata({ ...selectedProject.metadata,
                            wordCountGoal: parseInt(e.target.value) })]. *)
Definition onChange_wordCountGoal (projects : list Project) (sel : Project)
  (value : jsstring) : option (list Project * Project * bool) :=
  handleUpdateMetadata projects (Some sel)
    (with_wordCountGoal (metadata sel) (parseInt value)).

(** ** What a drag stores (lines 77-83, 57-63) *)

(** What [setProjects(items)] stores at the end of [onDragEnd]:
    [JSON.stringify] writes [null] for an element of an array that is
    [undefined]. *)
Definition value_of_item (item : option Project) : value :=
  match item with
  | Some p => value_of_project p
  | None => VNull
  end.

Definition saveItemsToLocalStorage (items : list (option Project)) : Storage :=
  Some (JSON_stringify (VArray (List.map value_of_item items))).

(** ** Rendering the lists (lines 345-407) *)

(** The decimal numeral of a level, as a template literal writes it. *)
Fixpoint decimal_digits (fuel : nat) (n : N) (acc : jsstring) : jsstring :=
  match fuel with
  | O => acc
  | S fuel =>
      let acc' := (48 + n mod 10)%N :: acc in
      if (n / 10 =? 0)%N then acc' else decimal_digits fuel (n / 10)%N acc'
  end.

Definition String_of_level (level : nat) : jsstring :=
  decimal_digits (S level) (N.of_nat level) [].

(** What [renderProjects] builds, as far as drag and drop sees it: a
    [Droppable] with its [droppableId] and [type], and in it one
    [Draggable] for each project (its [draggableId] is the id of the
    project), with its index in the list and, for a project of type
    ['project'], the rendering of its children one level down. *)
Inductive Droppable :=
| mkDroppable (droppableId type_ : jsstring) (draggables : list Draggable)
with Draggable :=
| mkDraggable (row : Project) (index : nat) (nested : option Droppable).

Fixpoint renderDraggable (level : nat) (index : nat) (p : Project) {struct p}
  : Draggable :=
  mkDraggable p index
    (match type p with
     | project =>
         Some (mkDroppable
                 (js "projectList-" ++ String_of_level (S level))
                 (js "level-" ++ String_of_level (S level))
                 ((fix rows (i : nat) (l : list Project) : list Draggable :=
                     match l with
                     | [] => []
                     | q :: r => renderDraggable (S level) i q :: rows (S i) r
                     end) 0 (children p)))
     | chapter => None
     end).

Fixpoint renderRows (level : nat) (i : nat) (l : list Project) : list Draggable :=
  match l with
  | [] => []
  | q :: r => renderDraggable level i q :: renderRows level (S i) r
  end.

(** [renderProjects(projects, level)] *)
Definition renderProjects (projects : list Project) (level : nat) : Droppable :=
  mkDroppable (js "projectList-" ++ String_of_level level)
              (js "level-" ++ String_of_level level)
              (renderRows level 0 projects).

(** [projects.map(...)] (line 350), in the function that
    [renderProjects(projects)] (line 550) hands to its [Droppable], on
    whatever the state holds: the rows to be rendered.  A value read by
    [JSON.parse] holds no function, so only an array has the method [map];
    for any other value the call throws a [TypeError] (for [null] the
    access to the property does). *)
Definition renderProjects_rows (projects : value) : completion (list value) :=
  match projects with
  | VArray items => Returned items
  | VNull | VBoolean _ | VNumber _ | VString _ | VObject _ => Thrown TypeError
  end.

(** ** The form of a new project (lines 72-73, 154-176, 227-249, 551-566) *)

(** The two hooks of the form: [useState('')] and [useState(false)]. *)
Record NewProjectForm := mkNewProjectForm {
  newProjectName : jsstring;
  isCreatingNewProject : bool
}.

Definition initialForm : NewProjectForm := mkNewProjectForm [] false.

(** What can happen to the forest and to the form.  The setters of the
    two hooks are called in [handleCreateNewProject] (the button New
    Project, line 513), in [handleSaveNewProject] (the button Save of the
    form, line 562) and in the [onChange] of the input of the form
    (line 556); the form, its input and its button are rendered while
    [isCreatingNewProject] holds (line 551).  Every other handler leaves
    the two hooks alone and sets the forest at most. *)
Inductive FormEvent :=
| NewProjectButton (clock : Clock)
| SaveButton (clock : Clock)
| NameInput (value : jsstring)
| OtherHandler (change : list Project -> list Project).

Definition formStep (st : list Project * NewProjectForm) (ev : FormEvent)
  : list Project * NewProjectForm :=
  let '(projects, form) := st in
  match ev with
  | NewProjectButton clock =>
      (handleCreateNewProject projects (newProjectName form) clock,
       mkNewProjectForm [] false)
  | SaveButton clock =>
      if isCreatingNewProject form
      then (handleCreateNewProject projects (newProjectName form) clock,
            mkNewProjectForm [] false)
      else st
  | NameInput value =>
      if isCreatingNewProject form
      then (projects, mkNewProjectForm value (isCreatingNewProject form))
      else st
  | OtherHandler f => (f projects, form)
  end.

Definition formRun (st : list Project * NewProjectForm) (events : list FormEvent)
  : list Project * NewProjectForm :=
  fold_left formStep events st.

(* ===================================================================== *)
(** * Part V. The vocabulary of the properties                            *)
(* ===================================================================== *)

(** ** Strings *)

(** No match of the pattern is left at any position of the result. *)
Definition tag_free (s : jsstring) : Prop :=
  forall pre post, s = pre ++ post -> match_tag post = None.

(** Whether the last character of a string is whitespace. *)
Fixpoint last_is_whitespace (s : jsstring) : bool :=
  match s with
  | [] => false
  | c :: rest =>
      match rest with
      | [] => is_whitespace c
      | _ :: _ => last_is_whitespace rest
      end
  end.

(** Whether the first character of a string is whitespace. *)
Definition head_is_whitespace (s : jsstring) : bool :=
  match s with
  | [] => false
  | c :: _ => is_whitespace c
  end.

(** The tokens that [countWords] counts. *)
Definition tokens (content : jsstring) : list jsstring :=
  String_split_whitespace (String_trim (String_replace_tags content)).

(** The words of the specification of [countWords], each step by what it
    does to its input. *)

(** A match of the pattern [<[^>]+>]: a [<], one or more characters other
    than [>], and a [>]. *)
Definition tag (g : jsstring) : Prop :=
  exists body, g = LESS_THAN :: body ++ [GREATER_THAN]
               /\ body <> [] /\ ~ In GREATER_THAN body.

(** No tag starts at the head of the string. *)
Definition no_tag_at_head (s : jsstring) : Prop :=
  forall g rest, tag g -> s <> g ++ rest.

(** [stripped s r]: [r] is [s] without its tags.  The string is read from
    left to right; where a tag starts, the tag is left out and the reading
    goes on behind it; any other character is kept. *)
Inductive stripped : jsstring -> jsstring -> Prop :=
| stripped_end : stripped [] []
| stripped_tag g s r : tag g -> stripped s r -> stripped (g ++ s) r
| stripped_char c s r :
    no_tag_at_head (c :: s) -> stripped s r -> stripped (c :: s) (c :: r).

Definition all_whitespace (s : jsstring) : Prop :=
  Forall (fun c => is_whitespace c = true) s.

Definition no_whitespace (s : jsstring) : Prop :=
  Forall (fun c => is_whitespace c = false) s.

(** [trimmed s t]: [t] is [s] without the whitespace at its two ends. *)
Definition trimmed (s t : jsstring) : Prop :=
  exists before after,
    s = before ++ t ++ after
    /\ all_whitespace before /\ all_whitespace after
    /\ head_is_whitespace t = false /\ last_is_whitespace t = false.

(** [split_at_whitespace s toks]: [toks] are the pieces of [s] between its
    runs of whitespace, each run taken whole. *)
Inductive split_at_whitespace : jsstring -> list jsstring -> Prop :=
| split_last tok : no_whitespace tok -> split_at_whitespace tok [tok]
| split_more tok sep rest toks :
    no_whitespace tok ->
    sep <> [] -> all_whitespace sep -> head_is_whitespace rest = false ->
    split_at_whitespace rest toks ->
    split_at_whitespace (tok ++ sep ++ rest) (tok :: toks).

(** ** Numbers *)

(** [x] is NaN or carries the sign bit [s]. *)
Definition has_sign (s : bool) (x : number) : Prop :=
  match x with
  | S754_nan => True
  | S754_zero t | S754_infinity t | S754_finite t _ _ => t = s
  end.

(** The clamp of the specification: [max(lo, min(x, hi))]. *)
Definition clamp (x lo hi : number) : number := Math_max lo (Math_min x hi).

(** The mantissas of 1 and of 100 as normal numbers:
    [1 = 2^52 * 2^-52] and [100 = (100 * 2^46) * 2^-46]. *)
Definition two_pow_52 : positive := 4503599627370496.

Definition one_hundred : positive := 7036874417766400.

(** ** Lists and forests *)

(** Moving the element at [i] to position [j] of a list. *)
Definition move {A : Type} (i j : nat) (l : list A) : list A :=
  match nth_error l i with
  | Some x => Array_splice_insert j x (firstn i l ++ skipn (S i) l)
  | None => l
  end.

(** Induction on a project with the hypothesis for each of its children. *)
Section ProjectInduction.

Variable P : Project -> Prop.
Hypothesis step :
  forall i n t cs c m, Forall P cs -> P (mkProject i n t cs c m).

Fixpoint Project_ind (p : Project) : P p :=
  match p with
  | mkProject i n t cs c m =>
      step i n t cs c m
        ((fix all (l : list Project) : Forall P l :=
            match l with
            | [] => Forall_nil P
            | q :: r => Forall_cons q (Project_ind q) (all r)
            end) cs)
  end.

End ProjectInduction.

(** ** Values *)

(** Induction on a value with the hypothesis for each element of an array
    and each property value of an object. *)
Section ValueInduction.

Variable P : value -> Prop.
Hypothesis P_null : P VNull.
Hypothesis P_boolean : forall b, P (VBoolean b).
Hypothesis P_number : forall x, P (VNumber x).
Hypothesis P_string : forall s, P (VString s).
Hypothesis P_array : forall items, Forall P items -> P (VArray items).
Hypothesis P_object :
  forall properties, Forall (fun kv => P (snd kv)) properties ->
                     P (VObject properties).

Fixpoint value_ind (v : value) : P v :=
  match v with
  | VNull => P_null
  | VBoolean b => P_boolean b
  | VNumber x => P_number x
  | VString s => P_string s
  | VArray items =>
      P_array items
        ((fix all (l : list value) : Forall P l :=
            match l with
            | [] => Forall_nil P
            | x :: r => Forall_cons x (value_ind x) (all r)
            end) items)
  | VObject properties =>
      P_object properties
        ((fix all (l : list (jsstring * value))
            : Forall (fun kv => P (snd kv)) l :=
            match l with
            | [] => Forall_nil _
            | kv :: r => Forall_cons kv (value_ind (snd kv)) (all r)
            end) properties)
  end.

End ValueInduction.

(** A property name that is no array index. *)
Definition plain_key (k : jsstring) : bool :=
  match array_index k with
  | None => true
  | Some _ => false
  end.

(** No name occurs twice. *)
Fixpoint distinct (ks : list jsstring) : bool :=
  match ks with
  | [] => true
  | k :: rest => negb (existsb (String_eqb k) rest) && distinct rest
  end.

Definition plain_keys (ks : list jsstring) : bool :=
  forallb plain_key ks && distinct ks.

(** The values that [JSON.stringify] writes without loss: their numbers
    are JSON numbers, and the names of the properties of an object are
    distinct and are no array indices (they then keep the order in which
    they are defined). *)
Fixpoint representable (v : value) : bool :=
  match v with
  | VNull | VBoolean _ | VString _ => true
  | VNumber x => json_number x
  | VArray items => forallb representable items
  | VObject properties =>
      plain_keys (List.map fst properties)
      && forallb (fun kv => representable (snd kv)) properties
  end.

(** The lexemes a value may start with. *)
Definition starts_value (l : lexeme) : bool :=
  match l with
  | LNull | LTrue | LFalse | LNumber _ | LString _
  | LBeginArray | LBeginObject => true
  | _ => false
  end.

(** What [JSON.stringify] writes for one property: [name : value]. *)
Definition member (kv : jsstring * value) : text :=
  LString (fst kv) :: LColon :: stringify (snd kv).

(** [v] is read back from what [JSON.stringify] writes for it, whatever
    follows, by a descent as deep as the text is long. *)
Definition reads_back (v : value) : Prop :=
  representable v = true ->
  forall fuel rest,
    length (stringify v) <= fuel ->
    parse_value fuel (stringify v ++ rest) = Some (v, rest).

(** ** Sample data *)

Definition sample_clock : Clock :=
  mkClock (Number_of_Z 1700000000000)
          (js "2023-11-14T22:13:20.000Z") (js "2023-11-14T22:13:20.001Z").

Definition sample_metadata (goal : number) : ProjectMetadata :=
  {| status := InProgress;
     wordCountGoal := goal;
     actualWordCount := Number_of_Z 0;
     lastModified := js "2023-11-14T22:13:20.000Z";
     creationDate := js "2023-11-14T22:13:20.000Z";
     completionPercentage := Number_of_Z 0;
     tags := [js "draft"];
     author := js "A. Writer";
     estimatedReadingTime := Number_of_Z 0;
     version := js "1.0" |}.

Definition sample_chapter (i : Z) (goal : number) : Project :=
  mkProject (Number_of_Z i) (js "Chapter") chapter [] (Some (js ""))
    (sample_metadata goal).

Definition sample_project (i : Z) (cs : list Project) : Project :=
  mkProject (Number_of_Z i) (js "Book") project cs None
    (sample_metadata (Number_of_Z 50000)).

Definition sample_editor (text : jsstring) : EditorContent :=
  mkEditorContent text (js "{blocks:[],entityMap:{}}").

Definition five_hundred_words : jsstring :=
  List.concat (List.repeat (js "word ") 500).

Definition sample_forest : list Project :=
  [sample_project 1 [sample_chapter 2 (Number_of_Z 2000);
                     sample_chapter 3 (Number_of_Z 0)];
   sample_project 4 []].

Definition sample_state : AppState :=
  setProjects (mkAppState (VArray []) None) (value_of_projects sample_forest).

(** A chapter of the forest whose metadata differ from those of
    [sample_chapter]: it is finished, with other tags, and its goal is
    2000. *)
Definition finished_chapter (i : Z) : Project :=
  mkProject (Number_of_Z i) (js "Chapter") chapter [] (Some (js ""))
    {| status := Completed;
       wordCountGoal := Number_of_Z 2000;
       actualWordCount := Number_of_Z 0;
       lastModified := js "2023-11-14T22:13:20.000Z";
       creationDate := js "2023-11-14T22:13:20.000Z";
       completionPercentage := Number_of_Z 0;
       tags := [js "final"];
       author := js "A. Writer";
       estimatedReadingTime := Number_of_Z 0;
       version := js "2.0" |}.

(** A snapshot cut off in the middle: [[{"id":1]. *)
Definition truncated_snapshot : text :=
  [LBeginArray; LBeginObject; LString (js "id"); LColon; LNumber (Number_of_Z 1)].

(** A file that holds one object and no list of projects:
    [{"name": "Notes"}]. *)
Definition notes_file : text :=
  [LBeginObject; LString (js "name"); LColon; LWhitespace;
   LString (js "Notes"); LEndObject].

(** ** Updates, written values, fields, renderings *)

(** The shape the three recursive updates share: the nodes with the id
    that the descent meets are replaced by [f]; the descent stops there. *)
Fixpoint update_node (id0 : number) (f : Project -> Project) (p : Project)
  {struct p} : Project :=
  if num_eqb (id p) id0
  then f p
  else match children p with
       | [] => p
       | _ :: _ => with_children p (List.map (update_node id0 f) (children p))
       end.

(** [f] applied to every node of a tree, the children first. *)
Fixpoint everywhere (f : Project -> Project) (p : Project) {struct p} : Project :=
  f (with_children p (List.map (everywhere f) (children p))).

(** [f] applied to the nodes with the id only. *)
Definition at_id (id0 : number) (f : Project -> Project) (p : Project) : Project :=
  if num_eqb (id p) id0 then f p else p.

(** A change of a node that leaves its id and its children alone. *)
Definition local_change (f : Project -> Project) : Prop :=
  (forall p, id (f p) = id p)
  /\ (forall p cs, f (with_children p cs) = with_children (f p) cs).

(** What a text written by [JSON.stringify] holds in the place of a
    number: NaN and the infinities are written [null], the negative zero
    is written [0]. *)
Definition written_number (x : number) : value :=
  match number_lexeme x with
  | LNumber y => VNumber y
  | _ => VNull
  end.

(** A value with its numbers as they are written. *)
Fixpoint written (v : value) : value :=
  match v with
  | VNumber x => written_number x
  | VArray items => VArray (List.map written items)
  | VObject properties =>
      VObject (List.map (fun kv => (fst kv, written (snd kv))) properties)
  | VNull | VBoolean _ | VString _ => v
  end.

(** The names of the properties of every object in the value are
    distinct and are no array indices. *)
Fixpoint plain_keyed (v : value) : bool :=
  match v with
  | VArray items => forallb plain_keyed items
  | VObject properties =>
      plain_keys (List.map fst properties)
      && forallb (fun kv => plain_keyed (snd kv)) properties
  | VNull | VBoolean _ | VNumber _ | VString _ => true
  end.

(** A tag as the field gives it back: no comma in it, no whitespace at
    its ends. *)
Definition clean_tag (t : jsstring) : Prop :=
  String_trim t = t /\ ~ In COMMA t.

(** The decimal numeral with the digits [ds]. *)
Definition numeral (ds : list N) : jsstring :=
  List.map (fun d => (48 + d)%N) ds.

(** What may follow a numeral: nothing, or a character that is no decimal
    digit and no [x]. *)
Definition ends_numeral (rest : jsstring) : bool :=
  match rest with
  | [] => true
  | c :: _ =>
      match radix_digit 10 c with
      | Some _ => false
      | None => negb ((c =? 120) || (c =? 88))%N
      end
  end.

(** The lists of a rendering: each [Droppable] with its id and the rows
    it holds, in the order of the rendering. *)
Fixpoint droppables (d : Droppable) : list (jsstring * list Project) :=
  match d with
  | mkDroppable i _ rows =>
      (i, List.map (fun r => match r with mkDraggable p _ _ => p end) rows)
      :: (fix below (l : list Draggable) : list (jsstring * list Project) :=
            match l with
            | [] => []
            | mkDraggable _ _ nested :: rest =>
                match nested with
                | Some d' => droppables d' ++ below rest
                | None => below rest
                end
            end) rows
  end.

(** The indices that the rows of a list carry. *)
Definition indices (rows : list Draggable) : list nat :=
  List.map (fun r => match r with mkDraggable _ i _ => i end) rows.

(** No id names two nodes. *)
Definition unique_ids (projects : list Project) : Prop :=
  forall j, occurrences j projects <= 1.

(** The forests the buttons build: projects at the root, and below each
    project chapters that have no children. *)
Definition leaf_chapter (c : Project) : bool :=
  ProjectType_eqb (type c) chapter
  && match children c with [] => true | _ :: _ => false end.

Definition two_level (projects : list Project) : bool :=
  forallb (fun p => ProjectType_eqb (type p) project
                    && forallb leaf_chapter (children p)) projects.

(* ===================================================================== *)
(** * Part VI. Lemmas and theorems                                        *)
(* ===================================================================== *)

(** ** Strings: tags, trimming, tokens *)

Section StringLemmas.

Let nows (c : code_unit) : bool := negb (is_whitespace c).

Lemma replace_tags_unfold (s : jsstring) :
  match s with
  | [] => String_replace_tags s = []
  | c :: rest =>
      (forall after, match_tag s = Some after ->
                     String_replace_tags s = String_replace_tags after)
      /\ (match_tag s = None ->
          String_replace_tags s = c :: String_replace_tags rest)
  end.
Proof.
  funelim (String_replace_tags s).
  - reflexivity.
  - split.
    + intros after' Hm. rewrite e in Hm. now injection Hm as <-.
    + intros Hm. rewrite e in Hm. discriminate.
  - split.
    + intros after' Hm. rewrite e in Hm. discriminate.
    + reflexivity.
Qed.

Lemma replace_tags_match c rest after :
  match_tag (c :: rest) = Some after ->
  String_replace_tags (c :: rest) = String_replace_tags after.
Proof. intros H. now apply (replace_tags_unfold (c :: rest)). Qed.

Lemma replace_tags_nomatch c rest :
  match_tag (c :: rest) = None ->
  String_replace_tags (c :: rest) = c :: String_replace_tags rest.
Proof. intros H. now apply (replace_tags_unfold (c :: rest)). Qed.

(** A match is followed by a suffix of the string. *)
Lemma match_tag_tail_suffix s after :
  match_tag_tail s = Some after -> exists pre, s = pre ++ after.
Proof.
  induction s as [|c rest IH]; simpl; [discriminate|].
  destruct (c =? GREATER_THAN)%N.
  - intros [= ->]. now exists [c].
  - intros H. destruct (IH H) as [pre ->]. now exists (c :: pre).
Qed.

Lemma match_tag_suffix s after :
  match_tag s = Some after -> exists pre, s = pre ++ after.
Proof.
  destruct s as [|c [|d rest]]; simpl; try discriminate.
  destruct ((c =? LESS_THAN) && negb (d =? GREATER_THAN))%N; [|discriminate].
  intros H. destruct (match_tag_tail_suffix _ _ H) as [pre ->].
  now exists (c :: d :: pre).
Qed.

(** Replacing keeps characters of the string, in particular it brings in
    no [>]. *)
Lemma replace_tags_In s x : In x (String_replace_tags s) -> In x s.
Proof.
  remember (length s) as n eqn:Hn. revert s Hn.
  induction n as [n IH] using lt_wf_ind. intros [|c rest] Hn.
  - now rewrite (replace_tags_unfold []).
  - destruct (match_tag (c :: rest)) as [after|] eqn:Hm.
    + rewrite (replace_tags_match _ _ _ Hm). intros Hin.
      destruct (match_tag_suffix _ _ Hm) as [pre Hpre]. rewrite Hpre.
      apply in_or_app. right.
      apply (IH (length after)); auto.
      apply match_tag_shorter in Hm. lia.
    + rewrite (replace_tags_nomatch _ _ Hm). simpl. intros [->|Hin]; auto.
      right. apply (IH (length rest)); auto. simpl in Hn. lia.
Qed.

Lemma replace_tags_length s : length (String_replace_tags s) <= length s.
Proof.
  remember (length s) as n eqn:Hn. revert s Hn.
  induction n as [n IH] using lt_wf_ind. intros [|c rest] Hn.
  - rewrite (replace_tags_unfold []). simpl. lia.
  - destruct (match_tag (c :: rest)) as [after|] eqn:Hm.
    + rewrite (replace_tags_match _ _ _ Hm).
      pose proof (match_tag_shorter _ _ Hm) as Hlt.
      specialize (IH (length after) ltac:(lia) after eq_refl). lia.
    + rewrite (replace_tags_nomatch _ _ Hm). simpl in *.
      specialize (IH (length rest) ltac:(lia) rest eq_refl). lia.
Qed.

Lemma match_tag_tail_None s :
  ~ In GREATER_THAN s -> match_tag_tail s = None.
Proof.
  induction s as [|c rest IH]; simpl; auto.
  intros H. destruct (N.eqb_spec c GREATER_THAN) as [->|_].
  - exfalso. apply H. now left.
  - apply IH. intros Hin. apply H. now right.
Qed.

Lemma match_tag_tail_Some s after :
  match_tag_tail s = Some after -> In GREATER_THAN s.
Proof.
  induction s as [|c rest IH]; simpl; [discriminate|].
  destruct (N.eqb_spec c GREATER_THAN) as [->|_]; auto.
Qed.

Lemma match_tag_tail_In s :
  In GREATER_THAN s -> exists after, match_tag_tail s = Some after.
Proof.
  induction s as [|c rest IH]; simpl; [intros []|].
  destruct (N.eqb_spec c GREATER_THAN) as [->|Hc].
  - intros _. now exists rest.
  - intros [Heq|Hin]; [now elim Hc|]. now apply IH.
Qed.

Lemma match_tag_other c s : c <> LESS_THAN -> match_tag (c :: s) = None.
Proof.
  intros Hc. destruct s as [|d rest]; simpl; [reflexivity|].
  now destruct (N.eqb_spec c LESS_THAN).
Qed.

Lemma tag_free_cons c s :
  match_tag (c :: s) = None -> tag_free s -> tag_free (c :: s).
Proof.
  intros Hc Hs [|c' pre] post Heq; simpl in Heq.
  - now subst post.
  - injection Heq as -> ->. now apply (Hs pre post).
Qed.

(** A character that starts no match in the string starts none in front
    of the result of the replacement either. *)
Lemma replace_tags_keeps_nomatch c rest :
  match_tag (c :: rest) = None ->
  match_tag (c :: String_replace_tags rest) = None.
Proof.
  intros Hm.
  destruct (N.eq_dec c LESS_THAN) as [->|Hc]; [|now apply match_tag_other].
  destruct rest as [|d rest'].
  { now rewrite (replace_tags_unfold []). }
  simpl in Hm.
  destruct (N.eqb_spec d GREATER_THAN) as [->|Hd]; simpl in Hm.
  - (* [<>]: the [>] is kept and still follows the [<] *)
    rewrite replace_tags_nomatch by (now apply match_tag_other).
    reflexivity.
  - (* no [>] after the [<] at all, and the replacement brings in none *)
    destruct (String_replace_tags (d :: rest')) as [|d' out] eqn:Hout;
      [reflexivity|]. simpl.
    destruct (N.eqb_spec d' GREATER_THAN) as [->|Hd']; simpl; [reflexivity|].
    apply match_tag_tail_None. intros Hin.
    assert (Hin' : In GREATER_THAN (d :: rest')).
    { apply replace_tags_In. rewrite Hout. now right. }
    destruct Hin' as [Heq|Hin']; [now apply Hd|].
    destruct (match_tag_tail_In _ Hin') as [after Ha].
    rewrite Ha in Hm. discriminate.
Qed.

Lemma replace_tags_tag_free s : tag_free (String_replace_tags s).
Proof.
  remember (length s) as n eqn:Hn. revert s Hn.
  induction n as [n IH] using lt_wf_ind. intros [|c rest] Hn.
  - rewrite (replace_tags_unfold []). intros [|? ?] post Heq; [|discriminate].
    simpl in Heq. now subst post.
  - destruct (match_tag (c :: rest)) as [after|] eqn:Hm.
    + rewrite (replace_tags_match _ _ _ Hm).
      apply (IH (length after)); auto. apply match_tag_shorter in Hm. lia.
    + rewrite (replace_tags_nomatch _ _ Hm).
      apply tag_free_cons.
      * now apply replace_tags_keeps_nomatch.
      * apply (IH (length rest)); auto. simpl in Hn. lia.
Qed.

(** *** Splitting *)

Lemma split_loop_length_pos b tok s : 1 <= length (split_loop b tok s).
Proof.
  revert b tok. induction s as [|c rest IH]; intros b tok; simpl; [lia|].
  destruct (is_whitespace c); [destruct b|]; simpl; auto.
Qed.

Lemma split_loop_length_le b tok s : length (split_loop b tok s) <= S (length s).
Proof.
  revert b tok. induction s as [|c rest IH]; intros b tok; simpl; [lia|].
  destruct (is_whitespace c); [destruct b|]; simpl.
  - specialize (IH true []). lia.
  - specialize (IH true []). lia.
  - specialize (IH false (c :: tok)). lia.
Qed.

(** The tokens hold the characters that are not whitespace, in order
    (inside a run of whitespace the token under way is empty). *)
Lemma split_loop_concat b tok s :
  (b = true -> tok = []) ->
  concat (split_loop b tok s) = rev tok ++ filter nows s.
Proof.
  revert b tok. induction s as [|c rest IH]; intros b tok Hb; simpl.
  - now rewrite app_nil_r.
  - unfold nows at 1. destruct (is_whitespace c) eqn:Hc; simpl.
    + destruct b; simpl; rewrite IH by reflexivity; simpl.
      * now rewrite (Hb eq_refl).
      * reflexivity.
    + rewrite IH by discriminate. simpl. now rewrite <- app_assoc.
Qed.

Lemma split_loop_nows b tok s :
  Forall (fun c => is_whitespace c = false) tok ->
  Forall (Forall (fun c => is_whitespace c = false)) (split_loop b tok s).
Proof.
  revert b tok. induction s as [|c rest IH]; intros b tok Htok; simpl.
  - constructor; [|constructor]. now apply Forall_rev.
  - destruct (is_whitespace c) eqn:Hc.
    + destruct b.
      * apply IH. constructor.
      * constructor; [now apply Forall_rev|]. apply IH. constructor.
    + apply IH. now constructor.
Qed.

Lemma split_loop_nonempty s : forall b tok,
  last_is_whitespace s = false ->
  (s = [] -> tok <> []) ->
  (b = true \/ tok <> [] \/ (s <> [] /\ head_is_whitespace s = false)) ->
  Forall (fun t => t <> []) (split_loop b tok s).
Proof.
  induction s as [|c rest IH]; intros b tok Hlast Hend Hstart; simpl.
  - constructor; [|constructor]. intros Hr.
    apply (Hend eq_refl). apply (f_equal (@rev _)) in Hr.
    now rewrite rev_involutive in Hr.
  - assert (Hrest : last_is_whitespace rest = false).
    { simpl in Hlast. destruct rest; [reflexivity|exact Hlast]. }
    destruct (is_whitespace c) eqn:Hc.
    + assert (Hne : rest <> []).
      { intros ->. simpl in Hlast. congruence. }
      assert (Hgo : Forall (fun t => t <> []) (split_loop true [] rest)).
      { apply IH; [exact Hrest| |now left]. intros ->. now elim Hne. }
      destruct b; [exact Hgo|]. constructor; [|exact Hgo].
      intros Hr. apply (f_equal (@rev _)) in Hr. rewrite rev_involutive in Hr.
      simpl in Hr.
      destruct Hstart as [Hb|[Ht|[_ Hh]]]; [discriminate|now apply Ht|].
      simpl in Hh. congruence.
    + apply IH; [exact Hrest|intros _|right; left]; discriminate.
Qed.

(** *** Trimming *)

Lemma drop_while_head p s : 
  match drop_while p s with [] => True | c :: _ => p c = false end.
Proof.
  induction s as [|c rest IH]; simpl; [exact I|].
  destruct (p c) eqn:Hc; [exact IH|exact Hc].
Qed.

Lemma drop_while_suffix p s :
  exists pre, s = pre ++ drop_while p s /\ Forall (fun c => p c = true) pre.
Proof.
  induction s as [|c rest IH]; simpl.
  - exists []. split; [reflexivity|constructor].
  - destruct (p c) eqn:Hc.
    + destruct IH as [pre [Heq Hall]]. exists (c :: pre). split.
      * simpl. now rewrite <- Heq.
      * now constructor.
    + exists []. split; [reflexivity|constructor].
Qed.

Lemma drop_while_length p s : length (drop_while p s) <= length s.
Proof.
  induction s as [|c rest IH]; simpl; [lia|].
  destruct (p c); simpl; lia.
Qed.

Lemma last_is_whitespace_rev s :
  last_is_whitespace s = head_is_whitespace (rev s).
Proof.
  induction s as [|c rest IH]; [reflexivity|].
  simpl. destruct rest as [|d rest']; [reflexivity|].
  rewrite IH. simpl.
  destruct (rev rest' ++ [d]) as [|x l] eqn:Hx; [|reflexivity].
  now destruct (rev rest').
Qed.

Lemma trim_last s : last_is_whitespace (String_trim s) = false.
Proof.
  unfold String_trim. rewrite last_is_whitespace_rev, rev_involutive.
  pose proof (drop_while_head is_whitespace
                (rev (drop_while is_whitespace s))) as H.
  now destruct (drop_while is_whitespace (rev (drop_while is_whitespace s))).
Qed.

Lemma trim_head s : head_is_whitespace (String_trim s) = false.
Proof.
  unfold String_trim.
  set (x := drop_while is_whitespace s).
  destruct (drop_while_suffix is_whitespace (rev x)) as [z [Hz _]].
  set (y := drop_while is_whitespace (rev x)) in *.
  assert (Hx : x = rev y ++ rev z).
  { rewrite <- rev_app_distr, <- Hz. now rewrite rev_involutive. }
  pose proof (drop_while_head is_whitespace s) as Hh. fold x in Hh.
  destruct (rev y) as [|c t]; [reflexivity|].
  rewrite Hx in Hh. exact Hh.
Qed.

Lemma trim_length s : length (String_trim s) <= length s.
Proof.
  unfold String_trim. rewrite length_rev.
  pose proof (drop_while_length is_whitespace
                (rev (drop_while is_whitespace s))) as H1.
  rewrite length_rev in H1.
  pose proof (drop_while_length is_whitespace s). lia.
Qed.

(** *** The tokens of [countWords] *)

Lemma tokens_nonempty content :
  tokens content = [[]] \/ Forall (fun t => t <> []) (tokens content).
Proof.
  unfold tokens, String_split_whitespace.
  destruct (String_trim (String_replace_tags content)) as [|c t] eqn:Ht.
  - now left.
  - right. apply split_loop_nonempty.
    + rewrite <- Ht. apply trim_last.
    + discriminate.
    + right; right. split; [discriminate|].
      rewrite <- Ht. apply trim_head.
Qed.

Lemma countWords_pos content : 1 <= countWords content.
Proof. apply split_loop_length_pos. Qed.

Lemma countWords_le content : countWords content <= S (length content).
Proof.
  unfold countWords, String_split_whitespace.
  pose proof (split_loop_length_le false []
                (String_trim (String_replace_tags content))).
  pose proof (trim_length (String_replace_tags content)).
  pose proof (replace_tags_length content). lia.
Qed.

End StringLemmas.

(** ** Numbers: rounding, division, comparison *)

Module NumberFacts.

Local Open Scope Z_scope.

Lemma digits2_pos_log2 p : Zpos (digits2_pos p) = Z.log2 (Zpos p) + 1.
Proof.
  induction p as [p IH|p IH|]; simpl; try reflexivity.
  - rewrite Pos2Z.inj_succ, IH. destruct p; simpl; lia.
  - rewrite Pos2Z.inj_succ, IH. destruct p; simpl; lia.
Qed.

Lemma digits2_pos_bounds p :
  2 ^ (Zpos (digits2_pos p) - 1) <= Zpos p < 2 ^ Zpos (digits2_pos p).
Proof.
  rewrite digits2_pos_log2.
  replace (Z.log2 (Zpos p) + 1 - 1) with (Z.log2 (Zpos p)) by lia.
  replace (Z.log2 (Zpos p) + 1) with (Z.succ (Z.log2 (Zpos p))) by lia.
  apply Z.log2_spec. lia.
Qed.

Lemma Zdigits2_unique m k :
  2 ^ (k - 1) <= m < 2 ^ k -> 0 < k -> Zdigits2 m = k.
Proof.
  intros H Hk. assert (0 < m) by (pose proof (Z.pow_pos_nonneg 2 (k - 1)); lia).
  destruct m as [|p|p]; try lia. simpl. rewrite digits2_pos_log2.
  rewrite (Z.log2_unique (Zpos p) (k - 1)); try lia.
  replace (Z.succ (k - 1)) with k by lia. exact H.
Qed.

Lemma shr_m_of_loc m l : shr_m (shr_record_of_loc m l) = m.
Proof. destruct l as [|[]]; reflexivity. Qed.

Lemma shr_1_div2 r : 0 <= shr_m r -> shr_m (shr_1 r) = shr_m r / 2.
Proof.
  destruct r as [m r s]. simpl. intros Hm.
  destruct m as [|[p|p|]|p]; try lia; simpl shr_m.
  - reflexivity.
  - rewrite Pos2Z.inj_xI. apply Z.div_unique with (r := 1); lia.
  - rewrite Pos2Z.inj_xO. apply Z.div_unique with (r := 0); lia.
  - reflexivity.
Qed.

Lemma pow2_xI p : 2 ^ Zpos p~1 = 2 * (2 ^ Zpos p * 2 ^ Zpos p).
Proof.
  replace (Zpos p~1) with (1 + Zpos p + Zpos p) by lia.
  rewrite Z.pow_add_r; try lia. rewrite Z.pow_add_r; lia.
Qed.

Lemma pow2_xO p : 2 ^ Zpos p~0 = 2 ^ Zpos p * 2 ^ Zpos p.
Proof.
  replace (Zpos p~0) with (Zpos p + Zpos p) by lia.
  rewrite Z.pow_add_r; lia.
Qed.

Lemma iter_shr_1 p : forall r,
  0 <= shr_m r -> shr_m (iter_pos shr_1 p r) = shr_m r / 2 ^ Zpos p.
Proof.
  induction p as [p IH|p IH|]; intros r Hr; simpl iter_pos.
  - assert (H1 : 0 <= shr_m (shr_1 r)).
    { rewrite shr_1_div2 by assumption. apply Z.div_pos; lia. }
    assert (H2 : 0 <= shr_m (iter_pos shr_1 p (shr_1 r))).
    { rewrite IH by assumption. apply Z.div_pos; [assumption|]. apply Z.pow_pos_nonneg; lia. }
    rewrite IH, IH, shr_1_div2 by assumption.
    rewrite !Z.div_div by (try apply Z.pow_pos_nonneg; lia).
    f_equal. symmetry. apply pow2_xI.
  - assert (H2 : 0 <= shr_m (iter_pos shr_1 p r)).
    { rewrite IH by assumption. apply Z.div_pos; [assumption|]. apply Z.pow_pos_nonneg; lia. }
    rewrite IH, IH by assumption.
    rewrite !Z.div_div by (try apply Z.pow_pos_nonneg; lia).
    f_equal. symmetry. apply pow2_xO.
  - rewrite shr_1_div2 by assumption. reflexivity.
Qed.

(** Shifting a mantissa of at least 53 bits down to 53 bits. *)
Lemma shr_fexp_normal m e l :
  0 < m -> prec <= Zdigits2 m -> 3 - emax - prec <= e + (Zdigits2 m - prec) ->
  exists r, shr_fexp prec emax m e l = (r, e + (Zdigits2 m - prec))
            /\ shr_m r = m / 2 ^ (Zdigits2 m - prec).
Proof.
  intros Hm Hd He. unfold shr_fexp, fexp, emin, shr.
  replace (Z.max (Zdigits2 m + e - prec) (3 - emax - prec) - e)
    with (Zdigits2 m - prec) by lia.
  destruct (Zdigits2 m - prec) as [|n|n] eqn:Hn; try lia.
  - eexists. split; [f_equal; lia|]. rewrite shr_m_of_loc. simpl. now rewrite Z.div_1_r.
  - eexists. split; [reflexivity|]. rewrite iter_shr_1; rewrite shr_m_of_loc; [reflexivity|lia].
Qed.

Lemma round_nearest_even_bounds m l :
  m <= round_nearest_even m l <= m + 1.
Proof.
  destruct l as [|[]]; simpl; try lia. destruct (Z.even m); lia.
Qed.

Lemma Zdigits2_bounds m : 0 < m -> 2 ^ (Zdigits2 m - 1) <= m < 2 ^ Zdigits2 m.
Proof.
  destruct m as [|p|p]; try lia. intros _. apply digits2_pos_bounds.
Qed.

Lemma Zdigits2_pos m : 0 < m -> 0 < Zdigits2 m.
Proof. destruct m; simpl; lia. Qed.

(** The mantissa shifted down to 53 bits has exactly 53 bits. *)
Lemma shift_to_prec m :
  0 < m -> prec <= Zdigits2 m ->
  2 ^ (prec - 1) <= m / 2 ^ (Zdigits2 m - prec) < 2 ^ prec.
Proof.
  intros Hm Hd. pose proof (Zdigits2_bounds m Hm) as [Hlo Hhi].
  set (n := Zdigits2 m - prec) in *.
  assert (Hn : 0 <= n) by lia.
  assert (Hp : 0 < 2 ^ n) by (apply Z.pow_pos_nonneg; lia).
  replace (Zdigits2 m - 1) with ((prec - 1) + n) in Hlo by lia.
  replace (Zdigits2 m) with (prec + n) in Hhi by lia.
  rewrite Z.pow_add_r in Hlo, Hhi by (unfold prec; lia).
  split.
  - apply Z.div_le_lower_bound; lia.
  - apply Z.div_lt_upper_bound; lia.
Qed.

Lemma binary_round_aux_normal sx mx ex lx :
  0 < mx -> prec <= Zdigits2 mx ->
  3 - emax - prec <= ex + (Zdigits2 mx - prec) ->
  (exists m e,
      binary_round_aux prec emax sx mx ex lx = S754_finite sx m e
      /\ Zpos (digits2_pos m) = prec
      /\ ex + (Zdigits2 mx - prec) <= e <= ex + (Zdigits2 mx - prec) + 1
      /\ e <= emax - prec)
  \/ (binary_round_aux prec emax sx mx ex lx = S754_infinity sx
      /\ emax - prec < ex + (Zdigits2 mx - prec) + 1).
Proof.
  intros Hm Hd He. unfold binary_round_aux.
  destruct (shr_fexp_normal mx ex lx Hm Hd He) as [r1 [E1 M1]]. rewrite E1.
  pose proof (shift_to_prec mx Hm Hd) as B1. rewrite <- M1 in B1.
  set (e1 := ex + (Zdigits2 mx - prec)) in *.
  pose proof (round_nearest_even_bounds (shr_m r1) (loc_of_shr_record r1)) as B2.
  set (m2 := round_nearest_even (shr_m r1) (loc_of_shr_record r1)) in *.
  assert (P52 : 0 < 2 ^ (prec - 1)) by (apply Z.pow_pos_nonneg; unfold prec; lia).
  assert (P53 : 2 ^ prec = 2 * 2 ^ (prec - 1)).
  { replace prec with (1 + (prec - 1)) at 1 by lia.
    rewrite Z.pow_add_r; unfold prec; lia. }
  assert (Hm2 : 0 < m2) by lia.
  assert (D2 : Zdigits2 m2 = prec \/ (Zdigits2 m2 = prec + 1 /\ m2 = 2 ^ prec)).
  { destruct (Z_lt_le_dec m2 (2 ^ prec)) as [Hlt|Hge].
    - left. apply Zdigits2_unique; [lia|unfold prec; lia].
    - right. assert (m2 = 2 ^ prec) by lia. split; [|assumption].
      apply Zdigits2_unique; [|unfold prec; lia].
      replace (prec + 1 - 1) with prec by lia.
      replace (prec + 1) with (1 + prec) by lia.
      rewrite Z.pow_add_r by (unfold prec; lia). change (2 ^ 1) with 2. lia. }
  assert (Hd2 : prec <= Zdigits2 m2) by lia.
  assert (He2 : 3 - emax - prec <= e1 + (Zdigits2 m2 - prec)) by lia.
  destruct (shr_fexp_normal m2 e1 loc_Exact Hm2 Hd2 He2) as [r2 [E2 M2]].
  rewrite E2.
  assert (B3 : 2 ^ (prec - 1) <= shr_m r2 < 2 ^ prec).
  { rewrite M2. apply shift_to_prec; assumption. }
  destruct (shr_m r2) as [|m|m] eqn:Hr2; try lia.
  destruct (Z.leb_spec (e1 + (Zdigits2 m2 - prec)) (emax - prec)) as [Hle|Hgt].
  - left. exists m, (e1 + (Zdigits2 m2 - prec)). split; [reflexivity|].
    split; [|lia].
    change (Zpos (digits2_pos m)) with (Zdigits2 (Zpos m)).
    apply Zdigits2_unique; [lia|unfold prec; lia].
  - right. split; [reflexivity|lia].
Qed.

Lemma Pos_iter_xO p k : Zpos (Pos.iter xO p k) = Zpos p * 2 ^ Zpos k.
Proof.
  induction k as [|k IH] using Pos.peano_ind.
  - simpl. lia.
  - rewrite Pos.iter_succ, Pos2Z.inj_xO, IH, Pos2Z.inj_succ, Z.pow_succ_r by lia.
    ring.
Qed.

Lemma Zdigits2_shift m n :
  0 < m -> 0 <= n -> Zdigits2 (m * 2 ^ n) = Zdigits2 m + n.
Proof.
  intros Hm Hn. pose proof (Zdigits2_bounds m Hm) as [Hlo Hhi].
  pose proof (Zdigits2_pos m Hm) as Hd.
  assert (Hp : 0 < 2 ^ n) by (apply Z.pow_pos_nonneg; lia).
  apply Zdigits2_unique; [|lia].
  replace (Zdigits2 m + n - 1) with ((Zdigits2 m - 1) + n) by lia.
  rewrite !Z.pow_add_r by lia. split; nia.
Qed.

(** A positive integer is read as a positive number: a normal one with a
    53-bit mantissa, or the infinity beyond the largest number. *)
Lemma Number_of_Z_pos p :
  (exists m e,
      Number_of_Z (Zpos p) = S754_finite false m e
      /\ Zpos (digits2_pos m) = prec
      /\ Zpos (digits2_pos p) - prec <= e <= emax - prec)
  \/ Number_of_Z (Zpos p) = S754_infinity false.
Proof.
  unfold Number_of_Z, binary_normalize, binary_round.
  set (d := Zpos (digits2_pos p)).
  assert (Hd : 0 < d) by (unfold d; lia).
  replace (fexp prec emax (d + 0)) with (d - prec)
    by (unfold fexp, emin, prec, emax; lia).
  unfold shl_align.
  assert (Hn : prec <= d ->
    (exists m e,
        binary_round_aux prec emax false (Zpos p) 0 loc_Exact
        = S754_finite false m e
        /\ Zpos (digits2_pos m) = prec /\ d - prec <= e <= emax - prec)
    \/ binary_round_aux prec emax false (Zpos p) 0 loc_Exact
       = S754_infinity false).
  { intros Hk.
    destruct (binary_round_aux_normal false (Zpos p) 0 loc_Exact)
      as [[m [e [E [Dm [Be Bo]]]]]|[E _]].
    - lia.
    - change (Zdigits2 (Zpos p)) with d. lia.
    - change (Zdigits2 (Zpos p)) with d. unfold prec, emax in *. lia.
    - left. exists m, e. change (Zdigits2 (Zpos p)) with d in Be.
      repeat split; try assumption; lia.
    - now right. }
  destruct (d - prec - 0) as [|k|k] eqn:Hk.
  - apply Hn. lia.
  - apply Hn. lia.
  - (* fewer than 53 bits: aligned to 53 *)
    assert (Hz : Zdigits2 (Zpos (Pos.iter xO p k)) = prec).
    { rewrite Pos_iter_xO, Zdigits2_shift by lia.
      change (Zdigits2 (Zpos p)) with d. lia. }
    destruct (binary_round_aux_normal false (Zpos (Pos.iter xO p k))
                (d - prec) loc_Exact)
      as [[m [e [E [Dm [Be Bo]]]]]|[E Bi]].
    + lia.
    + rewrite Hz. lia.
    + rewrite Hz. unfold prec, emax in *. lia.
    + left. exists m, e. rewrite Hz in Be.
      repeat split; try assumption; lia.
    + rewrite Hz in Bi. unfold prec, emax in *. lia.
Qed.

Lemma Z_div_eucl_div_mod a b : Z.div_eucl a b = (a / b, a mod b).
Proof. unfold Z.div, Z.modulo. now destruct (Z.div_eucl a b). Qed.

(** The quotient of two normal numbers, away from overflow and underflow,
    is a normal number with the sign of the quotient. *)
Lemma num_div_normal s1 m1 e1 s2 m2 e2 :
  Zpos (digits2_pos m1) = prec -> Zpos (digits2_pos m2) = prec ->
  3 - emax - prec <= e1 - e2 - prec -> e1 - e2 - prec + 2 <= emax - prec ->
  exists m e,
    num_div (S754_finite s1 m1 e1) (S754_finite s2 m2 e2)
    = S754_finite (xorb s1 s2) m e
    /\ Zpos (digits2_pos m) = prec
    /\ e1 - e2 - prec <= e <= e1 - e2 - prec + 2.
Proof.
  intros D1 D2 Hlo Hhi. unfold num_div, SFdiv, SFdiv_core_binary.
  change (Zdigits2 (Zpos m1)) with (Zpos (digits2_pos m1)).
  change (Zdigits2 (Zpos m2)) with (Zpos (digits2_pos m2)).
  rewrite D1, D2.
  replace (Z.min (fexp prec emax (prec + e1 - (prec + e2))) (e1 - e2))
    with (e1 - e2 - prec) by (unfold fexp, emin, prec, emax in *; lia).
  replace (e1 - e2 - (e1 - e2 - prec)) with prec by lia.
  change (match prec with Z0 => Zpos m1 | Zpos _ => Z.shiftl (Zpos m1) prec
          | Zneg _ => 0 end) with (Z.shiftl (Zpos m1) prec).
  rewrite Z.shiftl_mul_pow2 by (unfold prec; lia).
  rewrite Z_div_eucl_div_mod.
  set (q := Zpos m1 * 2 ^ prec / Zpos m2).
  pose proof (digits2_pos_bounds m1) as B1. rewrite D1 in B1.
  pose proof (digits2_pos_bounds m2) as B2. rewrite D2 in B2.
  assert (P52 : 0 < 2 ^ (prec - 1)) by (apply Z.pow_pos_nonneg; unfold prec; lia).
  assert (P53 : 2 ^ prec = 2 * 2 ^ (prec - 1)).
  { replace prec with (1 + (prec - 1)) at 1 by lia.
    rewrite Z.pow_add_r; unfold prec; lia. }
  assert (P54 : 2 ^ (prec + 1) = 2 * 2 ^ prec).
  { replace (prec + 1) with (1 + prec) by lia.
    rewrite Z.pow_add_r; unfold prec; lia. }
  assert (Bq : 2 ^ (prec - 1) <= q < 2 ^ (prec + 1)).
  { unfold q. split.
    - apply Z.div_le_lower_bound; [lia|]. nia.
    - apply Z.div_lt_upper_bound; [lia|]. nia. }
  assert (Dq : Zdigits2 q = prec \/ Zdigits2 q = prec + 1).
  { destruct (Z_lt_le_dec q (2 ^ prec)).
    - left. apply Zdigits2_unique; [lia|unfold prec; lia].
    - right. apply Zdigits2_unique; [|unfold prec; lia].
      replace (prec + 1 - 1) with prec by lia. lia. }
  destruct (binary_round_aux_normal (xorb s1 s2) q (e1 - e2 - prec)
              (new_location (Zpos m2) (Zpos m1 * 2 ^ prec mod Zpos m2)))
    as [[m [e [E [Dm [Be _]]]]]|[E Bi]].
  - lia.
  - lia.
  - lia.
  - exists m, e. repeat split; try assumption; lia.
  - lia.
Qed.

Lemma num_leb_finite_pos m1 e1 m2 e2 :
  num_leb (S754_finite false m1 e1) (S754_finite false m2 e2)
  = match e1 ?= e2 with
    | Lt => true
    | Gt => false
    | Eq => (m1 <=? m2)%positive
    end.
Proof.
  unfold num_leb, SFleb, SFcompare.
  destruct (e1 ?= e2); reflexivity.
Qed.

Lemma Number_of_Z_1 : Number_of_Z 1 = S754_finite false two_pow_52 (-52).
Proof. reflexivity. Qed.

Lemma normal_ge_one m e :
  Zpos (digits2_pos m) = prec -> - (prec - 1) <= e ->
  num_leb (Number_of_Z 1) (S754_finite false m e) = true.
Proof.
  intros Dm He. pose proof (digits2_pos_bounds m) as B. rewrite Dm in B.
  rewrite Number_of_Z_1, num_leb_finite_pos.
  destruct (Z.compare_spec (-52) e) as [Heq|Hlt|Hgt].
  - apply Pos.leb_le. change (2 ^ (prec - 1)) with (Zpos two_pow_52) in B. lia.
  - reflexivity.
  - unfold prec in He. lia.
Qed.

Lemma Number_of_Z_ge_one z :
  1 <= z -> num_leb (Number_of_Z 1) (Number_of_Z z) = true.
Proof.
  intros Hz. destruct z as [|p|p]; try lia.
  destruct (Number_of_Z_pos p) as [[m [e [E [Dm Be]]]]|E]; rewrite E.
  - apply normal_ge_one; [assumption|]. unfold prec in *. lia.
  - reflexivity.
Qed.

Lemma Math_ceil_ge_one m e :
  Zpos (digits2_pos m) = prec ->
  num_leb (Number_of_Z 1) (Math_ceil (S754_finite false m e)) = true.
Proof.
  intros Dm. destruct e as [|p|p]; cbv beta iota delta [Math_ceil].
  - apply normal_ge_one; [assumption|unfold prec; lia].
  - apply normal_ge_one; [assumption|unfold prec; lia].
  - apply Number_of_Z_ge_one.
    assert (Hp : 0 < 2 ^ Zpos p) by (apply Z.pow_pos_nonneg; lia).
    pose proof (Z.div_mod (Zpos m) (2 ^ Zpos p) ltac:(lia)) as Hdm.
    pose proof (Z.mod_pos_bound (Zpos m) (2 ^ Zpos p) Hp) as Hr.
    assert (Hq : 0 <= Zpos m / 2 ^ Zpos p) by (apply Z.div_pos; lia).
    destruct (Z.eqb_spec (Zpos m mod 2 ^ Zpos p) 0) as [H0|H0]; nia.
Qed.

(** *** Signs *)

Lemma binary_round_aux_sign sx mx ex lx :
  has_sign sx (binary_round_aux prec emax sx mx ex lx).
Proof.
  unfold binary_round_aux.
  destruct (shr_fexp prec emax mx ex lx) as [r1 e1].
  destruct (shr_fexp prec emax _ e1 loc_Exact) as [r2 e2].
  destruct (shr_m r2) as [|m|m]; [reflexivity| |exact I].
  destruct (e2 <=? emax - prec); reflexivity.
Qed.

Lemma num_div_sign a b :
  has_sign false a -> has_sign false b -> has_sign false (num_div a b).
Proof.
  destruct a as [s1|s1| |s1 m1 e1], b as [s2|s2| |s2 m2 e2];
    simpl; intros Ha Hb; subst; try exact I; try reflexivity.
  unfold num_div, SFdiv.
  destruct (SFdiv_core_binary prec emax (Zpos m1) e1 (Zpos m2) e2)
    as [[mz ez] lz].
  apply binary_round_aux_sign.
Qed.

Lemma num_mul_sign a b :
  has_sign false a -> has_sign false b -> has_sign false (num_mul a b).
Proof.
  destruct a as [s1|s1| |s1 m1 e1], b as [s2|s2| |s2 m2 e2];
    simpl; intros Ha Hb; subst; try exact I; try reflexivity.
  unfold num_mul, SFmul. apply binary_round_aux_sign.
Qed.

Lemma Number_of_Z_sign z : 0 <= z -> has_sign false (Number_of_Z z).
Proof.
  intros Hz. destruct z as [|p|p]; try lia; [reflexivity|].
  unfold Number_of_Z, binary_normalize, binary_round.
  destruct (shl_align p 0 _) as [mz ez]. apply binary_round_aux_sign.
Qed.

Lemma Number_of_Z_100 : Number_of_Z 100 = S754_finite false one_hundred (-46).
Proof. reflexivity. Qed.

Lemma Number_of_Z_250 :
  Number_of_Z 250 = S754_finite false 8796093022208000 (-45).
Proof. reflexivity. Qed.

(** On a number that is not negative, [Math.min(x, hi)] alone is the clamp
    between zero and [hi]. *)
Lemma Math_min_clamp x mh eh :
  has_sign false x ->
  Math_min x (S754_finite false mh eh)
  = clamp x (S754_zero false) (S754_finite false mh eh).
Proof.
  intros Hx. unfold clamp, Math_min.
  destruct (SFcompare x (S754_finite false mh eh)) as [[| |]|] eqn:C.
  - destruct x as [[|]|s| |s m e]; simpl in Hx; try discriminate; reflexivity.
  - destruct x as [[|]|[|]| |[|] m e]; simpl in Hx, C;
      try discriminate; reflexivity.
  - reflexivity.
  - reflexivity.
Qed.

(** A positive count divided by [+0] is [+Infinity], and the percentage
    computed from it is capped at 100. *)
Lemma Number_of_nat_positive n :
  (1 <= n)%nat ->
  (exists m e, Number_of_nat n = S754_finite false m e
               /\ Zpos (digits2_pos m) = prec /\ - (prec - 1) <= e <= emax - prec)
  \/ Number_of_nat n = S754_infinity false.
Proof.
  intros Hn. unfold Number_of_nat.
  destruct (Z.of_nat n) as [|p|p] eqn:Hz; try lia.
  destruct (Number_of_Z_pos p) as [[m [e [E [Dm Be]]]]|E].
  - left. exists m, e. repeat split; try assumption; unfold prec in *; lia.
  - now right.
Qed.

(** *** The reading time is exact *)

(** A 53-bit mantissa in the range of the normal numbers is not rounded. *)
Lemma binary_round_aux_exact s m e :
  Zpos (digits2_pos m) = prec -> 3 - emax - prec <= e <= emax - prec ->
  binary_round_aux prec emax s (Zpos m) e loc_Exact = S754_finite s m e.
Proof.
  intros Dm He. unfold binary_round_aux.
  assert (Hs : forall l, l = loc_Exact ->
            shr_fexp prec emax (Zpos m) e l
            = (Build_shr_record (Zpos m) false false, e)).
  { intros l ->. unfold shr_fexp, fexp, emin. cbn [Zdigits2]. rewrite Dm.
    replace (Z.max (prec + e - prec) (3 - emax - prec) - e) with 0 by lia.
    reflexivity. }
  rewrite (Hs loc_Exact eq_refl). cbn [shr_m loc_of_shr_record round_nearest_even].
  rewrite (Hs loc_Exact eq_refl). cbn [shr_m].
  destruct (Z.leb_spec e (emax - prec)); [reflexivity|lia].
Qed.

(** A 54-bit even mantissa is halved. *)
Lemma binary_round_aux_even s m e :
  Zpos (digits2_pos m) = prec -> 3 - emax - prec <= e -> e + 1 <= emax - prec ->
  binary_round_aux prec emax s (Zpos m~0) e loc_Exact = S754_finite s m (e + 1).
Proof.
  intros Dm He Hhi. unfold binary_round_aux.
  assert (H1 : shr_fexp prec emax (Zpos m~0) e loc_Exact
               = (Build_shr_record (Zpos m) false false, e + 1)).
  { unfold shr_fexp, fexp, emin. cbn [Zdigits2 digits2_pos].
    rewrite Pos2Z.inj_succ, Dm.
    replace (Z.max (Z.succ prec + e - prec) (3 - emax - prec) - e) with 1 by lia.
    reflexivity. }
  rewrite H1. cbn [shr_m loc_of_shr_record round_nearest_even].
  assert (H2 : shr_fexp prec emax (Zpos m) (e + 1) loc_Exact
               = (Build_shr_record (Zpos m) false false, e + 1)).
  { unfold shr_fexp, fexp, emin. cbn [Zdigits2]. rewrite Dm.
    replace (Z.max (prec + (e + 1) - prec) (3 - emax - prec) - (e + 1)) with 0 by lia.
    reflexivity. }
  rewrite H2. cbn [shr_m].
  destruct (Z.leb_spec (e + 1) (emax - prec)); [reflexivity|lia].
Qed.

(** An integer below [2^53] is a number exactly: its mantissa is the
    integer shifted to 53 bits. *)
Lemma Number_of_Z_exact z :
  0 < z < 2 ^ prec ->
  exists m e,
    Number_of_Z z = S754_finite false m e
    /\ Zpos (digits2_pos m) = prec
    /\ e = Zdigits2 z - prec
    /\ Zpos m = z * 2 ^ (- e).
Proof.
  intros [Hz Hlt]. destruct z as [|p|p]; try lia.
  pose proof (digits2_pos_bounds p) as [Blo Bhi].
  set (d := Zpos (digits2_pos p)) in *.
  assert (Hd : 0 < d <= prec).
  { split; [unfold d; lia|].
    destruct (Z_le_gt_dec d prec) as [|Hgt]; [assumption|exfalso].
    assert (2 ^ prec <= 2 ^ (d - 1)) by (apply Z.pow_le_mono_r; unfold prec in *; lia).
    lia. }
  unfold Number_of_Z, binary_normalize, binary_round. fold d.
  replace (fexp prec emax (d + 0)) with (d - prec)
    by (unfold fexp, emin, prec, emax in *; lia).
  unfold shl_align. cbn [Zdigits2]. fold d.
  destruct (d - prec - 0) as [|k|k] eqn:Hk; try lia.
  - exists p, 0. rewrite binary_round_aux_exact;
      [|unfold d in *; lia|unfold prec, emax; lia].
    repeat split; try (unfold d in *; lia).
  - exists (Pos.iter xO p k), (d - prec).
    assert (Hz' : Zdigits2 (Zpos (Pos.iter xO p k)) = prec).
    { rewrite Pos_iter_xO, Zdigits2_shift by lia.
      change (Zdigits2 (Zpos p)) with d. lia. }
    rewrite binary_round_aux_exact;
      [|exact Hz'|unfold prec, emax in *; lia].
    repeat split; [exact Hz'|].
    rewrite Pos_iter_xO. f_equal. f_equal. lia.
Qed.

(** The value a rounding returns: the mantissa shifted down by the number
    of bits the exponent went up, or one more. *)
Lemma binary_round_aux_value sx mx ex lx :
  0 < mx -> prec <= Zdigits2 mx ->
  3 - emax - prec <= ex + (Zdigits2 mx - prec) ->
  ex + (Zdigits2 mx - prec) + 1 <= emax - prec ->
  exists m e n,
    binary_round_aux prec emax sx mx ex lx = S754_finite sx m e
    /\ Zpos (digits2_pos m) = prec
    /\ 0 <= n /\ e = ex + n
    /\ mx / 2 ^ n <= Zpos m <= mx / 2 ^ n + 1.
Proof.
  intros Hm Hd He Hhi. unfold binary_round_aux.
  destruct (shr_fexp_normal mx ex lx Hm Hd He) as [r1 [E1 M1]]. rewrite E1.
  pose proof (shift_to_prec mx Hm Hd) as B1. rewrite <- M1 in B1.
  set (n1 := Zdigits2 mx - prec) in *.
  pose proof (round_nearest_even_bounds (shr_m r1) (loc_of_shr_record r1)) as B2.
  set (m2 := round_nearest_even (shr_m r1) (loc_of_shr_record r1)) in *.
  assert (P52 : 0 < 2 ^ (prec - 1)) by (apply Z.pow_pos_nonneg; unfold prec; lia).
  assert (P53 : 2 ^ prec = 2 * 2 ^ (prec - 1)).
  { replace prec with (1 + (prec - 1)) at 1 by lia.
    rewrite Z.pow_add_r; unfold prec; lia. }
  assert (Hm2 : 0 < m2) by lia.
  assert (D2 : Zdigits2 m2 = prec \/ (Zdigits2 m2 = prec + 1 /\ m2 = 2 ^ prec)).
  { destruct (Z_lt_le_dec m2 (2 ^ prec)) as [Hlt|Hge].
    - left. apply Zdigits2_unique; [lia|unfold prec; lia].
    - right. assert (m2 = 2 ^ prec) by lia. split; [|assumption].
      apply Zdigits2_unique; [|unfold prec; lia].
      replace (prec + 1 - 1) with prec by lia.
      replace (prec + 1) with (1 + prec) by lia.
      rewrite Z.pow_add_r by (unfold prec; lia). change (2 ^ 1) with 2. lia. }
  assert (Hd2 : prec <= Zdigits2 m2) by lia.
  assert (He2 : 3 - emax - prec <= ex + n1 + (Zdigits2 m2 - prec)) by lia.
  destruct (shr_fexp_normal m2 (ex + n1) loc_Exact Hm2 Hd2 He2) as [r2 [E2 M2]].
  rewrite E2.
  assert (B3 : 2 ^ (prec - 1) <= shr_m r2 < 2 ^ prec).
  { rewrite M2. apply shift_to_prec; assumption. }
  destruct (shr_m r2) as [|m|m] eqn:Hr2; try lia.
  destruct (Z.leb_spec (ex + n1 + (Zdigits2 m2 - prec)) (emax - prec)) as [Hle|Hgt];
    [|lia].
  assert (Dm : Zpos (digits2_pos m) = prec).
  { change (Zpos (digits2_pos m)) with (Zdigits2 (Zpos m)).
    apply Zdigits2_unique; [lia|unfold prec; lia]. }
  destruct D2 as [D2|[D2 Em2]].
  - exists m, (ex + n1 + (Zdigits2 m2 - prec)), n1.
    split; [reflexivity|]. split; [exact Dm|]. split; [lia|]. split; [lia|].
    rewrite D2 in M2. replace (prec - prec) with 0 in M2 by lia.
    change (2 ^ 0) with 1 in M2. rewrite Z.div_1_r in M2.
    rewrite <- M1. lia.
  - exists m, (ex + n1 + (Zdigits2 m2 - prec)), (n1 + 1).
    split; [reflexivity|]. split; [exact Dm|]. split; [lia|]. split; [lia|].
    rewrite D2, Em2 in M2. replace (prec + 1 - prec) with 1 in M2 by lia.
    change (2 ^ 1) with 2 in M2.
    assert (Hm' : shr_m r1 = 2 ^ prec - 1) by lia.
    rewrite Z.pow_add_r by lia. change (2 ^ 1) with 2.
    rewrite <- Z.div_div by (try apply Z.pow_nonzero; try apply Z.pow_pos_nonneg; lia).
    rewrite <- M1, Hm'.
    assert (Hq : (2 ^ prec - 1) / 2 = 2 ^ (prec - 1) - 1).
    { rewrite P53. symmetry. apply (Z.div_unique _ 2 _ 1); lia. }
    assert (Hq2 : 2 ^ prec / 2 = 2 ^ (prec - 1)).
    { rewrite P53. symmetry. apply (Z.div_unique _ 2 _ 0); lia. }
    lia.
Qed.

(** The division of two numbers with 53-bit mantissas, as a rounding of the
    integer quotient of the first mantissa, shifted by 53 bits, by the
    second. *)
Lemma num_div_core s1 m1 e1 s2 m2 e2 :
  Zpos (digits2_pos m1) = prec -> Zpos (digits2_pos m2) = prec ->
  3 - emax - prec <= e1 - e2 - prec ->
  num_div (S754_finite s1 m1 e1) (S754_finite s2 m2 e2)
  = binary_round_aux prec emax (xorb s1 s2)
      (Zpos m1 * 2 ^ prec / Zpos m2) (e1 - e2 - prec)
      (new_location (Zpos m2) (Zpos m1 * 2 ^ prec mod Zpos m2)).
Proof.
  intros D1 D2 Hlo. unfold num_div, SFdiv, SFdiv_core_binary.
  change (Zdigits2 (Zpos m1)) with (Zpos (digits2_pos m1)).
  change (Zdigits2 (Zpos m2)) with (Zpos (digits2_pos m2)).
  rewrite D1, D2.
  replace (Z.min (fexp prec emax (prec + e1 - (prec + e2))) (e1 - e2))
    with (e1 - e2 - prec) by (unfold fexp, emin, prec, emax in *; lia).
  replace (e1 - e2 - (e1 - e2 - prec)) with prec by lia.
  change (match prec with Z0 => Zpos m1 | Zpos _ => Z.shiftl (Zpos m1) prec
          | Zneg _ => 0 end) with (Z.shiftl (Zpos m1) prec).
  rewrite Z.shiftl_mul_pow2 by (unfold prec; lia).
  rewrite Z_div_eucl_div_mod. reflexivity.
Qed.

Lemma Math_ceil_negative_exponent m e :
  e < 0 ->
  Math_ceil (S754_finite false m e)
  = Number_of_Z (if Zpos m mod 2 ^ (- e) =? 0
                 then Zpos m / 2 ^ (- e) else Zpos m / 2 ^ (- e) + 1).
Proof.
  intros He. destruct e as [|p|p]; try lia.
  cbv beta iota zeta delta [Math_ceil]. reflexivity.
Qed.

(** [Math.ceil(w / 250)] is the integer ceiling of the quotient, for every
    count [w] below [2^52]: the rounding of the division never reaches the
    next integer. *)
Lemma Math_ceil_div_250 w :
  1 <= w < 2 ^ 52 ->
  Math_ceil (num_div (Number_of_Z w) (Number_of_Z 250))
  = Number_of_Z ((w + 249) / 250).
Proof.
  intros Hw.
  destruct (Number_of_Z_exact w) as [m1 [e1 [E1 [D1 [He1 Hm1]]]]].
  { unfold prec. lia. }
  assert (Hdw : 1 <= Zdigits2 w <= 52).
  { pose proof (Zdigits2_pos w ltac:(lia)).
    pose proof (Zdigits2_bounds w ltac:(lia)) as [Blo _].
    split; [lia|].
    destruct (Z_le_gt_dec (Zdigits2 w) 52) as [|Hgt]; [assumption|exfalso].
    assert (2 ^ 52 <= 2 ^ (Zdigits2 w - 1)) by (apply Z.pow_le_mono_r; lia).
    lia. }
  unfold prec in He1.
  rewrite E1, Number_of_Z_250.
  rewrite num_div_core; [|exact D1|reflexivity|unfold prec, emax; lia].
  cbn [xorb].
  set (t := 8 - e1).
  assert (Ht : 9 <= t <= 60) by (unfold t; lia).
  assert (Pt : 0 < 2 ^ t) by (apply Z.pow_pos_nonneg; lia).
  assert (Hnum : Zpos m1 * 2 ^ prec = (w * 2 ^ t) * 2 ^ 45).
  { rewrite Hm1. rewrite <- !Z.mul_assoc. f_equal.
    rewrite <- !Z.pow_add_r by (unfold prec, t; lia). f_equal. unfold prec, t. lia. }
  assert (Hden : Zpos 8796093022208000 = 250 * 2 ^ 45) by reflexivity.
  rewrite Hnum, Hden.
  rewrite Z.div_mul_cancel_r by lia.
  rewrite Z.mul_mod_distr_r by lia.
  replace (e1 - -45 - prec) with (- t) by (unfold t, prec; lia).
  pose proof (digits2_pos_bounds m1) as Bm1. rewrite D1 in Bm1.
  change (2 ^ (prec - 1)) with (2 ^ 52) in Bm1. change (2 ^ prec) with (2 ^ 53) in Bm1.
  set (q := w * 2 ^ t / 250).
  assert (Hqeq : q = Zpos m1 * 2 ^ prec / (250 * 2 ^ 45)).
  { rewrite Hnum. rewrite Z.div_mul_cancel_r by lia. reflexivity. }
  assert (Bq : 2 ^ 52 <= q < 2 ^ 54).
  { rewrite Hqeq. change (2 ^ prec) with (2 ^ 53). split.
    - apply Z.div_le_lower_bound; lia.
    - apply Z.div_lt_upper_bound; lia. }
  assert (Dq : Zdigits2 q = 53 \/ Zdigits2 q = 54).
  { destruct (Z_lt_le_dec q (2 ^ 53)).
    - left. apply Zdigits2_unique; lia.
    - right. apply Zdigits2_unique; lia. }
  pose proof (Z.div_mod w 250 ltac:(lia)) as Hdm.
  pose proof (Z.mod_pos_bound w 250 ltac:(lia)) as Hb.
  set (a := w / 250) in *. set (b := w mod 250) in *.
  destruct (Z.eq_dec b 0) as [Hb0|Hb0].
  - (* the count is a multiple of 250: the division is exact *)
    assert (Hwa : w = a * 250) by lia.
    assert (Hq : q = a * 2 ^ t).
    { unfold q. rewrite Hwa.
      replace (a * 250 * 2 ^ t) with (a * 2 ^ t * 250) by ring.
      apply Z.div_mul. lia. }
    assert (Hr : (w * 2 ^ t) mod 250 = 0).
    { rewrite Hwa. replace (a * 250 * 2 ^ t) with (a * 2 ^ t * 250) by ring.
      apply Z.mod_mul. lia. }
    rewrite Hr. change (new_location (250 * 2 ^ 45) (0 * 2 ^ 45)) with loc_Exact.
    replace ((w + 249) / 250) with a
      by (rewrite Hwa; apply (Z.div_unique _ 250 _ 249); lia).
    destruct (Z_lt_le_dec q (2 ^ 53)) as [Hlt|Hge].
    + destruct q as [|mq|mq] eqn:Eq; try lia.
      rewrite binary_round_aux_exact;
        [|change (Zpos (digits2_pos mq)) with (Zdigits2 (Zpos mq));
          apply Zdigits2_unique; unfold prec; lia
         |unfold prec, emax; lia].
      rewrite Math_ceil_negative_exponent by lia.
      replace (- - t) with t by lia.
      rewrite Hq, Z.mod_mul, Z.div_mul by lia. reflexivity.
    + assert (Pt1 : 2 ^ t = 2 * 2 ^ (t - 1)).
      { replace t with (1 + (t - 1)) at 1 by lia.
        rewrite Z.pow_add_r by lia. reflexivity. }
      assert (Pt1' : 0 < 2 ^ (t - 1)) by (apply Z.pow_pos_nonneg; lia).
      assert (Hq0 : q = 2 * (a * 2 ^ (t - 1))) by (rewrite Hq, Pt1; ring).
      destruct (a * 2 ^ (t - 1)) as [|m0|m0] eqn:Eq0; try lia.
      rewrite Hq0. change (2 * Zpos m0) with (Zpos m0~0).
      rewrite binary_round_aux_even;
        [|change (Zpos (digits2_pos m0)) with (Zdigits2 (Zpos m0));
          apply Zdigits2_unique; unfold prec; lia
         |unfold prec, emax; lia|unfold prec, emax; lia].
      rewrite Math_ceil_negative_exponent by lia.
      replace (- (- t + 1)) with (t - 1) by lia.
      rewrite <- Eq0, Z.mod_mul, Z.div_mul by lia. reflexivity.
  - (* otherwise the quotient lies strictly between two integers, and so
       does its rounding *)
    destruct (binary_round_aux_value false q (- t)
                (new_location (250 * 2 ^ 45) ((w * 2 ^ t) mod 250 * 2 ^ 45)))
      as [m [e [n [E [Dm [Hn [He Bm]]]]]]];
      [lia|unfold prec; lia|unfold prec, emax; lia|unfold prec, emax; lia|].
    rewrite E.
    pose proof (digits2_pos_bounds m) as Bm'. rewrite Dm in Bm'.
    change (2 ^ (prec - 1)) with (2 ^ 52) in Bm'. change (2 ^ prec) with (2 ^ 53) in Bm'.
    assert (Hp : n <= t - 8).
    { destruct (Z_le_gt_dec n (t - 8)) as [|Hgt]; [assumption|exfalso].
      assert (Hle : 2 ^ (t - 7) <= 2 ^ n) by (apply Z.pow_le_mono_r; lia).
      assert (P7 : 0 < 2 ^ (t - 7)) by (apply Z.pow_pos_nonneg; lia).
      assert (Hdiv : q / 2 ^ n <= q / 2 ^ (t - 7))
        by (apply Z.div_le_compat_l; lia).
      assert (Hq7 : q / 2 ^ (t - 7) = (w * 128) / 250).
      { unfold q. rewrite Z.div_div by lia.
        replace (w * 2 ^ t) with (w * 128 * 2 ^ (t - 7)).
        - apply Z.div_mul_cancel_r; lia.
        - rewrite <- Z.mul_assoc. f_equal. change 128 with (2 ^ 7).
          rewrite <- Z.pow_add_r by lia. f_equal. lia. }
      assert (Hlt : w * 128 / 250 < 2 ^ 52 - 1)
        by (apply Z.div_lt_upper_bound; lia).
      lia. }
    set (p := t - n).
    assert (Hp8 : 8 <= p) by (unfold p; lia).
    assert (PP : 2 ^ 8 <= 2 ^ p) by (apply Z.pow_le_mono_r; lia).
    assert (Pn : 0 < 2 ^ n) by (apply Z.pow_pos_nonneg; lia).
    assert (Hu : q / 2 ^ n = (w * 2 ^ p) / 250).
    { unfold q. rewrite Z.div_div by lia.
      replace (w * 2 ^ t) with (w * 2 ^ p * 2 ^ n).
      - apply Z.div_mul_cancel_r; lia.
      - rewrite <- Z.mul_assoc. f_equal.
        rewrite <- Z.pow_add_r by lia. f_equal. unfold p. lia. }
    rewrite Hu in Bm.
    set (P := 2 ^ p) in *. change (2 ^ 8) with 256 in PP.
    assert (Hu2 : w * P / 250 = a * P + b * P / 250).
    { replace (w * P) with (a * P * 250 + b * P) by nia.
      rewrite Z.div_add_l by lia. reflexivity. }
    rewrite Hu2 in Bm.
    assert (Hfrac : 1 <= b * P / 250 <= P - 1).
    { split.
      - apply Z.div_le_lower_bound; nia.
      - assert (b * P / 250 < P); [|lia].
        apply Z.div_lt_upper_bound; nia. }
    rewrite Math_ceil_negative_exponent by lia.
    replace (- e) with p by (unfold p; lia). fold P.
    replace ((w + 249) / 250) with (a + 1)
      by (apply (Z.div_unique _ 250 _ (b - 1)); lia).
    f_equal.
    pose proof (Z.div_mod (Zpos m) P ltac:(lia)) as Hdm'.
    pose proof (Z.mod_pos_bound (Zpos m) P ltac:(lia)) as Hr'.
    destruct (Z.eqb_spec (Zpos m mod P) 0) as [H0|H0]; nia.
Qed.

End NumberFacts.

(** ** Forests: induction, lookup, update *)

Lemma with_children_same p : with_children p (children p) = p.
Proof. now destruct p. Qed.

Lemma spread_metadata_patch base patch : spread_metadata base patch = patch.
Proof. now destruct patch. Qed.

Lemma find_node_eq i p :
  find_node i p
  = if num_eqb (id p) i then Some p else find_project i (children p).
Proof.
  destruct p as [j n t cs c m]. simpl.
  destruct (num_eqb j i); [reflexivity|].
  induction cs as [|x l IH]; simpl; [reflexivity|]. now rewrite IH.
Qed.

Lemma updateProject_eq i c m p :
  updateProject i c m p
  = if num_eqb (id p) i
    then with_content_metadata p c (spread_metadata (metadata p) m)
    else match children p with
         | [] => p
         | _ :: _ => with_children p (List.map (updateProject i c m) (children p))
         end.
Proof. destruct p as [j n t cs c' m']. reflexivity. Qed.

(** A node found by its id has that id. *)
Lemma find_node_id i p : forall q,
  find_node i p = Some q -> num_eqb (id q) i = true.
Proof.
  induction p as [j n t cs c m IH] using Project_ind. intros q.
  rewrite find_node_eq. simpl id. simpl children.
  destruct (num_eqb j i) eqn:Hj.
  - intros [= <-]. exact Hj.
  - induction IH as [|x l Hx _ IHl]; simpl; [discriminate|].
    destruct (find_node i x) as [r|] eqn:Hr.
    + intros [= <-]. now apply Hx.
    + exact IHl.
Qed.

Lemma find_project_id i projects : forall q,
  find_project i projects = Some q -> num_eqb (id q) i = true.
Proof.
  induction projects as [|x l IH]; simpl; intros q; [discriminate|].
  destruct (find_node i x) as [r|] eqn:Hr.
  - intros [= <-]. now apply (find_node_id i x).
  - apply IH.
Qed.

(** Where no node has the id, the update changes nothing. *)
Lemma updateProject_absent i c m p :
  find_node i p = None -> updateProject i c m p = p.
Proof.
  induction p as [j n t cs c' m' IH] using Project_ind.
  rewrite find_node_eq, updateProject_eq. simpl id. simpl children.
  destruct (num_eqb j i); [discriminate|]. intros Hf.
  assert (Hmap : List.map (updateProject i c m) cs = cs).
  { induction IH as [|x l Hx _ IHl]; [reflexivity|].
    simpl in Hf |- *. destruct (find_node i x) eqn:Hr; [discriminate|].
    rewrite Hx by reflexivity. now rewrite IHl. }
  destruct cs as [|x l]; [reflexivity|]. now rewrite Hmap.
Qed.

(** The first node with the id is replaced, and found again. *)
Lemma find_updateProject i c m p : forall q,
  find_node i p = Some q ->
  find_node i (updateProject i c m p) = Some (with_content_metadata q c m).
Proof.
  induction p as [j n t cs c' m' IH] using Project_ind. intros q.
  rewrite find_node_eq, updateProject_eq. simpl id. simpl children.
  simpl metadata. rewrite spread_metadata_patch.
  destruct (num_eqb j i) eqn:Hj.
  - intros [= <-]. rewrite find_node_eq. simpl. now rewrite Hj.
  - intros Hf.
    assert (Hin : find_project i (List.map (updateProject i c m) cs)
                  = Some (with_content_metadata q c m)).
    { induction IH as [|x l Hx _ IHl]; [discriminate|].
      simpl in Hf |- *. destruct (find_node i x) as [r|] eqn:Hr.
      - injection Hf as <-. now rewrite (Hx r eq_refl).
      - rewrite (updateProject_absent i c m x Hr), Hr. now apply IHl. }
    destruct cs as [|x l]; [discriminate|].
    rewrite find_node_eq. simpl id. rewrite Hj. exact Hin.
Qed.

Lemma find_updateProjectContent i c m projects : forall q,
  find_project i projects = Some q ->
  find_project i (updateProjectContent projects i c m)
  = Some (with_content_metadata q c m).
Proof.
  unfold updateProjectContent.
  induction projects as [|x l IH]; simpl; intros q Hf; [discriminate|].
  destruct (find_node i x) as [r|] eqn:Hr.
  - injection Hf as <-. now rewrite (find_updateProject i c m x r Hr).
  - rewrite (updateProject_absent i c m x Hr), Hr. now apply IH.
Qed.

(** ** [countWords] *)

Example countWords_hello : countWords (js "hello <b>big</b>  world ") = 3.
Proof. reflexivity. Qed.

Example countWords_blank : countWords (js "   ") = 1.
Proof. reflexivity. Qed.

Example countWords_only_tags : countWords (js "<p><br/></p>") = 1.
Proof. reflexivity. Qed.

Example countWords_five_hundred : countWords five_hundred_words = 500.
Proof. vm_compute. reflexivity. Qed.

(** *** The steps of [countWords] against their specification *)

Lemma match_tag_tail_inv s after :
  match_tag_tail s = Some after ->
  exists body, s = body ++ GREATER_THAN :: after /\ ~ In GREATER_THAN body.
Proof.
  induction s as [|c rest IH]; cbn [match_tag_tail]; [discriminate|].
  destruct (N.eqb_spec c GREATER_THAN) as [->|Hc].
  - intros [= ->]. exists []. split; [reflexivity|intros []].
  - intros H. destruct (IH H) as [body [-> Hb]]. exists (c :: body).
    split; [reflexivity|]. intros [E|Hin]; [now apply Hc|now apply Hb].
Qed.

(** A match found at the head of a string is a tag, and the string goes on
    behind it. *)
Lemma match_tag_inv s after :
  match_tag s = Some after -> exists g, tag g /\ s = g ++ after.
Proof.
  destruct s as [|c [|d rest]]; cbn [match_tag]; try discriminate.
  destruct (N.eqb_spec c LESS_THAN) as [->|_]; [|discriminate].
  destruct (N.eqb_spec d GREATER_THAN) as [->|Hd]; [discriminate|].
  cbn [andb negb]. intros H.
  destruct (match_tag_tail_inv _ _ H) as [body [-> Hb]].
  exists (LESS_THAN :: (d :: body) ++ [GREATER_THAN]). split.
  - exists (d :: body). split; [reflexivity|]. split; [discriminate|].
    intros [E|Hin]; [now apply Hd|now apply Hb].
  - cbn [app]. now rewrite <- app_assoc.
Qed.

Lemma match_tag_tail_skip body after :
  ~ In GREATER_THAN body ->
  match_tag_tail (body ++ GREATER_THAN :: after) = Some after.
Proof.
  induction body as [|c r IH]; intros H; cbn [app match_tag_tail].
  - now rewrite N.eqb_refl.
  - destruct (N.eqb_spec c GREATER_THAN) as [->|_]; [elim H; now left|].
    apply IH. intros Hin. apply H. now right.
Qed.

(** A tag at the head of a string is the match found there. *)
Lemma match_tag_tag g after : tag g -> match_tag (g ++ after) = Some after.
Proof.
  intros [body [-> [Hne Hb]]]. destruct body as [|d r]; [contradiction|].
  cbn [app match_tag]. rewrite N.eqb_refl.
  destruct (N.eqb_spec d GREATER_THAN) as [->|_]; [elim Hb; now left|].
  cbn [andb negb]. rewrite <- app_assoc. cbn [app].
  apply match_tag_tail_skip. intros Hin. apply Hb. now right.
Qed.

Lemma match_tag_None_no_tag s : match_tag s = None -> no_tag_at_head s.
Proof.
  intros H g rest Hg ->. rewrite (match_tag_tag g rest Hg) in H. discriminate.
Qed.

Lemma no_tag_match_tag_None s : no_tag_at_head s -> match_tag s = None.
Proof.
  intros H. destruct (match_tag s) as [after|] eqn:Hm; [|reflexivity].
  destruct (match_tag_inv _ _ Hm) as [g [Hg E]]. now elim (H g after Hg).
Qed.

Lemma tag_not_empty g : tag g -> exists c rest, g = c :: rest.
Proof. intros [body [-> _]]. eauto. Qed.

(** The replacement does what [stripped] says, and nothing else does. *)
Lemma replace_tags_stripped s : stripped s (String_replace_tags s).
Proof.
  remember (length s) as n eqn:Hn. revert s Hn.
  induction n as [n IH] using lt_wf_ind. intros [|c rest] Hn.
  - rewrite (replace_tags_unfold []). constructor.
  - destruct (match_tag (c :: rest)) as [after|] eqn:Hm.
    + rewrite (replace_tags_match _ _ _ Hm).
      pose proof (match_tag_shorter _ _ Hm) as Hlt.
      destruct (match_tag_inv _ _ Hm) as [g [Hg ->]].
      apply stripped_tag; [exact Hg|]. apply (IH (length after)); auto. lia.
    + rewrite (replace_tags_nomatch _ _ Hm).
      apply stripped_char; [now apply match_tag_None_no_tag|].
      apply (IH (length rest)); auto. simpl in Hn. lia.
Qed.

Lemma stripped_replace_tags s r : stripped s r -> r = String_replace_tags s.
Proof.
  induction 1 as [|g s r Hg _ IH|c s r Hc _ IH].
  - now rewrite (replace_tags_unfold []).
  - destruct (tag_not_empty g Hg) as [c [rest ->]]. cbn [app].
    rewrite (replace_tags_match c (rest ++ s) s); [exact IH|].
    exact (match_tag_tag (c :: rest) s Hg).
  - rewrite replace_tags_nomatch by now apply no_tag_match_tag_None.
    now rewrite IH.
Qed.

Lemma drop_while_all_whitespace b x :
  all_whitespace b ->
  drop_while is_whitespace (b ++ x) = drop_while is_whitespace x.
Proof.
  induction 1 as [|c r Hc _ IH]; [reflexivity|]. cbn [app drop_while].
  now rewrite Hc.
Qed.

Lemma drop_while_head_kept x :
  head_is_whitespace x = false -> drop_while is_whitespace x = x.
Proof. destruct x as [|c r]; [reflexivity|]. simpl. now intros ->. Qed.

(** Trimming does what [trimmed] says, and nothing else does. *)
Lemma trim_trimmed s : trimmed s (String_trim s).
Proof.
  destruct (drop_while_suffix is_whitespace s) as [before [Hs Hb]].
  destruct (drop_while_suffix is_whitespace (rev (drop_while is_whitespace s)))
    as [z [Hz Hzw]].
  exists before, (rev z). split; [|split; [exact Hb|split]].
  - rewrite Hs at 1. f_equal. unfold String_trim.
    rewrite <- rev_app_distr, <- Hz. now rewrite rev_involutive.
  - now apply Forall_rev.
  - split; [apply trim_head|apply trim_last].
Qed.

Lemma trimmed_trim s t : trimmed s t -> t = String_trim s.
Proof.
  intros [before [after [-> [Hb [Ha [Hh Hl]]]]]]. unfold String_trim.
  rewrite (drop_while_all_whitespace before _ Hb).
  destruct t as [|c r].
  - cbn [app]. pose proof (drop_while_all_whitespace after [] Ha) as E.
    rewrite app_nil_r in E. now rewrite E.
  - rewrite (drop_while_head_kept ((c :: r) ++ after)) by exact Hh.
    rewrite rev_app_distr.
    rewrite (drop_while_all_whitespace (rev after) (rev (c :: r)))
      by now apply Forall_rev.
    rewrite drop_while_head_kept; [now rewrite rev_involutive|].
    now rewrite <- last_is_whitespace_rev.
Qed.

Lemma split_loop_token tok : forall acc s,
  no_whitespace tok ->
  split_loop false acc (tok ++ s) = split_loop false (rev tok ++ acc) s.
Proof.
  induction tok as [|c r IH]; intros acc s H; [reflexivity|].
  inversion H as [|? ? Hc Hr]; subst. cbn [app split_loop]. rewrite Hc.
  rewrite (IH _ _ Hr). cbn [rev]. now rewrite <- app_assoc.
Qed.

Lemma split_loop_in_separator sep rest :
  all_whitespace sep -> head_is_whitespace rest = false ->
  split_loop true [] (sep ++ rest) = split_loop false [] rest.
Proof.
  intros Hs Hr. induction Hs as [|c r Hc _ IH].
  - destruct rest as [|c r]; [reflexivity|]. simpl in Hr |- *. now rewrite Hr.
  - cbn [app split_loop]. now rewrite Hc.
Qed.

Lemma split_loop_separator sep rest acc :
  sep <> [] -> all_whitespace sep -> head_is_whitespace rest = false ->
  split_loop false acc (sep ++ rest) = rev acc :: split_loop false [] rest.
Proof.
  intros Hne Hs Hr. destruct Hs as [|c r Hc Hs]; [contradiction|].
  cbn [app split_loop]. rewrite Hc. f_equal.
  now apply split_loop_in_separator.
Qed.

(** Splitting does what [split_at_whitespace] says, and nothing else
    does. *)
Lemma split_at_whitespace_split s toks :
  split_at_whitespace s toks -> toks = String_split_whitespace s.
Proof.
  unfold String_split_whitespace.
  induction 1 as [tok Ht|tok sep rest toks Ht Hne Hs Hr _ IH].
  - pose proof (split_loop_token tok [] [] Ht) as E.
    rewrite !app_nil_r in E. rewrite E. cbn [split_loop].
    now rewrite rev_involutive.
  - rewrite (split_loop_token tok [] _ Ht), app_nil_r.
    rewrite (split_loop_separator sep rest _ Hne Hs Hr), rev_involutive.
    now rewrite IH.
Qed.

Lemma split_at_whitespace_exists s : exists toks, split_at_whitespace s toks.
Proof.
  remember (length s) as n eqn:Hn. revert s Hn.
  induction n as [n IH] using lt_wf_ind. intros s Hn.
  destruct (drop_while_suffix (fun c => negb (is_whitespace c)) s)
    as [tok [Hs Htok]].
  assert (Ht : no_whitespace tok).
  { unfold no_whitespace. eapply Forall_impl; [|exact Htok].
    intros c Hc. simpl in Hc. now destruct (is_whitespace c). }
  pose proof (drop_while_head (fun c => negb (is_whitespace c)) s) as Hh.
  destruct (drop_while (fun c => negb (is_whitespace c)) s) as [|c s1] eqn:E.
  - rewrite app_nil_r in Hs. subst s. exists [tok]. now constructor.
  - assert (Hc : is_whitespace c = true) by now destruct (is_whitespace c).
    destruct (drop_while_suffix is_whitespace (c :: s1)) as [sep [Hsep Hw]].
    pose proof (drop_while_head is_whitespace (c :: s1)) as Hrest.
    set (rest := drop_while is_whitespace (c :: s1)) in *.
    assert (Hr : head_is_whitespace rest = false).
    { destruct rest as [|d r]; [reflexivity|exact Hrest]. }
    assert (Hne : sep <> []).
    { intros ->. cbn [app] in Hsep. rewrite <- Hsep in Hr. simpl in Hr.
      congruence. }
    assert (Hlen : length rest < n).
    { subst n. rewrite Hs, Hsep, !length_app.
      destruct sep; [contradiction|]. simpl. lia. }
    destruct (IH (length rest) Hlen rest eq_refl) as [toks Htoks].
    exists (tok :: toks). rewrite Hs, Hsep. now constructor.
Qed.

Lemma split_split_at_whitespace s :
  split_at_whitespace s (String_split_whitespace s).
Proof.
  destruct (split_at_whitespace_exists s) as [toks H].
  now rewrite <- (split_at_whitespace_split s toks H).
Qed.

(** C7.  [countWords] is the number of tokens obtained by removing every
    match of [<...>], trimming, and splitting at the runs of whitespace.
    Each step is tied to its input: the text without tags is the content
    read from left to right with every tag left out ([stripped]); the
    trimmed text is that text without the whitespace at its two ends
    ([trimmed]); the tokens are the pieces between the runs of whitespace
    ([split_at_whitespace]); and whatever text and tokens are obtained from
    the content in this way, they are the ones of the code, so that the
    count is their number.  No match is left in the text without tags; the
    tokens hold no whitespace and, concatenated, are the characters of the
    trimmed text that are not whitespace; none is empty unless the trimmed
    text is; the empty string gives one empty token, so its count is 1. *)
Theorem countWords_counts_tokens :
  forall content : jsstring,
    let plainText := String_replace_tags content in
    let words := String_split_whitespace (String_trim plainText) in
    countWords content = length words
    /\ stripped content plainText
    /\ trimmed plainText (String_trim plainText)
    /\ split_at_whitespace (String_trim plainText) words
    /\ (forall plain text toks,
          stripped content plain -> trimmed plain text ->
          split_at_whitespace text toks ->
          plain = plainText /\ text = String_trim plainText /\ toks = words
          /\ countWords content = length toks)
    /\ tag_free plainText
    /\ head_is_whitespace (String_trim plainText) = false
    /\ last_is_whitespace (String_trim plainText) = false
    /\ Forall (Forall (fun c => is_whitespace c = false)) words
    /\ concat words
       = filter (fun c => negb (is_whitespace c)) (String_trim plainText)
    /\ (words = [[]] \/ Forall (fun t => t <> []) words)
    /\ String_split_whitespace (String_trim (String_replace_tags [])) = [[]]
    /\ countWords [] = 1.
Proof.
  intros content plainText words.
  split; [reflexivity|].
  split; [apply replace_tags_stripped|].
  split; [apply trim_trimmed|].
  split; [apply split_split_at_whitespace|].
  split.
  { intros plain text toks H1 H2 H3.
    apply stripped_replace_tags in H1. subst plain.
    apply trimmed_trim in H2. subst text.
    apply split_at_whitespace_split in H3. subst toks.
    repeat split. }
  split; [apply replace_tags_tag_free|].
  split; [apply trim_head|].
  split; [apply trim_last|].
  split; [apply split_loop_nows; constructor|].
  split; [apply (split_loop_concat false []); discriminate|].
  split; [apply tokens_nonempty|].
  split; reflexivity.
Qed.

(** ** Saving content *)

Import NumberFacts.

(** What [handleSaveContent] returns when a chapter is selected. *)
Lemma handleSaveContent_chapter projects sel editor now :
  type sel = chapter ->
  handleSaveContent projects (Some sel) editor now
  = Some (updateProjectContent projects (id sel) (rawContent editor)
            (updatedMetadata (metadata sel)
               (Number_of_nat (countWords (getPlainText editor))) now),
          with_content_metadata sel (rawContent editor)
            (updatedMetadata (metadata sel)
               (Number_of_nat (countWords (getPlainText editor))) now)).
Proof. intros Ht. unfold handleSaveContent. now rewrite Ht. Qed.

Lemma handleSaveContent_inv projects sel editor now projects' sel' :
  handleSaveContent projects (Some sel) editor now = Some (projects', sel') ->
  type sel = chapter
  /\ projects' = updateProjectContent projects (id sel) (rawContent editor)
                   (metadata sel')
  /\ sel' = with_content_metadata sel (rawContent editor)
              (updatedMetadata (metadata sel)
                 (Number_of_nat (countWords (getPlainText editor))) now).
Proof.
  unfold handleSaveContent. destruct (type sel); simpl; [discriminate|].
  intros [= <- <-]. repeat split.
Qed.

(** The node of the forest that carries the selected id receives the
    metadata of the new selection. *)
Lemma handleSaveContent_node projects sel editor now projects' sel' q :
  handleSaveContent projects (Some sel) editor now = Some (projects', sel') ->
  find_project (id sel) projects = Some q ->
  find_project (id sel) projects'
  = Some (with_content_metadata q (rawContent editor) (metadata sel')).
Proof.
  intros Hs Hq. destruct (handleSaveContent_inv _ _ _ _ _ _ Hs) as [_ [-> _]].
  now apply find_updateProjectContent.
Qed.

Lemma division_by_zero n s :
  (1 <= n)%nat -> num_div (Number_of_nat n) (S754_zero s) = S754_infinity s.
Proof.
  intros Hn.
  destruct (Number_of_nat_positive n Hn) as [[m [e [E _]]]|E]; rewrite E;
    reflexivity.
Qed.

(** C1 (as amended).  When a chapter is saved whose [wordCountGoal] is
    zero, the division yields an infinity and [Math.min] caps it: the new
    [completionPercentage] is 100 for [+0] (and [-Infinity] for [-0]),
    whatever the text; it is never NaN; the node of the forest with the
    selected id carries the same value. *)
Theorem handleSaveContent_zero_goal :
  forall projects sel editor now projects' sel',
    handleSaveContent projects (Some sel) editor now = Some (projects', sel') ->
    (wordCountGoal (metadata sel) = S754_zero false ->
     completionPercentage (metadata sel') = Number_of_Z 100)
    /\ (wordCountGoal (metadata sel) = S754_zero true ->
        completionPercentage (metadata sel') = S754_infinity true)
    /\ (forall q, find_project (id sel) projects = Some q ->
        exists q', find_project (id sel) projects' = Some q'
                   /\ completionPercentage (metadata q')
                      = completionPercentage (metadata sel')).
Proof.
  intros projects sel editor now projects' sel' Hs.
  pose proof (handleSaveContent_inv _ _ _ _ _ _ Hs) as [_ [_ Hsel]].
  pose proof (countWords_pos (getPlainText editor)) as Hw.
  split; [|split].
  - intros Hg. rewrite Hsel.
    unfold with_content_metadata, updatedMetadata.
    cbn [metadata completionPercentage].
    rewrite Hg, division_by_zero by assumption. reflexivity.
  - intros Hg. rewrite Hsel.
    unfold with_content_metadata, updatedMetadata.
    cbn [metadata completionPercentage].
    rewrite Hg, division_by_zero by assumption. reflexivity.
  - intros q Hq. eexists. split.
    + exact (handleSaveContent_node _ _ _ _ _ _ _ Hs Hq).
    + reflexivity.
Qed.

(** C1, the claim as stated fails: a chapter with [wordCountGoal = 0] and
    the text ["hello world"] is saved with [completionPercentage = 100],
    in the selection and in the forest. *)
Lemma zero_goal_counterexample :
  let ch := sample_chapter 2 (Number_of_Z 0) in
  let saved :=
    handleSaveContent [sample_project 1 [ch]] (Some ch)
      (sample_editor (js "hello world")) (js "2024-01-01T00:00:00.000Z") in
  wordCountGoal (metadata ch) = Number_of_Z 0
  /\ option_map (fun r => completionPercentage (metadata (snd r))) saved
     = Some (Number_of_Z 100)
  /\ option_map (fun r =>
       option_map (fun q => completionPercentage (metadata q))
         (find_project (id ch) (fst r))) saved
     = Some (Some (Number_of_Z 100))
  /\ Number_of_Z 100 <> Number_of_Z 0.
Proof.
  repeat split; try (vm_compute; reflexivity). vm_compute. discriminate.
Qed.

Lemma handleSaveContent_zero_goal_witness :
  let ch := sample_chapter 2 (Number_of_Z 0) in
  let projects := [sample_project 1 [ch]] in
  let editor := sample_editor (js "hello world") in
  let now := js "2024-01-01T00:00:00.000Z" in
  let md :=
    updatedMetadata (metadata ch)
      (Number_of_nat (countWords (getPlainText editor))) now in
  wordCountGoal (metadata ch) = S754_zero false
  /\ completionPercentage
       (metadata (with_content_metadata ch (rawContent editor) md))
     = Number_of_Z 100.
Proof.
  intros ch projects editor now md. split; [reflexivity|].
  exact (proj1 (handleSaveContent_zero_goal projects ch editor now
                  (updateProjectContent projects (id ch) (rawContent editor) md)
                  (with_content_metadata ch (rawContent editor) md)
                  eq_refl) eq_refl).
Defined.

(** C10.  [countWords] never returns 0; hence after any save of content the
    new [actualWordCount] and [estimatedReadingTime] are at least 1, in the
    selection and in the node of the forest that carries the selected id. *)
Theorem countWords_at_least_one :
  (forall content, 1 <= countWords content)
  /\ (forall projects sel editor now projects' sel',
        handleSaveContent projects (Some sel) editor now = Some (projects', sel') ->
        actualWordCount (metadata sel')
        = Number_of_nat (countWords (getPlainText editor))
        /\ num_leb (Number_of_Z 1) (actualWordCount (metadata sel')) = true
        /\ num_leb (Number_of_Z 1) (estimatedReadingTime (metadata sel')) = true
        /\ (forall q, find_project (id sel) projects = Some q ->
            exists q', find_project (id sel) projects' = Some q'
                       /\ metadata q' = metadata sel')).
Proof.
  split; [exact countWords_pos|].
  intros projects sel editor now projects' sel' Hs.
  pose proof (handleSaveContent_inv _ _ _ _ _ _ Hs) as [_ [_ Hsel]].
  pose proof (countWords_pos (getPlainText editor)) as Hw.
  split; [now rewrite Hsel|].
  split; [|split].
  - rewrite Hsel.
    cbn [with_content_metadata metadata updatedMetadata actualWordCount].
    apply Number_of_Z_ge_one. lia.
  - rewrite Hsel.
    cbn [with_content_metadata metadata updatedMetadata estimatedReadingTime].
    rewrite Number_of_Z_250.
    destruct (Number_of_nat_positive _ Hw) as [[m [e [E [Dm Be]]]]|E]; rewrite E.
    + destruct (num_div_normal false m e false 8796093022208000 (-45))
        as [m' [e' [E' [Dm' _]]]].
      * exact Dm.
      * reflexivity.
      * unfold prec, emax in *. lia.
      * unfold prec, emax in *. lia.
      * rewrite E'. now apply Math_ceil_ge_one.
    + reflexivity.
  - intros q Hq. eexists. split.
    + exact (handleSaveContent_node _ _ _ _ _ _ _ Hs Hq).
    + reflexivity.
Qed.

Lemma countWords_at_least_one_witness :
  let ch := sample_chapter 2 (Number_of_Z 0) in
  let editor := sample_editor (js "   ") in
  let now := js "2024-01-01T00:00:00.000Z" in
  let md :=
    updatedMetadata (metadata ch)
      (Number_of_nat (countWords (getPlainText editor))) now in
  countWords (getPlainText editor) = 1
  /\ num_leb (Number_of_Z 1) (actualWordCount md) = true
  /\ num_leb (Number_of_Z 1) (estimatedReadingTime md) = true.
Proof.
  intros ch editor now md. split; [reflexivity|].
  pose proof (proj2 countWords_at_least_one [sample_project 1 [ch]] ch editor now
                (updateProjectContent [sample_project 1 [ch]] (id ch)
                   (rawContent editor) md)
                (with_content_metadata ch (rawContent editor) md) eq_refl)
    as [_ [H1 [H2 _]]].
  split; [exact H1|exact H2].
Defined.

(** ** Deleting *)

Lemma filter_keep_all {A : Type} (f : A -> bool) (l : list A) :
  (forall x, In x l -> f x = true) -> filter f l = l.
Proof.
  induction l as [|x l IH]; simpl; intros H; [reflexivity|].
  rewrite (H x) by now left. f_equal. apply IH. intros y Hy. apply H. now right.
Qed.

Lemma map_keep_all {A : Type} (f : A -> A) (l : list A) :
  (forall x, In x l -> f x = x) -> List.map f l = l.
Proof.
  induction l as [|x l IH]; simpl; intros H; [reflexivity|].
  rewrite (H x) by now left. f_equal. apply IH. intros y Hy. apply H. now right.
Qed.

Lemma list_sum_zero l : list_sum l = 0 -> forall n, In n l -> n = 0.
Proof.
  induction l as [|x l IH]; simpl; intros H n; [intros []|].
  intros [<-|Hin]; [lia|]. apply IH; [lia|assumption].
Qed.

Lemma occurrences_node_eq i p :
  occurrences_node i p
  = (if num_eqb (id p) i then 1 else 0) + occurrences i (children p).
Proof. destruct p as [j n t cs c m]. reflexivity. Qed.

Lemma list_sum_In n l : In n l -> n <= list_sum l.
Proof.
  induction l as [|x l IH]; simpl; [intros []|].
  intros [->|H]; [lia|]. specialize (IH H). lia.
Qed.

Lemma occurrences_node_le j p ps :
  In p ps -> occurrences_node j p <= occurrences j ps.
Proof. intros H. apply list_sum_In. now apply in_map. Qed.





(** ** Creating *)

(** C6 (as amended).  [handleCreateNewChapter] looks for the parent among
    the roots only: when exactly one root carries [projectId], the new
    chapter (id [Date.now()], default metadata, no children, empty
    content) is appended to its children and nothing else changes; when no
    root carries it, the forest is returned as it is and no error is
    raised.  [handleCreateNewProject] appends a new project with such an id
    and metadata to the root list. *)
Theorem create_appends_under_root :
  (forall before p after projectId clock,
      num_eqb (id p) projectId = true ->
      (forall q, In q (before ++ after) -> num_eqb (id q) projectId = false) ->
      handleCreateNewChapter (before ++ p :: after) projectId clock
      = before ++ with_children p (children p ++ [newChapter clock]) :: after)
  /\ (forall projects projectId clock,
        (forall q, In q projects -> num_eqb (id q) projectId = false) ->
        handleCreateNewChapter projects projectId clock = projects)
  /\ (forall projects newProjectName clock,
        handleCreateNewProject projects newProjectName clock
        = projects ++ [mkProject (Date_now clock) newProjectName project []
                         None (newMetadata clock)])
  /\ (forall clock,
        id (newChapter clock) = Date_now clock
        /\ type (newChapter clock) = chapter
        /\ children (newChapter clock) = []
        /\ content (newChapter clock) = Some []
        /\ metadata (newChapter clock) = newMetadata clock
        /\ status (newMetadata clock) = NotStarted
        /\ wordCountGoal (newMetadata clock) = Number_of_Z 0
        /\ actualWordCount (newMetadata clock) = Number_of_Z 0
        /\ completionPercentage (newMetadata clock) = Number_of_Z 0
        /\ estimatedReadingTime (newMetadata clock) = Number_of_Z 0
        /\ tags (newMetadata clock) = []).
Proof.
  split; [|split; [|split]].
  - intros before p after projectId clock Hp Hothers.
    unfold handleCreateNewChapter, addChapterToProject.
    rewrite map_app. simpl. rewrite Hp.
    rewrite !map_keep_all; [reflexivity| |];
      intros q Hq; rewrite Hothers; auto using in_or_app.
  - intros projects projectId clock Hnone.
    unfold handleCreateNewChapter, addChapterToProject.
    apply map_keep_all. intros q Hq. now rewrite Hnone.
  - reflexivity.
  - intros clock. repeat split.
Qed.

(** C6, the claim as stated fails: with a parent id that occurs nowhere
    (99) the forest is returned unchanged instead of an error; and the
    project with id 2, which is nested in another one, gets no chapter. *)
Lemma create_counterexample :
  let nested := sample_project 2 [] in
  let forest := [sample_project 1 [nested]] in
  occurrences (Number_of_Z 99) forest = 0
  /\ handleCreateNewChapter forest (Number_of_Z 99) sample_clock = forest
  /\ occurrences (id nested) forest = 1
  /\ handleCreateNewChapter forest (id nested) sample_clock = forest
  /\ find_project (id nested) (handleCreateNewChapter forest (id nested) sample_clock)
     = Some nested
  /\ children nested = [].
Proof. repeat split; vm_compute; reflexivity. Qed.

Lemma create_appends_under_root_witness :
  let a := sample_project 1 [sample_chapter 3 (Number_of_Z 0)] in
  let b := sample_project 2 [] in
  handleCreateNewChapter ([a] ++ b :: []) (Number_of_Z 2) sample_clock
  = [a] ++ with_children b (children b ++ [newChapter sample_clock]) :: []
  /\ handleCreateNewChapter [a; b] (Number_of_Z 99) sample_clock = [a; b].
Proof.
  intros a b. split.
  - apply (proj1 create_appends_under_root [a] b [] (Number_of_Z 2) sample_clock).
    + reflexivity.
    + intros q [<-|[]]. reflexivity.
  - apply (proj1 (proj2 create_appends_under_root) [a; b] (Number_of_Z 99)).
    intros q [<-|[<-|[]]]; reflexivity.
Defined.

(** ** Reordering *)

Lemma firstn_1_skipn {A : Type} (i : nat) (l : list A) :
  firstn 1 (skipn i l) = match nth_error l i with Some x => [x] | None => [] end.
Proof.
  revert l. induction i as [|i IH]; intros [|x l]; try reflexivity.
  exact (IH l).
Qed.

(** On the root list, with a source index inside it, [onDragEnd] moves the
    element: it sets the list [move i j projects]; no project is changed,
    so the lists of children stay as they are. *)
Lemma onDragEnd_moves_root projects src dst x :
  nth_error projects (index src) = Some x ->
  onDragEnd projects (mkDropResult src (Some dst))
  = Some (List.map Some (move (index src) (index dst) projects)).
Proof.
  intros Hx. unfold onDragEnd, move, Array_splice_remove, Array_splice_insert.
  cbn [destination source].
  rewrite Hx, firstn_1_skipn, nth_error_map, Hx. cbn [option_map].
  rewrite !firstn_map, !skipn_map, <- map_app, firstn_map, skipn_map.
  now rewrite map_app.
Qed.

Lemma insert_then_remove {A : Type} (a b : list A) (x : A) :
  firstn (length a) (a ++ x :: b) ++ skipn (S (length a)) (a ++ x :: b) = a ++ b.
Proof.
  induction a as [|y a IH]; simpl; [reflexivity|]. f_equal. exact IH.
Qed.

(** The moved element ends at position [j], the list keeps its length,
    and the other elements keep their relative order: without position [j]
    the new list is the old one without position [i]. *)
Lemma move_spec {A : Type} (i j : nat) (l : list A) (x : A) :
  nth_error l i = Some x ->
  j < length l ->
  nth_error (move i j l) j = Some x
  /\ length (move i j l) = length l
  /\ firstn j (move i j l) ++ skipn (S j) (move i j l)
     = firstn i l ++ skipn (S i) l.
Proof.
  intros Hx Hj. unfold move, Array_splice_insert. rewrite Hx.
  set (rest := firstn i l ++ skipn (S i) l).
  assert (Hi : i < length l) by (apply nth_error_Some; congruence).
  assert (Hrest : length rest = length l - 1).
  { unfold rest. rewrite length_app, length_firstn, length_skipn. lia. }
  assert (Hf : length (firstn j rest) = j).
  { rewrite length_firstn. lia. }
  split; [|split].
  - rewrite nth_error_app2 by lia. rewrite Hf, Nat.sub_diag. reflexivity.
  - rewrite length_app. simpl. rewrite Hf, length_skipn. lia.
  - pose proof (insert_then_remove (firstn j rest) (skipn j rest) x) as H.
    rewrite Hf in H. rewrite H. apply firstn_skipn.
Qed.

(** C8, the defect.  [onDragEnd] never reads the droppable id: a drag
    inside the list of chapters of a project (level 1) is carried out on
    the root list.  (1) Project [a] holds the chapters 3 and 4 and is the
    only root; its first chapter is dropped after the second: the root list
    and the chapters stay as they were.  (2) With a second root [b], the
    same drag swaps the two projects.  (3) Project [c] holds three chapters
    and is the only root; its last chapter is dropped at the top:
    [undefined] is put in front of the root list. *)
Lemma onDragEnd_nested_drag_moves_roots :
  let a := sample_project 1 [sample_chapter 3 (Number_of_Z 0);
                             sample_chapter 4 (Number_of_Z 0)] in
  let b := sample_project 2 [] in
  let c := sample_project 5 [sample_chapter 6 (Number_of_Z 0);
                             sample_chapter 7 (Number_of_Z 0);
                             sample_chapter 8 (Number_of_Z 0)] in
  let level1 := js "projectList-1" in
  let drag i j := mkDropResult (mkLocation level1 i) (Some (mkLocation level1 j)) in
  onDragEnd [a] (drag 0 1) = Some [Some a]
  /\ onDragEnd [a; b] (drag 0 1) = Some [Some b; Some a]
  /\ List.map id (children a) = [Number_of_Z 3; Number_of_Z 4]
  /\ onDragEnd [c] (drag 2 0) = Some [None; Some c].
Proof. repeat split; vm_compute; reflexivity. Qed.

(** ** JSON: what is written is read back *)

Lemma stringify_head v :
  exists l tl, stringify v = l :: tl /\ starts_value l = true.
Proof.
  destruct v as [|b|x|s|items|properties]; simpl; eauto.
  - destruct b; eauto.
  - destruct x as [[|]|[|]| |sg m e]; simpl; eauto.
Qed.

Lemma skip_whitespace_value l tl :
  starts_value l = true -> skip_whitespace (l :: tl) = l :: tl.
Proof. now destruct l. Qed.

Lemma String_eqb_eq a b : String_eqb a b = true <-> a = b.
Proof.
  unfold String_eqb. destruct (list_eq_dec N.eq_dec a b); split; congruence.
Qed.

Lemma define_property_new k v acc :
  plain_key k = true ->
  existsb (String_eqb k) (List.map fst acc) = false ->
  define_property k v acc = acc ++ [(k, v)].
Proof.
  unfold plain_key. intros Hk.
  induction acc as [|[k' v'] acc IH]; simpl; intros Hnew; [reflexivity|].
  apply orb_false_iff in Hnew as [Hne Hrest]. rewrite Hne.
  destruct (array_index k); [discriminate|]. now rewrite IH.
Qed.

Lemma parse_elements_eq fuel t :
  parse_elements (S fuel) t
  = match parse_value fuel t with
    | Some (v, rest) =>
        match skip_whitespace rest with
        | LComma :: rest' =>
            match parse_elements fuel rest' with
            | Some (vs, rest'') => Some (v :: vs, rest'')
            | None => None
            end
        | LEndArray :: rest' => Some ([v], rest')
        | _ => None
        end
    | None => None
    end.
Proof. reflexivity. Qed.

Lemma parse_member_eq fuel acc k rest' :
  parse_members (S fuel) acc (LString k :: LColon :: rest')
  = match parse_value fuel rest' with
    | Some (v, rest'') =>
        match skip_whitespace rest'' with
        | LComma :: r => parse_members fuel (define_property k v acc) r
        | LEndObject :: r => Some (define_property k v acc, r)
        | _ => None
        end
    | None => None
    end.
Proof. reflexivity. Qed.

Lemma parse_array_eq fuel t :
  (exists l tl, t = l :: tl /\ starts_value l = true) ->
  parse_value (S fuel) (LBeginArray :: t)
  = match parse_elements fuel t with
    | Some (items, rest') => Some (VArray items, rest')
    | None => None
    end.
Proof.
  intros [l [tl [-> Hl]]]. destruct l; try discriminate; reflexivity.
Qed.

Lemma parse_object_eq fuel k t :
  parse_value (S fuel) (LBeginObject :: LString k :: t)
  = match parse_members fuel [] (LString k :: t) with
    | Some (properties, rest') => Some (VObject properties, rest')
    | None => None
    end.
Proof. reflexivity. Qed.

Lemma parse_elements_written items :
  Forall reads_back items ->
  forallb representable items = true ->
  items <> [] ->
  forall fuel rest,
    S (length (join_comma (List.map stringify items))) <= fuel ->
    parse_elements fuel (join_comma (List.map stringify items) ++ LEndArray :: rest)
    = Some (items, rest).
Proof.
  induction 1 as [|x tl Hx Htl IH]; intros Hrep Hne fuel rest Hfuel;
    [contradiction|].
  simpl in Hrep. apply andb_true_iff in Hrep as [Hrx Hrtl].
  destruct fuel as [|fuel]; [lia|].
  rewrite parse_elements_eq.
  destruct tl as [|y tl'].
  - cbn [List.map join_comma] in *.
    rewrite (Hx Hrx) by lia. reflexivity.
  - change (join_comma (List.map stringify (x :: y :: tl')))
      with (stringify x ++ LComma :: join_comma (List.map stringify (y :: tl'))) in *.
    rewrite <- app_assoc, <- app_comm_cons.
    rewrite length_app in Hfuel. cbn [length] in Hfuel.
    rewrite (Hx Hrx) by lia. cbn [skip_whitespace].
    rewrite IH; [reflexivity|assumption|discriminate|lia].
Qed.

Lemma String_eqb_sym a b : String_eqb a b = String_eqb b a.
Proof.
  unfold String_eqb.
  destruct (list_eq_dec N.eq_dec a b), (list_eq_dec N.eq_dec b a); congruence.
Qed.

Lemma distinct_middle a k b :
  distinct (a ++ k :: b) = true -> existsb (String_eqb k) a = false.
Proof.
  induction a as [|k' a IH]; simpl; [reflexivity|]. intros H.
  apply andb_true_iff in H as [Hk' Hd].
  rewrite (IH Hd), orb_false_r.
  apply negb_true_iff in Hk'. rewrite existsb_app in Hk'.
  apply orb_false_iff in Hk' as [_ Hk']. simpl in Hk'.
  apply orb_false_iff in Hk' as [Hk' _]. now rewrite String_eqb_sym.
Qed.

Lemma plain_keys_middle a k b :
  plain_keys (a ++ k :: b) = true ->
  plain_key k = true /\ existsb (String_eqb k) a = false.
Proof.
  unfold plain_keys. intros H. apply andb_true_iff in H as [Hp Hd].
  rewrite forallb_app in Hp. apply andb_true_iff in Hp as [_ Hp].
  simpl in Hp. apply andb_true_iff in Hp as [Hk _].
  split; [exact Hk|]. now apply (distinct_middle a k b).
Qed.

Lemma parse_members_written properties :
  Forall (fun kv => reads_back (snd kv)) properties ->
  forallb (fun kv => representable (snd kv)) properties = true ->
  properties <> [] ->
  forall acc fuel rest,
    plain_keys (List.map fst (acc ++ properties)) = true ->
    S (length (join_comma (List.map member properties))) <= fuel ->
    parse_members fuel acc
      (join_comma (List.map member properties) ++ LEndObject :: rest)
    = Some (acc ++ properties, rest).
Proof.
  induction 1 as [|[k v] tl Hx Htl IH];
    intros Hrep Hne acc fuel rest Hkeys Hfuel; [contradiction|].
  simpl in Hrep, Hx. apply andb_true_iff in Hrep as [Hrx Hrtl].
  destruct fuel as [|fuel]; [lia|].
  rewrite map_app in Hkeys. simpl List.map in Hkeys.
  destruct (plain_keys_middle _ _ _ Hkeys) as [Hk Hnew].
  assert (Hdef : define_property k v acc = acc ++ [(k, v)])
    by now apply define_property_new.
  destruct tl as [|y tl'].
  - cbn [List.map join_comma member fst snd app] in *.
    rewrite parse_member_eq.
    rewrite (Hx Hrx) by (simpl in Hfuel; lia).
    cbn [skip_whitespace]. now rewrite Hdef.
  - change (join_comma (List.map member ((k, v) :: y :: tl')))
      with (member (k, v) ++ LComma :: join_comma (List.map member (y :: tl'))) in *.
    unfold member at 1. unfold member at 1 in Hfuel. cbn [fst snd] in *.
    rewrite <- !app_comm_cons, <- app_assoc, <- app_comm_cons.
    rewrite parse_member_eq.
    cbn [length] in Hfuel. rewrite length_app in Hfuel. cbn [length] in Hfuel.
    rewrite (Hx Hrx) by lia. cbn [skip_whitespace]. rewrite Hdef.
    rewrite IH.
    + now rewrite <- app_assoc.
    + assumption.
    + discriminate.
    + rewrite <- app_assoc, map_app. exact Hkeys.
    + lia.
Qed.

Lemma join_head {A : Type} (f : A -> text) (l : list A) :
  (forall x, exists h tl, f x = h :: tl /\ starts_value h = true) ->
  l <> [] ->
  forall rest, exists h tl,
    join_comma (List.map f l) ++ rest = h :: tl /\ starts_value h = true.
Proof.
  intros Hf Hl rest. destruct l as [|x l]; [contradiction|].
  destruct (Hf x) as [h [tl [E Hh]]].
  cbn [List.map join_comma]. rewrite E.
  destruct (List.map f l); simpl; eauto.
Qed.

Theorem stringify_reads_back : forall v, reads_back v.
Proof.
  induction v as [|b|x|s|items IH|properties IH] using value_ind;
    intros Hrep fuel rest Hfuel.
  - destruct fuel; [simpl in Hfuel; lia|reflexivity].
  - destruct fuel; [simpl in Hfuel; lia|]. now destruct b.
  - destruct fuel; [simpl in Hfuel; lia|].
    simpl in Hrep.
    destruct x as [[|]|[|]| |sg m e]; try discriminate Hrep; reflexivity.
  - destruct fuel; [simpl in Hfuel; lia|reflexivity].
  - cbn [stringify] in *. rewrite <- app_comm_cons, <- app_assoc.
    cbn [length] in Hfuel. rewrite length_app in Hfuel. cbn [length] in Hfuel.
    destruct fuel as [|fuel]; [lia|].
    destruct items as [|x tl]; [reflexivity|].
    rewrite parse_array_eq
      by (apply join_head; [apply stringify_head|discriminate]).
    cbn [app]. rewrite parse_elements_written;
      [reflexivity|assumption|exact Hrep|discriminate|lia].
  - cbn [representable] in Hrep.
    apply andb_true_iff in Hrep as [Hkeys Hrep].
    destruct properties as [|[k v] tl].
    { destruct fuel; [simpl in Hfuel; lia|reflexivity]. }
    change (stringify (VObject ((k, v) :: tl)))
      with (LBeginObject ::
            join_comma (List.map member ((k, v) :: tl)) ++ [LEndObject]) in *.
    cbn [length] in Hfuel. rewrite length_app in Hfuel. cbn [length] in Hfuel.
    rewrite <- app_comm_cons, <- app_assoc.
    destruct fuel as [|fuel]; [lia|].
    assert (Hm : exists t,
      join_comma (List.map member ((k, v) :: tl)) = LString k :: t).
    { destruct tl as [|y tl']; eexists; reflexivity. }
    destruct Hm as [t Ht].
    assert (Hp : parse_value (S fuel)
        (LBeginObject ::
         join_comma (List.map member ((k, v) :: tl)) ++ [LEndObject] ++ rest)
      = match parse_members fuel []
                (join_comma (List.map member ((k, v) :: tl))
                 ++ [LEndObject] ++ rest) with
        | Some (properties, rest') => Some (VObject properties, rest')
        | None => None
        end).
    { rewrite Ht. reflexivity. }
    rewrite Hp. cbn [app].
    rewrite parse_members_written;
      [reflexivity|assumption|exact Hrep|discriminate|exact Hkeys|lia].
Qed.

(** [JSON.parse(JSON.stringify(v))] returns [v]. *)
Theorem JSON_parse_stringify v :
  representable v = true -> JSON_parse (JSON_stringify v) = Returned v.
Proof.
  intros Hrep. unfold JSON_parse, JSON_stringify.
  pose proof (stringify_reads_back v Hrep (S (length (stringify v))) []) as H.
  rewrite app_nil_r in H. rewrite H by lia. reflexivity.
Qed.

Lemma JSON_stringify_not_empty v : JSON_stringify v <> [].
Proof.
  unfold JSON_stringify. destruct (stringify_head v) as [l [tl [E _]]].
  rewrite E. discriminate.
Qed.

(** ** Forests as values *)

Lemma representable_strings l : forallb representable (List.map VString l) = true.
Proof. induction l; simpl; auto. Qed.

Lemma representable_metadata m :
  valid_metadata m = true -> representable (value_of_metadata m) = true.
Proof.
  unfold valid_metadata. intros H.
  apply andb_true_iff in H as [H He]. apply andb_true_iff in H as [H Hc].
  apply andb_true_iff in H as [Hg Ha].
  unfold value_of_metadata. cbn [representable List.map fst snd forallb].
  rewrite Hg, Ha, Hc, He, representable_strings.
  destruct (status m); reflexivity.
Qed.

Lemma representable_project p :
  valid_project p = true -> representable (value_of_project p) = true.
Proof.
  induction p as [i n t cs c m IH] using Project_ind. intros H.
  cbn [valid_project id metadata children] in H.
  apply andb_true_iff in H as [H Hcs]. apply andb_true_iff in H as [Hi Hm].
  assert (Hch : forallb representable (List.map value_of_project cs) = true).
  { induction IH as [|x l Hx _ IHl]; [reflexivity|].
    simpl in Hcs |- *. apply andb_true_iff in Hcs as [Hx' Hl'].
    now rewrite (Hx Hx'), (IHl Hl'). }
  pose proof (representable_metadata m Hm) as Hmd.
  cbn [value_of_project id name type children content metadata].
  destruct c as [c|], t; cbn [app representable List.map fst snd forallb value_of_type];
    rewrite Hi, Hch, Hmd; reflexivity.
Qed.

Lemma representable_projects projects :
  schema_valid projects = true ->
  representable (value_of_projects projects) = true.
Proof.
  unfold schema_valid, value_of_projects. cbn [representable].
  induction projects as [|p l IH]; simpl; [reflexivity|]. intros H.
  apply andb_true_iff in H as [Hp Hl].
  now rewrite (representable_project p Hp), (IH Hl).
Qed.

(** Two forests that are the same value are the same forest. *)
Lemma map_VString_injective l l' :
  List.map VString l = List.map VString l' -> l = l'.
Proof.
  revert l'. induction l as [|x l IH]; intros [|y l']; simpl; try discriminate;
    [reflexivity|].
  intros [= -> H]. now rewrite (IH l' H).
Qed.

Lemma value_of_metadata_injective m m' :
  value_of_metadata m = value_of_metadata m' -> m = m'.
Proof.
  destruct m as [st g a lm cd cp tg au er ve],
           m' as [st' g' a' lm' cd' cp' tg' au' er' ve'].
  unfold value_of_metadata. cbn [status wordCountGoal actualWordCount lastModified
    creationDate completionPercentage tags author estimatedReadingTime version].
  intros [= Hst -> -> -> -> -> Htg -> -> ->].
  apply map_VString_injective in Htg as ->.
  destruct st, st'; try discriminate Hst; reflexivity.
Qed.

Lemma value_of_project_injective p : forall p',
  value_of_project p = value_of_project p' -> p = p'.
Proof.
  induction p as [i n t cs c m IH] using Project_ind.
  intros [i' n' t' cs' c' m'].
  cbn [value_of_project id name type children content metadata].
  intros H.
  assert (Hcs : forall l', List.map value_of_project cs = List.map value_of_project l'
                           -> cs = l').
  { clear H. induction IH as [|x l Hx _ IHl]; intros [|y l']; simpl;
      try discriminate; [reflexivity|].
    intros [= Hh Ht]. now rewrite (Hx y Hh), (IHl l' Ht). }
  remember (value_of_metadata m) as vm eqn:Evm.
  remember (value_of_metadata m') as vm' eqn:Evm'.
  destruct c as [c|], c' as [c'|]; cbn [app] in H.
  - injection H as -> -> Ht Hch -> Hm. subst vm vm'.
    apply Hcs in Hch as ->. apply value_of_metadata_injective in Hm as ->.
    destruct t, t'; try discriminate Ht; reflexivity.
  - injection H as _ _ _ _ Hk. discriminate Hk.
  - injection H as _ _ _ _ Hk. discriminate Hk.
  - injection H as -> -> Ht Hch Hm. subst vm vm'.
    apply Hcs in Hch as ->. apply value_of_metadata_injective in Hm as ->.
    destruct t, t'; try discriminate Ht; reflexivity.
Qed.

Lemma value_of_projects_injective projects projects' :
  value_of_projects projects = value_of_projects projects' ->
  projects = projects'.
Proof.
  unfold value_of_projects. intros [= H]. revert projects' H.
  induction projects as [|p l IH]; intros [|p' l']; simpl; try discriminate;
    [reflexivity|].
  intros [= Hp Hl].
  now rewrite (value_of_project_injective p p' Hp), (IH l' Hl).
Qed.

(** ** Loading, importing, exporting *)

Lemma load_some saved :
  saved <> [] -> loadProjectsFromLocalStorage (Some saved) = JSON_parse saved.
Proof. destruct saved; [contradiction|reflexivity]. Qed.

(** C4 (as amended).  [loadProjectsFromLocalStorage] returns the empty
    list when nothing, or the empty string, is stored; it returns the last
    snapshot saved from a schema-valid forest; for any other stored text it
    ends as [JSON.parse] does on that text: with the value read, or by
    throwing the [SyntaxError] of a text that cannot be parsed. *)
Theorem load_returns_or_throws :
  loadProjectsFromLocalStorage None = Returned (value_of_projects [])
  /\ loadProjectsFromLocalStorage (Some []) = Returned (value_of_projects [])
  /\ (forall projects,
        schema_valid projects = true ->
        loadProjectsFromLocalStorage
          (saveProjectsToLocalStorage (value_of_projects projects))
        = Returned (value_of_projects projects))
  /\ (forall saved v,
        saved <> [] -> JSON_parse saved = Returned v ->
        loadProjectsFromLocalStorage (Some saved) = Returned v)
  /\ (forall saved e,
        saved <> [] -> JSON_parse saved = Thrown e ->
        loadProjectsFromLocalStorage (Some saved) = Thrown e).
Proof.
  split; [reflexivity|]. split; [reflexivity|]. split; [|split].
  - intros projects Hvalid. unfold saveProjectsToLocalStorage.
    rewrite load_some by apply JSON_stringify_not_empty.
    apply JSON_parse_stringify. now apply representable_projects.
  - intros saved v Hne Hp. now rewrite load_some.
  - intros saved e Hne Hp. now rewrite load_some.
Qed.

(** C4, the claim as stated fails: on a stored text that cannot be parsed
    the load throws. *)
Lemma load_counterexample :
  loadProjectsFromLocalStorage (Some truncated_snapshot) = Thrown SyntaxError
  /\ loadProjectsFromLocalStorage (Some [LOther]) = Thrown SyntaxError
  /\ loadProjectsFromLocalStorage (Some [LWhitespace]) = Thrown SyntaxError.
Proof. repeat split. Qed.

Lemma load_returns_or_throws_witness :
  schema_valid sample_forest = true
  /\ loadProjectsFromLocalStorage
       (saveProjectsToLocalStorage (value_of_projects sample_forest))
     = Returned (value_of_projects sample_forest)
  /\ loadProjectsFromLocalStorage (Some truncated_snapshot) = Thrown SyntaxError.
Proof.
  assert (H : schema_valid sample_forest = true) by reflexivity.
  split; [exact H|]. split.
  - exact (proj1 (proj2 (proj2 load_returns_or_throws)) sample_forest H).
  - apply (proj2 (proj2 (proj2 (proj2 load_returns_or_throws)))).
    + discriminate.
    + reflexivity.
Defined.

(** [JSON.parse] throws nothing but its [SyntaxError]. *)
Lemma JSON_parse_throws t e : JSON_parse t = Thrown e -> e = SyntaxError.
Proof.
  unfold JSON_parse. destruct (parse_value (S (length t)) t) as [[v rest]|].
  - destruct (skip_whitespace rest); [discriminate|]. now intros [= <-].
  - now intros [= <-].
Qed.

(** C5 (as amended).  When the text of the file cannot be parsed,
    [JSON.parse] throws its [SyntaxError] before [setProjects] is reached:
    the state, in memory and in the local storage, is the one before the
    attempt.  When it can be parsed, the value read, whatever it is,
    becomes the projects in memory and is written to the local storage: no
    schema is checked.  The rendering of the new state then starts with
    [projects.map]: it has its rows when the value is an array, and throws
    a [TypeError] when it is anything else. *)
Theorem import_replaces_or_throws :
  forall st content,
    (forall e, JSON_parse content = Thrown e ->
               e = SyntaxError
               /\ handleImportProjects st content = (st, Thrown SyntaxError))
    /\ (forall v, JSON_parse content = Returned v ->
          fst (handleImportProjects st content)
          = mkAppState v (Some (JSON_stringify v))
          /\ (forall items, v = VArray items ->
              renderProjects_rows
                (projects_in_memory (fst (handleImportProjects st content)))
              = Returned items)
          /\ ((forall items, v <> VArray items) ->
              renderProjects_rows
                (projects_in_memory (fst (handleImportProjects st content)))
              = Thrown TypeError)).
Proof.
  intros st content. unfold handleImportProjects. split.
  - intros e He. rewrite He. pose proof (JSON_parse_throws _ _ He) as ->.
    split; reflexivity.
  - intros v Hv. rewrite Hv. cbn [fst setProjects projects_in_memory].
    split; [reflexivity|]. split.
    + now intros items ->.
    + intros Hn. destruct v; try reflexivity. now elim (Hn items).
Qed.

(** C5, the claim as stated fails: the file holds an object, which is no
    list of projects; [JSON.parse] reads it, and the object replaces the
    forest in memory and in the local storage; the rendering of this state
    throws a [TypeError]. *)
Lemma import_counterexample :
  let imported := VObject [(js "name", VString (js "Notes"))] in
  JSON_parse notes_file = Returned imported
  /\ fst (handleImportProjects sample_state notes_file)
     = mkAppState imported (Some (JSON_stringify imported))
  /\ (forall projects, value_of_projects projects <> imported)
  /\ projects_in_memory (fst (handleImportProjects sample_state notes_file))
     <> projects_in_memory sample_state
  /\ renderProjects_rows
       (projects_in_memory (fst (handleImportProjects sample_state notes_file)))
     = Thrown TypeError.
Proof.
  split; [reflexivity|]. split; [reflexivity|]. split; [|split].
  - intros projects. discriminate.
  - discriminate.
  - reflexivity.
Qed.

Lemma import_replaces_or_throws_witness :
  let imported := VObject [(js "name", VString (js "Notes"))] in
  (JSON_parse truncated_snapshot = Thrown SyntaxError
   /\ handleImportProjects sample_state truncated_snapshot
      = (sample_state, Thrown SyntaxError))
  /\ (JSON_parse notes_file = Returned imported
      /\ fst (handleImportProjects sample_state notes_file)
         = mkAppState imported (Some (JSON_stringify imported))
      /\ renderProjects_rows
           (projects_in_memory (fst (handleImportProjects sample_state notes_file)))
         = Thrown TypeError).
Proof.
  intros imported.
  assert (H : JSON_parse truncated_snapshot = Thrown SyntaxError) by reflexivity.
  assert (H' : JSON_parse notes_file = Returned imported) by reflexivity.
  split.
  - split; [exact H|].
    exact (proj2 (proj1 (import_replaces_or_throws sample_state
                           truncated_snapshot) SyntaxError H)).
  - split; [exact H'|].
    destruct (proj2 (import_replaces_or_throws sample_state notes_file)
                imported H') as [H1 [_ H3]].
    split; [exact H1|]. apply H3. intros items. discriminate.
Defined.

(** C9.  Exporting a schema-valid forest and importing the text written,
    into whatever state, gives back the forest: the projects in memory
    after the import are the value of the forest that was exported (and no
    longer what the importing state held), they are written to the local
    storage, and a forest that is this value is the forest itself, with the
    same ids, order and fields. *)
Theorem import_export_round_trip :
  forall st st0 projects,
    schema_valid projects = true ->
    projects_in_memory st = value_of_projects projects ->
    handleImportProjects st0 (handleExportProjects st)
    = (setProjects st0 (value_of_projects projects), Returned tt)
    /\ projects_in_memory (fst (handleImportProjects st0 (handleExportProjects st)))
       = value_of_projects projects
    /\ localStorage (fst (handleImportProjects st0 (handleExportProjects st)))
       = saveProjectsToLocalStorage (value_of_projects projects)
    /\ (forall projects',
          projects_in_memory (fst (handleImportProjects st0 (handleExportProjects st)))
          = value_of_projects projects' ->
          projects' = projects)
    /\ renderProjects_rows
         (projects_in_memory (fst (handleImportProjects st0 (handleExportProjects st))))
       = Returned (List.map value_of_project projects)
    /\ handleExportProjects (fst (handleImportProjects st0 (handleExportProjects st)))
       = handleExportProjects st.
Proof.
  intros st st0 projects Hvalid Hmem.
  assert (H : handleImportProjects st0 (handleExportProjects st)
              = (setProjects st0 (value_of_projects projects), Returned tt)).
  { unfold handleImportProjects, handleExportProjects. rewrite Hmem.
    now rewrite JSON_parse_stringify by now apply representable_projects. }
  rewrite H. split; [reflexivity|]. split; [reflexivity|].
  split; [reflexivity|]. split.
  - intros projects' Heq. symmetry. now apply value_of_projects_injective.
  - split; [reflexivity|]. unfold handleExportProjects. now rewrite Hmem.
Qed.

Lemma import_export_round_trip_witness :
  let other := setProjects (mkAppState (VArray []) None)
                 (value_of_projects [sample_project 9 []]) in
  (schema_valid sample_forest = true
   /\ projects_in_memory sample_state = value_of_projects sample_forest)
  /\ projects_in_memory other <> value_of_projects sample_forest
  /\ handleImportProjects other (handleExportProjects sample_state)
     = (setProjects other (value_of_projects sample_forest), Returned tt)
  /\ projects_in_memory
       (fst (handleImportProjects other (handleExportProjects sample_state)))
     = value_of_projects sample_forest.
Proof.
  intros other.
  assert (H1 : schema_valid sample_forest = true) by reflexivity.
  assert (H2 : projects_in_memory sample_state = value_of_projects sample_forest)
    by reflexivity.
  split; [split; assumption|]. split; [discriminate|].
  destruct (import_export_round_trip sample_state other sample_forest H1 H2)
    as [E1 [E2 _]].
  split; assumption.
Defined.

(** ** Renaming and editing metadata *)

(** *** Equality of numbers *)

Lemma num_eqb_true a b :
  num_eqb a b = true ->
  a = b \/ exists s t, a = S754_zero s /\ b = S754_zero t.
Proof.
  unfold num_eqb, SFeqb.
  destruct a as [[]|[]| |[] m e], b as [[]|[]| |[] m' e']; simpl;
    try discriminate;
    try (intros _; right; eexists; eexists; split; reflexivity);
    try (intros _; left; reflexivity);
    change (PosDef.Pos.compare_cont Eq m m') with (Pos.compare m m');
    destruct (Z.compare_spec e e') as [He|He|He]; try discriminate;
    destruct (Pos.compare_spec m m') as [Hm|Hm|Hm]; try discriminate;
    intros _; left; now subst.
Qed.

(** Numbers that are equal compare alike with any third one. *)
Lemma num_eqb_congr a b c :
  num_eqb a b = true -> num_eqb a c = num_eqb b c.
Proof.
  intros H. destruct (num_eqb_true a b H) as [->|[s [t [-> ->]]]]; [reflexivity|].
  now destruct c.
Qed.

Lemma num_eqb_sym a b : num_eqb a b = num_eqb b a.
Proof.
  destruct (num_eqb a b) eqn:H.
  - destruct (num_eqb_true a b H) as [->|[s [t [-> ->]]]]; [now rewrite H|reflexivity].
  - destruct (num_eqb b a) eqn:H'; [|reflexivity].
    destruct (num_eqb_true b a H') as [->|[s [t [-> ->]]]]; [congruence|discriminate].
Qed.

(** *** The shared shape of the updates *)

Lemma update_node_eq i f p :
  update_node i f p
  = if num_eqb (id p) i
    then f p
    else match children p with
         | [] => p
         | _ :: _ => with_children p (List.map (update_node i f) (children p))
         end.
Proof. destruct p. reflexivity. Qed.

Lemma everywhere_eq f p :
  everywhere f p = f (with_children p (List.map (everywhere f) (children p))).
Proof. destruct p. reflexivity. Qed.

Lemma updateProject_update_node i c m p :
  updateProject i c m p
  = update_node i (fun q => with_content_metadata q c m) p.
Proof.
  induction p as [j n t cs c' m' IH] using Project_ind.
  rewrite updateProject_eq, update_node_eq. simpl id. simpl children. simpl metadata.
  rewrite spread_metadata_patch.
  destruct (num_eqb j i); [reflexivity|].
  destruct cs as [|x l]; [reflexivity|]. f_equal.
  apply map_ext_in. intros y Hy. rewrite Forall_forall in IH. now apply IH.
Qed.

Lemma updateName_eq i n p :
  updateName i n p
  = if num_eqb (id p) i
    then with_name p n
    else match children p with
         | [] => p
         | _ :: _ => with_children p (List.map (updateName i n) (children p))
         end.
Proof. destruct p. reflexivity. Qed.

Lemma updateMetadata_eq i m p :
  updateMetadata i m p
  = if num_eqb (id p) i
    then with_metadata p (spread_metadata (metadata p) m)
    else match children p with
         | [] => p
         | _ :: _ => with_children p (List.map (updateMetadata i m) (children p))
         end.
Proof. destruct p. reflexivity. Qed.

Lemma updateName_update_node i n p :
  updateName i n p = update_node i (fun q => with_name q n) p.
Proof.
  induction p as [j n' t cs c' m' IH] using Project_ind.
  rewrite updateName_eq, update_node_eq. simpl id. simpl children.
  destruct (num_eqb j i); [reflexivity|].
  destruct cs as [|x l]; [reflexivity|]. f_equal.
  apply map_ext_in. intros y Hy. rewrite Forall_forall in IH. now apply IH.
Qed.

Lemma updateMetadata_update_node i m p :
  updateMetadata i m p = update_node i (fun q => with_metadata q m) p.
Proof.
  induction p as [j n' t cs c' m' IH] using Project_ind.
  rewrite updateMetadata_eq, update_node_eq. simpl id. simpl children.
  simpl metadata. rewrite spread_metadata_patch.
  destruct (num_eqb j i); [reflexivity|].
  destruct cs as [|x l]; [reflexivity|]. f_equal.
  apply map_ext_in. intros y Hy. rewrite Forall_forall in IH. now apply IH.
Qed.

Lemma local_change_name n : local_change (fun q => with_name q n).
Proof. split; reflexivity. Qed.

Lemma local_change_metadata m : local_change (fun q => with_metadata q m).
Proof. split; reflexivity. Qed.

Lemma local_change_content c m : local_change (fun q => with_content_metadata q c m).
Proof. split; reflexivity. Qed.

Lemma local_change_children f p :
  local_change f -> children (f p) = children p.
Proof.
  intros [_ Hch]. rewrite <- (with_children_same p) at 1.
  rewrite Hch. reflexivity.
Qed.

Section UpdateNode.

Variable i : number.
Variable f : Project -> Project.
Hypothesis Hf : local_change f.

Lemma update_node_absent p :
  find_node i p = None -> update_node i f p = p.
Proof.
  induction p as [j n t cs c' m' IH] using Project_ind.
  rewrite find_node_eq, update_node_eq. simpl id. simpl children.
  destruct (num_eqb j i); [discriminate|]. intros Hfind.
  assert (Hmap : List.map (update_node i f) cs = cs).
  { induction IH as [|x l Hx _ IHl]; [reflexivity|].
    simpl in Hfind |- *. destruct (find_node i x) eqn:Hr; [discriminate|].
    rewrite Hx by reflexivity. now rewrite IHl. }
  destruct cs as [|x l]; [reflexivity|]. now rewrite Hmap.
Qed.

Lemma update_nodes_absent ps :
  find_project i ps = None -> List.map (update_node i f) ps = ps.
Proof.
  induction ps as [|x l IH]; simpl; [reflexivity|].
  destruct (find_node i x) eqn:Hr; [discriminate|]. intros H.
  now rewrite (update_node_absent x Hr), IH.
Qed.

Lemma find_update_node p : forall q,
  find_node i p = Some q -> find_node i (update_node i f p) = Some (f q).
Proof.
  induction p as [j n t cs c' m' IH] using Project_ind. intros q.
  rewrite find_node_eq, update_node_eq. simpl id. simpl children.
  destruct (num_eqb j i) eqn:Hj.
  - intros [= <-]. rewrite find_node_eq. destruct Hf as [Hid _].
    rewrite Hid. simpl. now rewrite Hj.
  - intros Hfind.
    assert (Hin : find_project i (List.map (update_node i f) cs) = Some (f q)).
    { induction IH as [|x l Hx _ IHl]; [discriminate|].
      simpl in Hfind |- *. destruct (find_node i x) as [r|] eqn:Hr.
      - injection Hfind as <-. now rewrite (Hx r eq_refl).
      - rewrite (update_node_absent x Hr), Hr. now apply IHl. }
    destruct cs as [|x l]; [discriminate|].
    rewrite find_node_eq. simpl id. rewrite Hj. exact Hin.
Qed.

Lemma find_update_nodes ps : forall q,
  find_project i ps = Some q ->
  find_project i (List.map (update_node i f) ps) = Some (f q).
Proof.
  induction ps as [|x l IH]; simpl; intros q Hfind; [discriminate|].
  destruct (find_node i x) as [r|] eqn:Hr.
  - injection Hfind as <-. now rewrite (find_update_node x r Hr).
  - rewrite (update_node_absent x Hr), Hr. now apply IH.
Qed.

(** The ids are where they were. *)
Lemma occurrences_update_node j p :
  occurrences_node j (update_node i f p) = occurrences_node j p.
Proof.
  induction p as [k n t cs c' m' IH] using Project_ind.
  rewrite update_node_eq. simpl id. simpl children.
  destruct (num_eqb k i).
  - rewrite !occurrences_node_eq. destruct Hf as [Hid _]. rewrite Hid.
    rewrite (local_change_children f _ Hf). reflexivity.
  - assert (Hmap : occurrences j (List.map (update_node i f) cs) = occurrences j cs).
    { unfold occurrences. rewrite map_map. f_equal.
      apply map_ext_in. intros y Hy. rewrite Forall_forall in IH. now apply IH. }
    destruct cs as [|x l]; [reflexivity|].
    rewrite !occurrences_node_eq. unfold with_children. cbn [id children].
    now rewrite Hmap.
Qed.

Lemma occurrences_update_nodes j ps :
  occurrences j (List.map (update_node i f) ps) = occurrences j ps.
Proof.
  unfold occurrences. rewrite map_map. f_equal.
  apply map_ext. intros p. apply occurrences_update_node.
Qed.

(** A change that is invisible through [g] stays invisible when it is
    made somewhere in a tree. *)
Lemma everywhere_update_node g p :
  (forall q, g (f q) = g q) ->
  everywhere g (update_node i f p) = everywhere g p.
Proof.
  intros Hg.
  induction p as [k n t cs c' m' IH] using Project_ind.
  rewrite update_node_eq. simpl id. simpl children.
  destruct (num_eqb k i).
  - rewrite (everywhere_eq g (f _)).
    rewrite (local_change_children f _ Hf).
    destruct Hf as [_ Hch]. rewrite <- Hch, Hg. now rewrite <- everywhere_eq.
  - assert (Hmap : List.map (everywhere g) (List.map (update_node i f) cs)
                   = List.map (everywhere g) cs).
    { rewrite map_map.
      apply map_ext_in. intros y Hy. rewrite Forall_forall in IH. now apply IH. }
    destruct cs as [|x l]; [reflexivity|].
    rewrite !everywhere_eq. unfold with_children. cbn [id children].
    now rewrite Hmap.
Qed.

Lemma occurrences_zero_everywhere p :
  occurrences_node i p = 0 -> everywhere (at_id i f) p = p.
Proof.
  induction p as [k n t cs c' m' IH] using Project_ind.
  rewrite occurrences_node_eq, everywhere_eq. simpl id. simpl children.
  intros H0.
  assert (Hk : num_eqb k i = false) by (destruct (num_eqb k i); [lia|reflexivity]).
  rewrite Hk in H0. simpl in H0.
  assert (Hmap : List.map (everywhere (at_id i f)) cs = cs).
  { apply map_keep_all. intros y Hy. rewrite Forall_forall in IH. apply IH; [assumption|].
    apply (list_sum_zero _ H0). now apply in_map. }
  rewrite Hmap. unfold at_id. simpl. now rewrite Hk.
Qed.

(** With at most one node of the id, the update is the change of that
    node and nothing else. *)
Lemma update_node_unique p :
  occurrences_node i p <= 1 ->
  update_node i f p = everywhere (at_id i f) p.
Proof.
  induction p as [k n t cs c' m' IH] using Project_ind.
  rewrite occurrences_node_eq, update_node_eq, everywhere_eq.
  simpl id. simpl children. intros H1.
  destruct (num_eqb k i) eqn:Hk.
  - assert (H0 : occurrences i cs = 0) by lia.
    assert (Hmap : List.map (everywhere (at_id i f)) cs = cs).
    { apply map_keep_all. intros y Hy. apply occurrences_zero_everywhere.
      apply (list_sum_zero _ H0). now apply in_map. }
    rewrite Hmap. unfold at_id, with_children. simpl. now rewrite Hk.
  - simpl in H1.
    assert (Hmap : List.map (update_node i f) cs
                   = List.map (everywhere (at_id i f)) cs).
    { apply map_ext_in. intros y Hy. rewrite Forall_forall in IH.
      apply IH; [assumption|].
      pose proof (occurrences_node_le i y cs Hy). lia. }
    unfold at_id at 1. simpl id. rewrite Hk.
    destruct cs as [|x l]; [reflexivity|]. now rewrite Hmap.
Qed.

Lemma update_nodes_unique ps :
  occurrences i ps <= 1 ->
  List.map (update_node i f) ps = List.map (everywhere (at_id i f)) ps.
Proof.
  intros H1. apply map_ext_in. intros y Hy. apply update_node_unique.
  pose proof (occurrences_node_le i y ps Hy). lia.
Qed.

End UpdateNode.

Lemma with_children_twice p a b :
  with_children (with_children p a) b = with_children p b.
Proof. reflexivity. Qed.

(** Two updates can be made in either order, when the changes they make
    to one node can. *)
Lemma update_node_commute i f j g p :
  local_change f -> local_change g ->
  (forall q, num_eqb (id q) i = true -> num_eqb (id q) j = true ->
             f (g q) = g (f q)) ->
  update_node i f (update_node j g p) = update_node j g (update_node i f p).
Proof.
  intros Hf Hg Hfg.
  induction p as [k n t cs c' m' IH] using Project_ind.
  assert (Hmap : List.map (update_node i f) (List.map (update_node j g) cs)
                 = List.map (update_node j g) (List.map (update_node i f) cs)).
  { rewrite !map_map. apply map_ext_in. intros y Hy.
    rewrite Forall_forall in IH. now apply IH. }
  set (p := mkProject k n t cs c' m').
  rewrite (update_node_eq j g p), (update_node_eq i f p).
  destruct (num_eqb (id p) i) eqn:Hi, (num_eqb (id p) j) eqn:Hj.
  - rewrite !update_node_eq.
    destruct Hf as [Hidf _], Hg as [Hidg _]. rewrite Hidf, Hidg, Hi, Hj.
    now apply Hfg.
  - rewrite (update_node_eq j g (f p)).
    rewrite (local_change_children f p Hf).
    destruct Hf as [Hidf Hchf]. rewrite Hidf, Hj.
    destruct (children p) as [|x l] eqn:Hcs.
    + rewrite update_node_eq, Hi. reflexivity.
    + rewrite update_node_eq. cbn [id with_children]. fold (id p). rewrite Hi.
      now rewrite Hchf.
  - rewrite (update_node_eq i f (g p)).
    rewrite (local_change_children g p Hg).
    destruct Hg as [Hidg Hchg]. rewrite Hidg, Hi.
    destruct (children p) as [|x l] eqn:Hcs.
    + rewrite update_node_eq, Hj. reflexivity.
    + rewrite (update_node_eq j g (with_children p _)).
      cbn [id with_children]. fold (id p). rewrite Hj.
      now rewrite Hchg.
  - subst p. cbn [children id] in *.
    destruct cs as [|x l].
    + rewrite !update_node_eq. cbn [children id]. now rewrite Hi, Hj.
    + rewrite (update_node_eq i f (with_children _ _)).
      rewrite (update_node_eq j g (with_children _ _)).
      cbn [id children with_children]. rewrite Hi, Hj.
      cbn [List.map] in Hmap |- *. now rewrite Hmap.
Qed.

(** Of two updates of the same id the second acts on what the first
    left. *)
Lemma update_node_twice i f g p :
  local_change g ->
  update_node i f (update_node i g p) = update_node i (fun q => f (g q)) p.
Proof.
  intros Hg.
  induction p as [k n t cs c' m' IH] using Project_ind.
  assert (Hmap : List.map (update_node i f) (List.map (update_node i g) cs)
                 = List.map (update_node i (fun q => f (g q))) cs).
  { rewrite !map_map. apply map_ext_in. intros y Hy.
    rewrite Forall_forall in IH. now apply IH. }
  set (p := mkProject k n t cs c' m').
  rewrite (update_node_eq i g p), (update_node_eq i (fun q => f (g q)) p).
  destruct (num_eqb (id p) i) eqn:Hi.
  - rewrite update_node_eq. destruct Hg as [Hidg _]. now rewrite Hidg, Hi.
  - subst p. cbn [children id] in *.
    destruct cs as [|x l].
    + rewrite update_node_eq. cbn [children id]. now rewrite Hi.
    + rewrite update_node_eq. cbn [id children with_children]. rewrite Hi.
      cbn [List.map] in Hmap |- *. now rewrite Hmap.
Qed.

Lemma updateProjectName_map ps i n :
  updateProjectName ps i n = List.map (update_node i (fun q => with_name q n)) ps.
Proof. apply map_ext. intros p. apply updateName_update_node. Qed.

Lemma updateProjectMetadata_map ps i m :
  updateProjectMetadata ps i m
  = List.map (update_node i (fun q => with_metadata q m)) ps.
Proof. apply map_ext. intros p. apply updateMetadata_update_node. Qed.

Lemma updateProjectContent_map ps i c m :
  updateProjectContent ps i c m
  = List.map (update_node i (fun q => with_content_metadata q c m)) ps.
Proof. apply map_ext. intros p. apply updateProject_update_node. Qed.

(** X1.  Renaming.  [updateProjectName] gives the new name to the first node
    with the id in document order, which is found again under its id; an
    id that is not in the forest leaves the forest as it is; when the id
    occurs at most once, the result is the forest with that one node
    renamed; in every case nothing but names changes, and every id occurs
    as often as before. *)
Theorem updateProjectName_renames :
  forall projects i newName,
    (forall q, find_project i projects = Some q ->
       find_project i (updateProjectName projects i newName)
       = Some (with_name q newName))
    /\ (find_project i projects = None ->
        updateProjectName projects i newName = projects)
    /\ (occurrences i projects <= 1 ->
        updateProjectName projects i newName
        = List.map (everywhere (at_id i (fun q => with_name q newName))) projects)
    /\ List.map (everywhere (fun q => with_name q []))
         (updateProjectName projects i newName)
       = List.map (everywhere (fun q => with_name q [])) projects
    /\ (forall j, occurrences j (updateProjectName projects i newName)
                  = occurrences j projects).
Proof.
  intros projects i newName. rewrite updateProjectName_map.
  pose proof (local_change_name newName) as Hf.
  split; [intros q Hq; exact (find_update_nodes i _ Hf projects q Hq)|].
  split; [exact (update_nodes_absent i _ projects)|].
  split; [exact (update_nodes_unique i _ projects)|].
  split.
  - rewrite map_map. apply map_ext. intros p.
    exact (everywhere_update_node i _ Hf (fun q => with_name q []) p (fun q => eq_refl)).
  - intros j. exact (occurrences_update_nodes i _ Hf j projects).
Qed.

Lemma updateProjectName_renames_witness :
  let ch := sample_chapter 2 (Number_of_Z 2000) in
  find_project (id ch) sample_forest = Some ch
  /\ find_project (id ch) (updateProjectName sample_forest (id ch) (js "Opening"))
     = Some (with_name ch (js "Opening")).
Proof.
  intros ch.
  assert (H : find_project (id ch) sample_forest = Some ch) by reflexivity.
  split; [exact H|].
  exact (proj1 (updateProjectName_renames sample_forest (id ch) (js "Opening")) ch H).
Defined.

(** X2.  Editing metadata.  [handleUpdateMetadata] works for a selection of
    either type: the selection gets the new metadata, and so does the
    first node with its id in the forest, which is found again under the
    id; the metadata editor is closed by every edit; a selection whose id
    is not in the forest leaves the forest as it is; when the id occurs at
    most once, the result is the forest with the metadata of that one node
    replaced; in every case nothing but metadata changes, and every id
    occurs as often as before. *)
Theorem handleUpdateMetadata_replaces :
  forall projects sel newMetadata,
    exists projects',
      handleUpdateMetadata projects (Some sel) newMetadata
      = Some (projects', with_metadata sel newMetadata, false)
      /\ (forall q, find_project (id sel) projects = Some q ->
            find_project (id sel) projects' = Some (with_metadata q newMetadata))
      /\ (find_project (id sel) projects = None -> projects' = projects)
      /\ (occurrences (id sel) projects <= 1 ->
          projects'
          = List.map (everywhere (at_id (id sel)
                                    (fun q => with_metadata q newMetadata)))
              projects)
      /\ (forall m0,
            List.map (everywhere (fun q => with_metadata q m0)) projects'
            = List.map (everywhere (fun q => with_metadata q m0)) projects)
      /\ (forall j, occurrences j projects' = occurrences j projects).
Proof.
  intros projects sel newMetadata.
  exists (updateProjectMetadata projects (id sel) newMetadata).
  split; [reflexivity|]. rewrite updateProjectMetadata_map.
  pose proof (local_change_metadata newMetadata) as Hf.
  split; [intros q Hq; exact (find_update_nodes (id sel) _ Hf projects q Hq)|].
  split; [exact (update_nodes_absent (id sel) _ projects)|].
  split; [exact (update_nodes_unique (id sel) _ projects)|].
  split.
  - intros m0. rewrite map_map. apply map_ext. intros p.
    exact (everywhere_update_node (id sel) _ Hf (fun q => with_metadata q m0) p (fun q => eq_refl)).
  - intros j. exact (occurrences_update_nodes (id sel) _ Hf j projects).
Qed.

Lemma handleUpdateMetadata_replaces_witness :
  let p := sample_project 1 [sample_chapter 2 (Number_of_Z 2000)] in
  let m := sample_metadata (Number_of_Z 90000) in
  find_project (id p) [p] = Some p
  /\ exists projects',
       handleUpdateMetadata [p] (Some p) m
       = Some (projects', with_metadata p m, false)
       /\ find_project (id p) projects' = Some (with_metadata p m).
Proof.
  intros p m.
  assert (H : find_project (id p) [p] = Some p) by reflexivity.
  split; [exact H|].
  destruct (handleUpdateMetadata_replaces [p] p m) as [projects' [E [F _]]].
  exists projects'. split; [exact E|]. exact (F p H).
Defined.

(** X3.  The updates in sequence.  A rename and an edit of metadata, or a
    rename and a save of content, give the same forest in either order,
    whatever the two ids; an edit of metadata and a save of content do
    when their ids differ.  Of two renames of the same id the second
    wins; metadata edited after a save of the same id replace the saved
    metadata and keep the saved content. *)
Theorem updates_commute :
  forall projects i j n1 n2 c m m',
    updateProjectName (updateProjectMetadata projects j m) i n1
    = updateProjectMetadata (updateProjectName projects i n1) j m
    /\ updateProjectName (updateProjectContent projects j c m) i n1
       = updateProjectContent (updateProjectName projects i n1) j c m
    /\ (num_eqb i j = false ->
        updateProjectMetadata (updateProjectContent projects j c m) i m'
        = updateProjectContent (updateProjectMetadata projects i m') j c m)
    /\ updateProjectName (updateProjectName projects i n1) i n2
       = updateProjectName projects i n2
    /\ updateProjectMetadata (updateProjectContent projects i c m) i m'
       = updateProjectContent projects i c m'.
Proof.
  intros projects i j n1 n2 c m m'.
  rewrite !updateProjectName_map, !updateProjectMetadata_map,
    !updateProjectContent_map.
  pose proof (local_change_name n1) as Hn1.
  pose proof (local_change_metadata m) as Hm.
  pose proof (local_change_metadata m') as Hm'.
  pose proof (local_change_content c m) as Hc.
  split.
  { rewrite !map_map. apply map_ext. intros p.
    now apply update_node_commute. }
  split.
  { rewrite !map_map. apply map_ext. intros p.
    now apply update_node_commute. }
  split.
  { intros Hij. rewrite !map_map. apply map_ext. intros p.
    apply update_node_commute; [assumption|assumption|].
    intros q Hi Hj. rewrite (num_eqb_congr _ _ j Hi) in Hj. congruence. }
  split.
  { rewrite !map_map. apply map_ext. intros p.
    now rewrite update_node_twice. }
  rewrite !map_map. apply map_ext. intros p.
  now rewrite update_node_twice.
Qed.

Lemma updates_commute_witness :
  let i := Number_of_Z 2 in
  let j := Number_of_Z 3 in
  let m := sample_metadata (Number_of_Z 10) in
  let m' := sample_metadata (Number_of_Z 20) in
  num_eqb i j = false
  /\ updateProjectMetadata (updateProjectContent sample_forest j (js "text") m) i m'
     = updateProjectContent (updateProjectMetadata sample_forest i m') j (js "text") m.
Proof.
  intros i j m m'.
  assert (H : num_eqb i j = false) by reflexivity.
  split; [exact H|].
  exact (proj1 (proj2 (proj2 (updates_commute sample_forest i j [] []
                                 (js "text") m m'))) H).
Defined.

(** ** Deleting and saving, edge cases *)

Module RoundingFacts.
Local Open Scope Z_scope.

(** *** Rounding never gives NaN *)

Lemma shr_fexp_nonneg m e l :
  0 <= m -> 0 <= shr_m (fst (shr_fexp prec emax m e l)).
Proof.
  intros Hm. unfold shr_fexp, shr.
  destruct (fexp prec emax (Zdigits2 m + e) - e) as [|p|p]; simpl fst.
  - now rewrite shr_m_of_loc.
  - rewrite iter_shr_1 by now rewrite shr_m_of_loc.
    rewrite shr_m_of_loc. apply Z.div_pos; [assumption|]. apply Z.pow_pos_nonneg; lia.
  - now rewrite shr_m_of_loc.
Qed.

Lemma binary_round_aux_not_nan sx mx ex lx :
  0 <= mx -> binary_round_aux prec emax sx mx ex lx <> S754_nan.
Proof.
  intros Hm. unfold binary_round_aux.
  pose proof (shr_fexp_nonneg mx ex lx Hm) as H1.
  destruct (shr_fexp prec emax mx ex lx) as [r1 e1]. simpl fst in H1.
  pose proof (round_nearest_even_bounds (shr_m r1) (loc_of_shr_record r1)) as B.
  pose proof (shr_fexp_nonneg (round_nearest_even (shr_m r1) (loc_of_shr_record r1))
                e1 loc_Exact ltac:(lia)) as H2.
  destruct (shr_fexp prec emax _ e1 loc_Exact) as [r2 e2]. simpl fst in H2.
  destruct (shr_m r2) as [|m|m]; try lia; [discriminate|].
  destruct (e2 <=? emax - prec); discriminate.
Qed.

(** The quotient of a positive number by a finite one is not NaN and
    carries the sign of the divisor. *)
Lemma num_div_finite n s m e :
  (1 <= n)%nat ->
  has_sign s (num_div (Number_of_nat n) (S754_finite s m e))
  /\ num_div (Number_of_nat n) (S754_finite s m e) <> S754_nan.
Proof.
  intros Hn.
  destruct (Number_of_nat_positive n Hn) as [[m1 [e1 [E _]]]|E]; rewrite E.
  - unfold num_div, SFdiv.
    assert (Hq : 0 <= fst (fst (SFdiv_core_binary prec emax (Zpos m1) e1 (Zpos m) e))).
    { unfold SFdiv_core_binary.
      set (e' := Z.min _ _). set (sh := _ - e').
      set (m' := match sh with Zpos _ => Z.shiftl (Zpos m1) sh | Z0 => Zpos m1
                         | Zneg _ => Z0 end).
      assert (Hm' : 0 <= m').
      { unfold m'. destruct sh; try lia. apply Z.shiftl_nonneg. lia. }
      rewrite Z_div_eucl_div_mod. simpl fst. apply Z.div_pos; lia. }
    destruct (SFdiv_core_binary prec emax (Zpos m1) e1 (Zpos m) e) as [[mz ez] lz].
    simpl fst in Hq. cbn [xorb].
    split; [apply binary_round_aux_sign|now apply binary_round_aux_not_nan].
  - split; [reflexivity|discriminate].
Qed.

(** A product with the positive number 100 keeps the sign and is no
    NaN. *)
Lemma num_mul_100_finite s x :
  has_sign s x -> x <> S754_nan ->
  has_sign s (num_mul x (Number_of_Z 100))
  /\ num_mul x (Number_of_Z 100) <> S754_nan.
Proof.
  rewrite Number_of_Z_100.
  destruct x as [t|t| |t m e]; simpl has_sign; intros Hs Hx; subst;
    try congruence.
  - split; [destruct s; reflexivity|discriminate].
  - split; [destruct s; reflexivity|discriminate].
  - unfold num_mul, SFmul. rewrite xorb_false_r.
    split; [apply binary_round_aux_sign|apply binary_round_aux_not_nan; lia].
Qed.

(** [Math.min] has no lower bound: a value with the sign bit is returned
    as it is. *)
Lemma Math_min_negative x mh eh :
  has_sign true x -> Math_min x (S754_finite false mh eh) = x.
Proof.
  destruct x as [s|s| |s m e]; simpl has_sign; intros Hs; subst; reflexivity.
Qed.

Lemma num_leb_negative_zero x :
  has_sign true x -> x <> S754_nan -> num_leb x (S754_zero false) = true.
Proof.
  destruct x as [s|s| |s m e]; simpl has_sign; intros Hs Hx; subst;
    try congruence; reflexivity.
Qed.

(** [Math.min] of a number that is not negative and of 100 lies between
    0 and 100. *)
Lemma Math_min_100_range x :
  has_sign false x -> x <> S754_nan ->
  Math_min x (Number_of_Z 100) <> S754_nan
  /\ num_leb (S754_zero false) (Math_min x (Number_of_Z 100)) = true
  /\ num_leb (Math_min x (Number_of_Z 100)) (Number_of_Z 100) = true.
Proof.
  rewrite Number_of_Z_100. intros Hs Hx.
  destruct x as [s|s| |s m e]; cbn [has_sign] in Hs; subst; try congruence.
  - split; [discriminate|split; reflexivity].
  - split; [discriminate|split; reflexivity].
  - unfold Math_min.
    destruct (SFcompare (S754_finite false m e) (S754_finite false one_hundred (-46)))
      as [[| |]|] eqn:C.
    + split; [discriminate|split; reflexivity].
    + split; [discriminate|]. split; [reflexivity|].
      unfold num_leb, SFleb. now rewrite C.
    + split; [discriminate|split; reflexivity].
    + cbv beta iota delta [SFcompare] in C. discriminate C.
Qed.

End RoundingFacts.
Import RoundingFacts.

Lemma updateProjectContent_absent i c m projects :
  find_project i projects = None -> updateProjectContent projects i c m = projects.
Proof.
  unfold updateProjectContent.
  induction projects as [|x l IH]; simpl; [reflexivity|].
  destruct (find_node i x) eqn:Hr; [discriminate|]. intros H.
  now rewrite (updateProject_absent i c m x Hr), IH.
Qed.

Lemma occurrences_zero_find_node i p :
  occurrences_node i p = 0 -> find_node i p = None.
Proof.
  induction p as [k n t cs c m IH] using Project_ind.
  rewrite occurrences_node_eq, find_node_eq. simpl id. simpl children.
  destruct (num_eqb k i); [intros H; lia|]. simpl. intros H0.
  unfold occurrences in H0.
  induction IH as [|x l Hx _ IHl]; [reflexivity|].
  simpl in H0 |- *. rewrite Hx by lia. apply IHl. lia.
Qed.

Lemma occurrences_zero_find i projects :
  occurrences i projects = 0 -> find_project i projects = None.
Proof.
  unfold occurrences.
  induction projects as [|p l IH]; simpl; [reflexivity|]. intros H0.
  rewrite occurrences_zero_find_node by lia. apply IH. lia.
Qed.

(** X4.  The Delete button of a chapter row (line 382) calls
    [handleDeleteChapter(project.id, project.id)], with the id of the
    chapter in the place of the id of its project: when the id of the row
    occurs at most once in the forest, the forest stays as it is, and the
    chapter is not deleted. *)
Theorem deleteButton_keeps_chapter :
  forall projects row,
    type row = chapter ->
    occurrences (id row) projects <= 1 ->
    deleteButton projects row = projects.
Proof.
  intros projects row Ht H1. unfold deleteButton. rewrite Ht.
  unfold handleDeleteChapter. apply map_keep_all. intros p Hp.
  destruct (num_eqb (id p) (id row)) eqn:Hi; [|reflexivity].
  pose proof (occurrences_node_le (id row) p projects Hp) as Hle.
  rewrite occurrences_node_eq, Hi in Hle.
  assert (H0 : occurrences (id row) (children p) = 0) by lia.
  rewrite filter_keep_all; [apply with_children_same|].
  intros c Hc.
  pose proof (occurrences_node_le (id row) c (children p) Hc) as Hc1.
  rewrite occurrences_node_eq in Hc1.
  destruct (num_eqb (id c) (id row)); [lia|reflexivity].
Qed.

Lemma deleteButton_keeps_chapter_witness :
  let ch := sample_chapter 2 (Number_of_Z 2000) in
  (type ch = chapter /\ occurrences (id ch) sample_forest <= 1)
  /\ find_project (id ch) sample_forest = Some ch
  /\ deleteButton sample_forest ch = sample_forest.
Proof.
  intros ch.
  assert (Ht : type ch = chapter) by reflexivity.
  assert (H1 : occurrences (id ch) sample_forest <= 1) by (vm_compute; lia).
  split; [split; assumption|]. split; [reflexivity|].
  exact (deleteButton_keeps_chapter sample_forest ch Ht H1).
Defined.

(** X5.  Saving a chapter that is no longer in the forest (the selection
    outlives the deletion of its project): the forest is returned as it
    is, the content goes to the selection only, and the save ends like any
    other. *)
Theorem handleSaveContent_selection_not_in_forest :
  forall projects sel editor now,
    type sel = chapter ->
    find_project (id sel) projects = None ->
    exists sel',
      handleSaveContent projects (Some sel) editor now = Some (projects, sel')
      /\ content sel' = Some (rawContent editor)
      /\ find_project (id sel) projects = None.
Proof.
  intros projects sel editor now Ht Hf.
  rewrite (handleSaveContent_chapter projects sel editor now Ht).
  rewrite (updateProjectContent_absent _ _ _ _ Hf).
  eexists. split; [reflexivity|]. split; [reflexivity|exact Hf].
Qed.

Lemma handleSaveContent_selection_not_in_forest_witness :
  let ch := sample_chapter 2 (Number_of_Z 2000) in
  let forest := handleDeleteProject sample_forest (Number_of_Z 1) in
  (find_project (id ch) sample_forest = Some ch
   /\ type ch = chapter
   /\ find_project (id ch) forest = None)
  /\ exists sel',
       handleSaveContent forest (Some ch) (sample_editor (js "lost words"))
         (js "2024-01-01T00:00:00.000Z") = Some (forest, sel')
       /\ content sel' = Some (rawContent (sample_editor (js "lost words"))).
Proof.
  intros ch forest.
  assert (Ht : type ch = chapter) by reflexivity.
  assert (Hf : find_project (id ch) forest = None) by reflexivity.
  split; [split; [reflexivity|split; assumption]|].
  destruct (handleSaveContent_selection_not_in_forest forest ch
              (sample_editor (js "lost words")) (js "2024-01-01T00:00:00.000Z")
              Ht Hf) as [sel' [E [C _]]].
  exists sel'. split; assumption.
Defined.

(** X6.  The goal is used as it is (line 261).  A goal that is NaN (what
    [parseInt] makes of an emptied field) gives a completion percentage
    that is NaN; a negative goal gives the product [w / goal * 100] itself,
    which is not NaN, carries the sign and is at most 0: [Math.min] bounds
    the percentage from above only. *)
Theorem handleSaveContent_goal_unchecked :
  forall projects sel editor now projects' sel',
    handleSaveContent projects (Some sel) editor now = Some (projects', sel') ->
    (wordCountGoal (metadata sel) = NaN ->
     completionPercentage (metadata sel') = NaN)
    /\ (forall m e,
          wordCountGoal (metadata sel) = S754_finite true m e ->
          completionPercentage (metadata sel')
          = num_mul (num_div (Number_of_nat (countWords (getPlainText editor)))
                             (wordCountGoal (metadata sel)))
                    (Number_of_Z 100)
          /\ completionPercentage (metadata sel') <> NaN
          /\ has_sign true (completionPercentage (metadata sel'))
          /\ num_leb (completionPercentage (metadata sel')) (Number_of_Z 0) = true).
Proof.
  intros projects sel editor now projects' sel' H.
  destruct (handleSaveContent_inv _ _ _ _ _ _ H) as [_ [_ ->]].
  cbn [with_content_metadata metadata updatedMetadata completionPercentage].
  split.
  - intros ->. unfold NaN.
    destruct (Number_of_nat (countWords (getPlainText editor))); reflexivity.
  - intros m e ->.
    pose proof (countWords_pos (getPlainText editor)) as Hw.
    destruct (num_div_finite _ true m e Hw) as [Hs Hn].
    destruct (num_mul_100_finite true _ Hs Hn) as [Hs' Hn'].
    rewrite Number_of_Z_100 in *.
    rewrite (Math_min_negative _ _ _ Hs').
    split; [reflexivity|]. split; [exact Hn'|]. split; [exact Hs'|].
    now apply num_leb_negative_zero.
Qed.

Lemma handleSaveContent_goal_unchecked_witness :
  let ch := sample_chapter 2 (Number_of_Z (-100)) in
  let editor := sample_editor (js "hello world") in
  let now := js "2024-01-01T00:00:00.000Z" in
  let md :=
    updatedMetadata (metadata ch)
      (Number_of_nat (countWords (getPlainText editor))) now in
  let sel' := with_content_metadata ch (rawContent editor) md in
  wordCountGoal (metadata ch) = S754_finite true one_hundred (-46)
  /\ completionPercentage (metadata sel') = Number_of_Z (-2)
  /\ completionPercentage (metadata sel') <> NaN
  /\ num_leb (completionPercentage (metadata sel')) (Number_of_Z 0) = true.
Proof.
  intros ch editor now md sel'.
  assert (Hg : wordCountGoal (metadata ch) = S754_finite true one_hundred (-46))
    by reflexivity.
  split; [exact Hg|]. split; [vm_compute; reflexivity|].
  destruct (proj2 (handleSaveContent_goal_unchecked [sample_project 1 [ch]] ch
                     editor now _ sel'
                     (handleSaveContent_chapter _ ch editor now eq_refl))
                  _ _ Hg)
    as [_ [Hn [_ Hl]]].
  split; assumption.
Defined.

(** X7.  The last save wins.  A save that follows another save of the same
    selection gives what it would have given in its place: the earlier
    content and the metadata derived from it leave no trace.  In particular
    saving twice is saving once. *)
Theorem handleSaveContent_last_wins :
  forall projects sel editor1 now1 editor2 now2 projects1 sel1,
    handleSaveContent projects (Some sel) editor1 now1 = Some (projects1, sel1) ->
    handleSaveContent projects1 (Some sel1) editor2 now2
    = handleSaveContent projects (Some sel) editor2 now2
    /\ handleSaveContent projects1 (Some sel1) editor1 now1 = Some (projects1, sel1).
Proof.
  intros projects sel editor1 now1 editor2 now2 projects1 sel1 H.
  assert (Hgen : forall editor now,
            handleSaveContent projects1 (Some sel1) editor now
            = handleSaveContent projects (Some sel) editor now).
  { intros editor now.
    destruct (handleSaveContent_inv _ _ _ _ _ _ H) as [Ht [-> ->]].
    assert (Ht1 : type (with_content_metadata sel (rawContent editor1)
                          (updatedMetadata (metadata sel)
                             (Number_of_nat (countWords (getPlainText editor1)))
                             now1)) = chapter) by exact Ht.
    rewrite (handleSaveContent_chapter _ _ editor now Ht1).
    rewrite (handleSaveContent_chapter _ _ editor now Ht).
    cbn [with_content_metadata id metadata].
    f_equal. f_equal.
    rewrite !updateProjectContent_map, map_map.
    apply map_ext. intros p.
    rewrite update_node_twice by apply local_change_content. reflexivity. }
  split; [apply Hgen|]. rewrite Hgen. exact H.
Qed.

Lemma handleSaveContent_last_wins_witness :
  let ch := sample_chapter 2 (Number_of_Z 2000) in
  let projects := [sample_project 1 [ch]] in
  let e1 := sample_editor (js "a first draft") in
  let e2 := sample_editor (js "second") in
  let t := js "2024-01-01T00:00:00.000Z" in
  let md := updatedMetadata (metadata ch)
              (Number_of_nat (countWords (getPlainText e1))) t in
  let projects1 := updateProjectContent projects (id ch) (rawContent e1) md in
  let sel1 := with_content_metadata ch (rawContent e1) md in
  handleSaveContent projects (Some ch) e1 t = Some (projects1, sel1)
  /\ handleSaveContent projects1 (Some sel1) e2 t
     = handleSaveContent projects (Some ch) e2 t.
Proof.
  intros ch projects e1 e2 t md projects1 sel1.
  assert (H : handleSaveContent projects (Some ch) e1 t = Some (projects1, sel1))
    by exact (handleSaveContent_chapter projects ch e1 t eq_refl).
  split; [exact H|].
  exact (proj1 (handleSaveContent_last_wins projects ch e1 t e2 t projects1 sel1 H)).
Defined.

(** ** Ids, levels, moving *)

(** *** Counting ids *)

Lemma occurrences_app j a b :
  occurrences j (a ++ b) = occurrences j a + occurrences j b.
Proof.
  unfold occurrences. rewrite map_app.
  induction (List.map (occurrences_node j) a) as [|x l IH]; simpl; [reflexivity|].
  rewrite IH. lia.
Qed.

Lemma occurrences_cons j p l :
  occurrences j (p :: l) = occurrences_node j p + occurrences j l.
Proof. reflexivity. Qed.

Lemma occurrences_filter j f projects :
  occurrences j (filter f projects) <= occurrences j projects.
Proof.
  induction projects as [|p l IH]; cbn [filter]; [lia|].
  destruct (f p); rewrite ?occurrences_cons; lia.
Qed.

Lemma occurrences_congr a b projects :
  num_eqb a b = true -> occurrences a projects = occurrences b projects.
Proof.
  intros Hab. unfold occurrences. f_equal. apply map_ext. intros p.
  induction p as [k n t cs c m IH] using Project_ind.
  rewrite !occurrences_node_eq. simpl id. simpl children.
  rewrite (num_eqb_sym k a), (num_eqb_sym k b), (num_eqb_congr a b k Hab).
  f_equal. unfold occurrences. f_equal.
  apply map_ext_in. intros y Hy. rewrite Forall_forall in IH. now apply IH.
Qed.

Lemma occurrences_newChapter j clock :
  occurrences_node j (newChapter clock)
  = if num_eqb (Date_now clock) j then 1 else 0.
Proof.
  rewrite occurrences_node_eq. cbn [newChapter id children].
  change (occurrences j []) with 0. destruct (num_eqb (Date_now clock) j); lia.
Qed.

Lemma occurrences_addChapter j projects pid ch :
  occurrences j (addChapterToProject projects pid ch)
  = occurrences j projects
    + occurrences_node j ch
      * length (filter (fun p => num_eqb (id p) pid) projects).
Proof.
  unfold addChapterToProject. remember (occurrences_node j ch) as k eqn:Hk.
  induction projects as [|p l IH]; cbn [List.map filter].
  - cbn [length]. lia.
  - rewrite !occurrences_cons, IH.
    destruct (num_eqb (id p) pid); cbn [length]; [|lia].
    rewrite !occurrences_node_eq. cbn [with_children id children].
    rewrite occurrences_app, occurrences_cons, Nat.mul_succ_r, <- Hk.
    change (occurrences j []) with 0. lia.
Qed.

Lemma occurrences_deleteChapter j projects i c :
  occurrences j (handleDeleteChapter projects i c) <= occurrences j projects.
Proof.
  unfold handleDeleteChapter.
  induction projects as [|p l IH]; cbn [List.map]; [lia|].
  rewrite !occurrences_cons.
  destruct (num_eqb (id p) i); [|lia].
  rewrite !occurrences_node_eq. cbn [with_children id children].
  pose proof (occurrences_filter j (fun c0 => negb (num_eqb (id c0) c)) (children p)).
  lia.
Qed.

Lemma roots_with_id_le i projects :
  length (filter (fun p => num_eqb (id p) i) projects) <= occurrences i projects.
Proof.
  induction projects as [|p l IH]; cbn [filter]; [cbn [length]; lia|].
  rewrite occurrences_cons, occurrences_node_eq.
  destruct (num_eqb (id p) i); cbn [length]; lia.
Qed.

Lemma occurrences_createProject j projects n clock :
  occurrences j (handleCreateNewProject projects n clock)
  = occurrences j projects + (if num_eqb (Date_now clock) j then 1 else 0).
Proof.
  unfold handleCreateNewProject.
  rewrite occurrences_app, occurrences_cons, occurrences_node_eq.
  cbn [id children]. change (occurrences j []) with 0.
  destruct (num_eqb (Date_now clock) j); lia.
Qed.

Lemma occurrences_createChapter j projects pid clock :
  occurrences j (handleCreateNewChapter projects pid clock)
  = occurrences j projects
    + (if num_eqb (Date_now clock) j
       then length (filter (fun p => num_eqb (id p) pid) projects)
       else 0).
Proof.
  unfold handleCreateNewChapter.
  rewrite occurrences_addChapter, occurrences_newChapter.
  destruct (num_eqb (Date_now clock) j); lia.
Qed.

(** X8.  How often an id occurs after creating and deleting.  A new project
    adds one occurrence of the clock reading; a new chapter adds one for
    every root that has the id of the parent, and none when no root has it;
    the deletions add none. *)
Theorem occurrences_after_create_delete :
  forall projects j,
    (forall newProjectName clock,
        occurrences j (handleCreateNewProject projects newProjectName clock)
        = occurrences j projects + (if num_eqb (Date_now clock) j then 1 else 0))
    /\ (forall projectId clock,
          occurrences j (handleCreateNewChapter projects projectId clock)
          = occurrences j projects
            + (if num_eqb (Date_now clock) j
               then length (filter (fun p => num_eqb (id p) projectId) projects)
               else 0))
    /\ (forall projectId,
          occurrences j (handleDeleteProject projects projectId)
          <= occurrences j projects)
    /\ (forall projectId chapterId,
          occurrences j (handleDeleteChapter projects projectId chapterId)
          <= occurrences j projects).
Proof.
  intros projects j. split; [|split; [|split]].
  - intros n clock. apply occurrences_createProject.
  - intros pid clock. apply occurrences_createChapter.
  - intros i. apply occurrences_filter.
  - intros i c. apply occurrences_deleteChapter.
Qed.

(** X9.  Ids stay unique as long as the clock moves.  In a forest where no id
    names two nodes, a project or a chapter created at a clock reading
    that is not yet an id leaves the ids unique, and so do the deletions,
    a rename, an edit of metadata and a save of content.  Two projects
    created at the same clock reading share their id. *)
Theorem unique_ids_kept :
  forall projects,
    unique_ids projects ->
    (forall newProjectName clock,
        occurrences (Date_now clock) projects = 0 ->
        unique_ids (handleCreateNewProject projects newProjectName clock))
    /\ (forall projectId clock,
          occurrences (Date_now clock) projects = 0 ->
          unique_ids (handleCreateNewChapter projects projectId clock))
    /\ (forall projectId, unique_ids (handleDeleteProject projects projectId))
    /\ (forall projectId chapterId,
          unique_ids (handleDeleteChapter projects projectId chapterId))
    /\ (forall i newName, unique_ids (updateProjectName projects i newName))
    /\ (forall i m, unique_ids (updateProjectMetadata projects i m))
    /\ (forall i c m, unique_ids (updateProjectContent projects i c m))
    /\ (forall n1 n2 clock,
          num_eqb (Date_now clock) (Date_now clock) = true ->
          2 <= occurrences (Date_now clock)
                 (handleCreateNewProject
                    (handleCreateNewProject projects n1 clock) n2 clock)).
Proof.
  intros projects Hu.
  split.
  { intros n clock H0 j.
    rewrite occurrences_createProject.
    destruct (num_eqb (Date_now clock) j) eqn:E; [|specialize (Hu j); lia].
    rewrite <- (occurrences_congr _ _ projects E). lia. }
  split.
  { intros pid clock H0 j.
    rewrite occurrences_createChapter.
    destruct (num_eqb (Date_now clock) j) eqn:E; [|specialize (Hu j); lia].
    rewrite <- (occurrences_congr _ _ projects E).
    pose proof (roots_with_id_le pid projects). specialize (Hu pid). lia. }
  split.
  { intros i j. pose proof (occurrences_filter j
      (fun p => negb (num_eqb (id p) i)) projects).
    unfold handleDeleteProject. specialize (Hu j). lia. }
  split.
  { intros i c j. pose proof (occurrences_deleteChapter j projects i c).
    specialize (Hu j). lia. }
  split.
  { intros i n j. rewrite updateProjectName_map.
    rewrite (occurrences_update_nodes i _ (local_change_name n)). apply Hu. }
  split.
  { intros i m j. rewrite updateProjectMetadata_map.
    rewrite (occurrences_update_nodes i _ (local_change_metadata m)). apply Hu. }
  split.
  { intros i c m j. rewrite updateProjectContent_map.
    rewrite (occurrences_update_nodes i _ (local_change_content c m)). apply Hu. }
  intros n1 n2 clock E.
  rewrite !occurrences_createProject, E. lia.
Qed.

Lemma unique_ids_one_root p :
  children p = [] -> unique_ids [p].
Proof.
  intros Hc j. rewrite occurrences_cons, occurrences_node_eq, Hc.
  change (occurrences j []) with 0. destruct (num_eqb (id p) j); lia.
Qed.

Lemma unique_ids_kept_witness :
  let projects := [sample_project 1 []] in
  (unique_ids projects /\ occurrences (Date_now sample_clock) projects = 0)
  /\ unique_ids (handleCreateNewProject projects (js "Second book") sample_clock)
  /\ unique_ids (handleCreateNewChapter projects (Number_of_Z 1) sample_clock).
Proof.
  intros projects.
  assert (Hu : unique_ids projects) by (apply unique_ids_one_root; reflexivity).
  assert (H0 : occurrences (Date_now sample_clock) projects = 0) by reflexivity.
  split; [split; assumption|].
  destruct (unique_ids_kept projects Hu) as [H1 [H2 _]].
  split; [exact (H1 (js "Second book") sample_clock H0)|].
  exact (H2 (Number_of_Z 1) sample_clock H0).
Defined.

(** *** Two levels *)

Lemma two_level_app a b : two_level (a ++ b) = two_level a && two_level b.
Proof. apply forallb_app. Qed.

Lemma forallb_filter {A : Type} (f g : A -> bool) (l : list A) :
  forallb f l = true -> forallb f (filter g l) = true.
Proof.
  induction l as [|x l IH]; simpl; [reflexivity|].
  destruct (f x) eqn:Hx; [|discriminate]. simpl. intros H.
  destruct (g x); simpl; [rewrite Hx|]; auto.
Qed.

Lemma forallb_map_keep {A : Type} (f : A -> bool) (g : A -> A) (l : list A) :
  (forall x, f x = true -> f (g x) = true) ->
  forallb f l = true -> forallb f (List.map g l) = true.
Proof.
  intros Hg. induction l as [|x l IH]; simpl; [reflexivity|].
  destruct (f x) eqn:Hx; [|discriminate]. simpl. intros H.
  rewrite (Hg x Hx). simpl. auto.
Qed.

Lemma two_level_update_node i f projects :
  local_change f -> (forall p, type (f p) = type p) ->
  two_level projects = true ->
  two_level (List.map (update_node i f) projects) = true.
Proof.
  intros Hf Ht. apply forallb_map_keep. intros p Hp.
  apply andb_true_iff in Hp. destruct Hp as [Hty Hcs].
  rewrite update_node_eq.
  destruct (num_eqb (id p) i).
  - rewrite Ht, Hty, (local_change_children f p Hf). exact Hcs.
  - destruct (children p) as [|x l] eqn:Hc.
    + rewrite Hty, Hc. reflexivity.
    + cbn [with_children type children]. rewrite Hty, andb_true_l.
      apply forallb_map_keep; [|exact Hcs].
      intros c Hleaf. rewrite update_node_eq.
      apply andb_true_iff in Hleaf. destruct Hleaf as [Hct Hcc].
      destruct (children c) as [|y r] eqn:Hch; [|discriminate].
      destruct (num_eqb (id c) i); unfold leaf_chapter.
      * rewrite Ht, Hct, (local_change_children f c Hf), Hch. reflexivity.
      * rewrite Hct, Hch. reflexivity.
Qed.

Lemma forallb_Permutation {A : Type} (f : A -> bool) (l l' : list A) :
  Permutation l l' -> forallb f l = true -> forallb f l' = true.
Proof.
  intros HP H. apply forallb_forall. intros x Hx.
  rewrite forallb_forall in H. apply H.
  apply (Permutation_in x (Permutation_sym HP) Hx).
Qed.

(** *** Moving *)

Lemma nth_error_split_at {A : Type} (i : nat) (l : list A) (x : A) :
  nth_error l i = Some x -> l = firstn i l ++ x :: skipn (S i) l.
Proof.
  revert l. induction i as [|i IH]; intros [|y l]; simpl; try discriminate.
  - now intros [= ->].
  - intros H. f_equal. now apply IH.
Qed.

Lemma move_Permutation {A : Type} (i j : nat) (l : list A) :
  Permutation l (move i j l).
Proof.
  unfold move. destruct (nth_error l i) as [x|] eqn:Hx; [|reflexivity].
  unfold Array_splice_insert.
  rewrite (nth_error_split_at i l x Hx) at 1.
  set (rest := firstn i l ++ skipn (S i) l).
  transitivity (x :: rest).
  - symmetry. apply Permutation_middle.
  - rewrite <- (firstn_skipn j rest) at 1. apply Permutation_middle.
Qed.

(** A destination past the end is the end. *)
Lemma move_past_end {A : Type} (i j : nat) (l : list A) :
  i < length l ->
  move i j l = move i (Nat.min j (length l - 1)) l.
Proof.
  intros Hi. unfold move.
  destruct (nth_error l i) as [x|] eqn:Hx; [|reflexivity].
  unfold Array_splice_insert.
  set (rest := firstn i l ++ skipn (S i) l).
  assert (Hrest : length rest = length l - 1).
  { unfold rest. rewrite length_app, length_firstn, length_skipn. lia. }
  destruct (Nat.le_gt_cases j (length l - 1)) as [Hle|Hgt].
  - now rewrite Nat.min_l.
  - rewrite Nat.min_r by lia.
    rewrite !firstn_all2, !skipn_all2 by lia. reflexivity.
Qed.

Lemma move_same {A : Type} (i : nat) (l : list A) : move i i l = l.
Proof.
  unfold move. destruct (nth_error l i) as [x|] eqn:Hx; [|reflexivity].
  unfold Array_splice_insert.
  assert (Hi : i < length l) by (apply nth_error_Some; congruence).
  rewrite firstn_app, skipn_app, length_firstn.
  replace (i - Nat.min i (length l)) with 0 by lia.
  rewrite firstn_firstn, Nat.min_id. simpl firstn. simpl skipn at 2.
  rewrite skipn_firstn_comm, Nat.sub_diag. simpl firstn.
  rewrite app_nil_r. simpl app. symmetry. now apply nth_error_split_at.
Qed.

(** X10.  Two levels.  A forest of projects that hold chapters without
    children, which the empty forest is, stays one under every operation
    of the buttons: a new project, a new chapter, the two deletions and
    the Delete button, a rename, an edit of metadata, a save of content,
    and a drag that starts inside the root list. *)
Theorem two_level_kept :
  two_level [] = true
  /\ forall projects,
       two_level projects = true ->
       (forall newProjectName clock,
           two_level (handleCreateNewProject projects newProjectName clock) = true)
       /\ (forall projectId clock,
             two_level (handleCreateNewChapter projects projectId clock) = true)
       /\ (forall projectId,
             two_level (handleDeleteProject projects projectId) = true)
       /\ (forall projectId chapterId,
             two_level (handleDeleteChapter projects projectId chapterId) = true)
       /\ (forall row, two_level (deleteButton projects row) = true)
       /\ (forall i newName, two_level (updateProjectName projects i newName) = true)
       /\ (forall i m, two_level (updateProjectMetadata projects i m) = true)
       /\ (forall i c m, two_level (updateProjectContent projects i c m) = true)
       /\ (forall src dst,
             index src < length projects ->
             exists moved,
               onDragEnd projects (mkDropResult src (Some dst))
               = Some (List.map Some moved)
               /\ two_level moved = true).
Proof.
  split; [reflexivity|]. intros projects H2.
  assert (Hdp : forall i, two_level (handleDeleteProject projects i) = true).
  { intros i. now apply forallb_filter. }
  assert (Hdc : forall i c, two_level (handleDeleteChapter projects i c) = true).
  { intros i c. unfold handleDeleteChapter. apply forallb_map_keep; [|exact H2].
    intros p Hp. apply andb_true_iff in Hp. destruct Hp as [Hty Hcs].
    destruct (num_eqb (id p) i); [|now rewrite Hty, Hcs].
    cbn [with_children type children]. rewrite Hty, andb_true_l.
    now apply forallb_filter. }
  split.
  { intros n clock. unfold handleCreateNewProject.
    rewrite two_level_app, H2. reflexivity. }
  split.
  { intros pid clock. unfold handleCreateNewChapter, addChapterToProject.
    apply forallb_map_keep; [|exact H2].
    intros p Hp. apply andb_true_iff in Hp. destruct Hp as [Hty Hcs].
    destruct (num_eqb (id p) pid); [|now rewrite Hty, Hcs].
    cbn [with_children type children]. rewrite Hty, andb_true_l.
    rewrite forallb_app, Hcs. reflexivity. }
  split; [exact Hdp|]. split; [exact Hdc|].
  split.
  { intros row. unfold deleteButton. destruct (type row); [apply Hdp|apply Hdc]. }
  split.
  { intros i n. rewrite updateProjectName_map.
    apply two_level_update_node; [apply local_change_name|reflexivity|exact H2]. }
  split.
  { intros i m. rewrite updateProjectMetadata_map.
    apply two_level_update_node; [apply local_change_metadata|reflexivity|exact H2]. }
  split.
  { intros i c m. rewrite updateProjectContent_map.
    apply two_level_update_node; [apply local_change_content|reflexivity|exact H2]. }
  intros src dst Hi.
  destruct (nth_error projects (index src)) as [x|] eqn:Hx;
    [|apply nth_error_None in Hx; lia].
  exists (move (index src) (index dst) projects).
  split; [now apply (onDragEnd_moves_root projects src dst x)|].
  apply (forallb_Permutation _ projects); [apply move_Permutation|exact H2].
Qed.

Lemma two_level_kept_witness :
  two_level sample_forest = true
  /\ two_level (handleCreateNewChapter sample_forest (Number_of_Z 4) sample_clock)
     = true
  /\ two_level (updateProjectName sample_forest (Number_of_Z 2) (js "Opening"))
     = true.
Proof.
  assert (H : two_level sample_forest = true) by reflexivity.
  split; [exact H|].
  destruct (proj2 two_level_kept sample_forest H) as [_ [Hc [_ [_ [_ [Hn _]]]]]].
  split; [apply Hc|apply Hn].
Defined.

(** X11.  Dragging in the root list.  With a source index inside the list,
    [onDragEnd] sets a permutation of the projects in which the dragged
    project stands at the destination index, or at the end when the index
    is past it, and the other projects keep their order; a drop where the
    drag began changes nothing.  With a source index past the list, what is
    set is the list with [undefined] inserted at the destination.  A drop
    outside any list sets nothing. *)
Theorem onDragEnd_root_list :
  forall projects src dst,
    (forall x,
        nth_error projects (index src) = Some x ->
        let j := Nat.min (index dst) (length projects - 1) in
        exists moved,
          onDragEnd projects (mkDropResult src (Some dst))
          = Some (List.map Some moved)
          /\ Permutation projects moved
          /\ nth_error moved j = Some x
          /\ firstn j moved ++ skipn (S j) moved
             = firstn (index src) projects ++ skipn (S (index src)) projects
          /\ (index dst = index src -> moved = projects))
    /\ (length projects <= index src ->
        onDragEnd projects (mkDropResult src (Some dst))
        = Some (Array_splice_insert (index dst) None (List.map Some projects)))
    /\ onDragEnd projects (mkDropResult src None) = None.
Proof.
  intros projects src dst. split; [|split].
  - intros x Hx j.
    assert (Hi : index src < length projects)
      by (apply nth_error_Some; congruence).
    exists (move (index src) (index dst) projects).
    split; [now apply (onDragEnd_moves_root projects src dst x)|].
    split; [apply move_Permutation|].
    rewrite (move_past_end (index src) (index dst) projects Hi). fold j.
    assert (Hj : j < length projects) by (unfold j; lia).
    destruct (move_spec (index src) j projects x Hx Hj) as [Hn [_ Hrest]].
    split; [exact Hn|]. split; [exact Hrest|].
    intros E. unfold j. rewrite E, Nat.min_l by lia. apply move_same.
  - intros Hi. unfold onDragEnd, Array_splice_remove. cbn [destination source].
    rewrite firstn_1_skipn.
    assert (Hnone : nth_error (List.map Some projects) (index src) = None).
    { apply nth_error_None. rewrite length_map. exact Hi. }
    rewrite Hnone.
    rewrite firstn_all2 by (rewrite length_map; lia).
    rewrite skipn_all2 by (rewrite length_map; lia).
    now rewrite app_nil_r.
  - reflexivity.
Qed.

Lemma onDragEnd_root_list_witness :
  let a := sample_project 1 [] in
  let b := sample_project 2 [] in
  let c := sample_project 3 [] in
  let root := js "projectList-0" in
  nth_error [a; b; c] 0 = Some a
  /\ exists moved,
       onDragEnd [a; b; c]
         (mkDropResult (mkLocation root 0) (Some (mkLocation root 7)))
       = Some (List.map Some moved)
       /\ nth_error moved 2 = Some a
       /\ firstn 2 moved ++ skipn 3 moved = [b; c].
Proof.
  intros a b c root.
  assert (H : nth_error [a; b; c] 0 = Some a) by reflexivity.
  split; [exact H|].
  destruct (proj1 (onDragEnd_root_list [a; b; c] (mkLocation root 0)
                     (mkLocation root 7)) a H)
    as [moved [E [_ [Hn [Hr _]]]]].
  exists moved. split; [exact E|]. split; [exact Hn|exact Hr].
Defined.

(** ** Storing and loading any forest *)

(** *** Values as they are written *)

Lemma written_number_lexeme x :
  stringify (written_number x) = [number_lexeme x].
Proof. destruct x as [[]|[]| |s m e]; reflexivity. Qed.

Lemma stringify_written v : stringify (written v) = stringify v.
Proof.
  induction v as [| b | x | s | items IH | properties IH] using value_ind;
    try reflexivity.
  - apply written_number_lexeme.
  - cbn [written stringify]. do 3 f_equal. rewrite map_map.
    apply map_ext_in. intros y Hy. rewrite Forall_forall in IH. now apply IH.
  - cbn [written stringify]. do 3 f_equal. rewrite map_map.
    apply map_ext_in. intros kv Hkv. rewrite Forall_forall in IH.
    cbn [fst snd]. now rewrite (IH kv Hkv).
Qed.

Lemma representable_written v :
  plain_keyed v = true -> representable (written v) = true.
Proof.
  induction v as [| b | x | s | items IH | properties IH] using value_ind;
    try reflexivity.
  - intros _. destruct x as [[]|[]| |s m e]; reflexivity.
  - cbn [plain_keyed written representable]. intros H.
    rewrite forallb_forall in H. apply forallb_forall. intros y Hy.
    apply in_map_iff in Hy as [z [<- Hz]].
    rewrite Forall_forall in IH. apply IH; auto.
  - cbn [plain_keyed written representable]. intros H.
    apply andb_true_iff in H as [Hk H].
    assert (Hfst : List.map fst
                     (List.map (fun kv => (fst kv, written (snd kv))) properties)
                   = List.map fst properties)
      by (rewrite map_map; apply map_ext; reflexivity).
    rewrite Hfst, Hk, andb_true_l.
    rewrite forallb_forall in H. apply forallb_forall. intros y Hy.
    apply in_map_iff in Hy as [z [<- Hz]]. cbn [snd].
    rewrite Forall_forall in IH. apply IH; auto.
Qed.



(** Whatever the value, as long as its property names are plain: what
    [JSON.stringify] writes is read back as the value with its numbers as
    written. *)
Lemma JSON_parse_stringify_written v :
  plain_keyed v = true -> JSON_parse (JSON_stringify v) = Returned (written v).
Proof.
  intros H. unfold JSON_stringify. rewrite <- stringify_written.
  apply JSON_parse_stringify. now apply representable_written.
Qed.

Lemma plain_keyed_strings l : forallb plain_keyed (List.map VString l) = true.
Proof. induction l; simpl; auto. Qed.

Lemma plain_keyed_metadata m : plain_keyed (value_of_metadata m) = true.
Proof.
  unfold value_of_metadata. cbn [plain_keyed List.map fst snd forallb].
  rewrite plain_keyed_strings. destruct (status m); reflexivity.
Qed.

Lemma plain_keyed_project p : plain_keyed (value_of_project p) = true.
Proof.
  induction p as [i n t cs c m IH] using Project_ind.
  assert (Hch : forallb plain_keyed (List.map value_of_project cs) = true).
  { induction IH as [|x l Hx _ IHl]; [reflexivity|].
    simpl. now rewrite Hx, IHl. }
  pose proof (plain_keyed_metadata m) as Hmd.
  cbn [value_of_project id name type children content metadata].
  destruct c as [c|], t; cbn [app plain_keyed List.map fst snd forallb value_of_type];
    rewrite Hch, Hmd; reflexivity.
Qed.








(** X13.  Clear All.  Whatever the state, and whatever the stored text, which
    need not be readable: afterwards the forest in memory is empty; the
    item is not absent, it holds the text of the empty list, written by
    [setProjects] after the removal; a restart of the component and
    Load Projects both read the empty forest and do not throw; Save All
    and a second Clear All change nothing. *)
Theorem clearLocalStorage_resets :
  forall st,
    let st' := clearLocalStorage st in
    projects_in_memory st' = value_of_projects []
    /\ localStorage st' = Some [LBeginArray; LEndArray]
    /\ getInitialProjects (localStorage st') = Returned (value_of_projects [])
    /\ handleLoadProjects st' = (st', Returned tt)
    /\ handleSaveAllProjects st' = st'
    /\ clearLocalStorage st' = st'.
Proof. intros st. repeat split. Qed.

(** X14.  Load Projects and Save All.  In a state set by [setProjects] from a
    schema-valid forest, the stored text is the forest in memory: a restart
    of the component reads that forest, and Load Projects and Save All
    change nothing.  In any state, Load Projects on a stored text that
    cannot be parsed throws and leaves memory and storage as they are, and
    on a text that can be parsed it puts the value read in memory and its
    text in storage. *)
Theorem handleLoadProjects_reads_storage :
  (forall st0 projects,
      schema_valid projects = true ->
      let st := setProjects st0 (value_of_projects projects) in
      getInitialProjects (localStorage st) = Returned (value_of_projects projects)
      /\ handleLoadProjects st = (st, Returned tt)
      /\ handleSaveAllProjects st = st)
  /\ (forall st e,
        loadProjectsFromLocalStorage (localStorage st) = Thrown e ->
        handleLoadProjects st = (st, Thrown e))
  /\ (forall st v,
        loadProjectsFromLocalStorage (localStorage st) = Returned v ->
        handleLoadProjects st
        = (mkAppState v (Some (JSON_stringify v)), Returned tt)).
Proof.
  split; [|split].
  - intros st0 projects Hv st.
    assert (Hl : loadProjectsFromLocalStorage (localStorage st)
                 = Returned (value_of_projects projects)).
    { unfold st, setProjects. cbn [localStorage].
      unfold saveProjectsToLocalStorage.
      rewrite load_some by apply JSON_stringify_not_empty.
      apply JSON_parse_stringify. now apply representable_projects. }
    split; [exact Hl|]. split; [|reflexivity].
    unfold handleLoadProjects. rewrite Hl. reflexivity.
  - intros st e H. unfold handleLoadProjects. now rewrite H.
  - intros st v H. unfold handleLoadProjects. now rewrite H.
Qed.

Lemma handleLoadProjects_reads_storage_witness :
  let st := setProjects (mkAppState (VArray []) None)
              (value_of_projects sample_forest) in
  let corrupt := mkAppState (value_of_projects sample_forest)
                   (Some truncated_snapshot) in
  schema_valid sample_forest = true
  /\ handleLoadProjects st = (st, Returned tt)
  /\ loadProjectsFromLocalStorage (localStorage corrupt) = Thrown SyntaxError
  /\ handleLoadProjects corrupt = (corrupt, Thrown SyntaxError).
Proof.
  intros st corrupt.
  assert (Hv : schema_valid sample_forest = true) by reflexivity.
  assert (Hc : loadProjectsFromLocalStorage (localStorage corrupt)
               = Thrown SyntaxError) by reflexivity.
  split; [exact Hv|].
  split; [exact (proj1 (proj2 (proj1 handleLoadProjects_reads_storage
                                 (mkAppState (VArray []) None) sample_forest Hv)))|].
  split; [exact Hc|].
  exact (proj1 (proj2 handleLoadProjects_reads_storage) corrupt SyntaxError Hc).
Defined.

(** ** The field of the tags *)

(** *** Trimming again, and whitespace at the ends *)

Lemma drop_while_id s :
  head_is_whitespace s = false -> drop_while is_whitespace s = s.
Proof. destruct s as [|c r]; simpl; [reflexivity|]. now intros ->. Qed.

Lemma trim_idempotent s : String_trim (String_trim s) = String_trim s.
Proof.
  pose proof (trim_head s) as Hh. unfold String_trim in *.
  set (y := drop_while is_whitespace (rev (drop_while is_whitespace s))) in *.
  rewrite (drop_while_id _ Hh), rev_involutive.
  f_equal. apply drop_while_id.
  pose proof (drop_while_head is_whitespace
                (rev (drop_while is_whitespace s))) as H. fold y in H.
  destruct y; [reflexivity|exact H].
Qed.

Lemma drop_while_snoc p s c :
  p c = true ->
  drop_while p (s ++ [c])
  = match drop_while p s with
    | [] => []
    | _ :: _ => drop_while p s ++ [c]
    end.
Proof.
  intros Hc. induction s as [|d r IH]; simpl; [now rewrite Hc|].
  destruct (p d); [exact IH|reflexivity].
Qed.

Lemma trim_snoc_whitespace s c :
  is_whitespace c = true -> String_trim (s ++ [c]) = String_trim s.
Proof.
  intros Hc. unfold String_trim. rewrite (drop_while_snoc _ _ _ Hc).
  destruct (drop_while is_whitespace s) as [|d r]; [reflexivity|].
  rewrite rev_app_distr. simpl rev at 1. simpl app. simpl drop_while at 1.
  now rewrite Hc.
Qed.

Lemma trim_cons_whitespace s c :
  is_whitespace c = true -> String_trim (c :: s) = String_trim s.
Proof. intros Hc. unfold String_trim. simpl. now rewrite Hc. Qed.

Lemma drop_while_incl s x :
  In x (drop_while is_whitespace s) -> In x s.
Proof.
  induction s as [|c r IH]; simpl; [auto|].
  destruct (is_whitespace c); [intros H; right; now apply IH|auto].
Qed.

Lemma trim_incl s x : In x (String_trim s) -> In x s.
Proof.
  unfold String_trim. intros H. apply in_rev in H.
  apply drop_while_incl in H. apply in_rev in H.
  now apply drop_while_incl in H.
Qed.

(** *** Splitting at a character *)

Lemma split_char_loop_tok sep tok s :
  split_char_loop sep tok s
  = match split_char_loop sep [] s with
    | h :: t => (rev tok ++ h) :: t
    | [] => []
    end.
Proof.
  revert tok. induction s as [|c r IH]; intros tok; simpl.
  - now rewrite app_nil_r.
  - destruct (c =? sep)%N; [now rewrite app_nil_r|].
    rewrite (IH (c :: tok)), (IH [c]).
    destruct (split_char_loop sep [] r) as [|h t]; [reflexivity|].
    simpl. now rewrite <- app_assoc.
Qed.

Lemma split_char_loop_nonempty sep tok s : split_char_loop sep tok s <> [].
Proof.
  revert tok. induction s as [|c r IH]; intros tok; simpl; [discriminate|].
  destruct (c =? sep)%N; [discriminate|apply IH].
Qed.

(** A piece without the separator, then the separator. *)
Lemma split_char_app sep a b :
  ~ In sep a ->
  String_split_char sep (a ++ sep :: b) = a :: String_split_char sep b.
Proof.
  unfold String_split_char. intros Ha.
  assert (H : forall tok, split_char_loop sep tok (a ++ sep :: b)
                          = (rev tok ++ a) :: split_char_loop sep [] b).
  { induction a as [|c r IH]; intros tok; simpl.
    - rewrite N.eqb_refl. now rewrite app_nil_r.
    - destruct (N.eqb_spec c sep) as [->|Hc]; [elim Ha; now left|].
      rewrite IH by (intros Hin; apply Ha; now right).
      simpl. now rewrite <- app_assoc. }
  exact (H []).
Qed.

Lemma split_char_whole sep a :
  ~ In sep a -> String_split_char sep a = [a].
Proof.
  unfold String_split_char. intros Ha.
  assert (H : forall tok, split_char_loop sep tok a = [rev tok ++ a]).
  { induction a as [|c r IH]; intros tok; simpl.
    - now rewrite app_nil_r.
    - destruct (N.eqb_spec c sep) as [->|Hc]; [elim Ha; now left|].
      rewrite IH by (intros Hin; apply Ha; now right).
      simpl. now rewrite <- app_assoc. }
  exact (H []).
Qed.

(** The pieces hold no separator. *)
Lemma split_char_pieces sep s :
  Forall (fun t => ~ In sep t) (String_split_char sep s).
Proof.
  unfold String_split_char.
  assert (H : forall tok, ~ In sep tok ->
            Forall (fun t => ~ In sep t) (split_char_loop sep tok s)).
  { induction s as [|c r IH]; intros tok Htok; simpl.
    - constructor; [|constructor]. intros Hin. apply Htok. now apply in_rev.
    - destruct (N.eqb_spec c sep) as [->|Hc].
      + constructor; [|apply IH; auto].
        intros Hin. apply Htok. now apply in_rev.
      + apply IH. intros [Heq|Hin]; auto. }
  apply H. auto.
Qed.

(** A character other than the separator, added at the end, goes to the
    end of the last piece. *)
Lemma split_char_snoc sep s c :
  c <> sep ->
  exists init lst,
    String_split_char sep s = init ++ [lst]
    /\ String_split_char sep (s ++ [c]) = init ++ [lst ++ [c]].
Proof.
  unfold String_split_char. intros Hc.
  assert (H : forall tok, exists init lst,
            split_char_loop sep tok s = init ++ [lst]
            /\ split_char_loop sep tok (s ++ [c]) = init ++ [lst ++ [c]]).
  { induction s as [|d r IH]; intros tok; simpl.
    - exists [], (rev tok). destruct (N.eqb_spec c sep); [contradiction|].
      simpl. split; reflexivity.
    - destruct (d =? sep)%N.
      + destruct (IH []) as [init [lst [E1 E2]]].
        exists (rev tok :: init), lst. rewrite E1, E2. split; reflexivity.
      + apply IH. }
  apply H.
Qed.

(** *** The field of the tags *)

Lemma comma_space : js ", " = [COMMA; 32%N].
Proof. reflexivity. Qed.

Lemma Array_join_cons sep x y r :
  Array_join sep (x :: y :: r) = x ++ sep ++ Array_join sep (y :: r).
Proof. reflexivity. Qed.

Lemma split_join_tags tags :
  Forall (fun t => ~ In COMMA t) tags ->
  tags <> [] ->
  String_split_char COMMA (tags_value tags)
  = match tags with
    | [] => []
    | t :: rest => t :: List.map (cons 32%N) rest
    end.
Proof.
  unfold tags_value. rewrite comma_space.
  induction tags as [|t rest IH]; intros Hall Hne; [contradiction|].
  inversion Hall as [|? ? Ht Hrest]; subst.
  destruct rest as [|t2 r].
  - simpl. now apply split_char_whole.
  - rewrite Array_join_cons. cbn [app].
    rewrite (split_char_app COMMA t _ Ht). f_equal.
    unfold String_split_char in *. cbn [split_char_loop].
    change (32 =? COMMA)%N with false. cbv iota.
    rewrite split_char_loop_tok.
    specialize (IH Hrest ltac:(discriminate)).
    unfold jsstring, code_unit in *. rewrite IH. reflexivity.
Qed.

Lemma tags_of_input_value tags :
  tags <> [] -> Forall clean_tag tags -> tags_of_input (tags_value tags) = tags.
Proof.
  intros Hne Hall. unfold tags_of_input.
  assert (Hc : Forall (fun t => ~ In COMMA t) tags).
  { apply Forall_forall. intros t Ht. rewrite Forall_forall in Hall.
    exact (proj2 (Hall t Ht)). }
  rewrite (split_join_tags tags Hc Hne).
  destruct tags as [|t rest]; [contradiction|].
  inversion Hall as [|? ? [Ht _] Hrest]; subst.
  cbn [List.map]. rewrite Ht. f_equal.
  rewrite map_map. apply map_keep_all. intros x Hx.
  rewrite trim_cons_whitespace by reflexivity.
  rewrite Forall_forall in Hrest. exact (proj1 (Hrest x Hx)).
Qed.

Lemma tags_of_input_clean value : Forall clean_tag (tags_of_input value).
Proof.
  unfold tags_of_input. apply Forall_forall. intros t Ht.
  apply in_map_iff in Ht as [x [<- Hx]]. split; [apply trim_idempotent|].
  intros Hin. apply trim_incl in Hin.
  pose proof (split_char_pieces COMMA value) as Hp.
  rewrite Forall_forall in Hp. exact (Hp x Hx Hin).
Qed.

Lemma tags_of_input_nonempty value : tags_of_input value <> [].
Proof.
  unfold tags_of_input, String_split_char.
  pose proof (split_char_loop_nonempty COMMA [] value).
  destruct (split_char_loop COMMA [] value); [contradiction|discriminate].
Qed.

Lemma tags_of_input_snoc value c :
  is_whitespace c = true -> tags_of_input (value ++ [c]) = tags_of_input value.
Proof.
  intros Hc. unfold tags_of_input.
  assert (Hne : c <> COMMA) by (intros ->; discriminate).
  destruct (split_char_snoc COMMA value c Hne) as [init [lst [E1 E2]]].
  rewrite E1, E2, !map_app. cbn [List.map].
  now rewrite trim_snoc_whitespace.
Qed.

(** X15.  The field of the tags, from the tags to the text and back.  The text
    shown for a list of tags that is not empty, whose tags hold no comma
    and no whitespace at their ends, is read back as that list.  The empty
    list is shown as the empty text, which is read back as one empty
    tag. *)
Theorem tags_field_round_trip :
  (forall tags,
      tags <> [] -> Forall clean_tag tags ->
      tags_of_input (tags_value tags) = tags)
  /\ tags_value [] = []
  /\ tags_of_input (tags_value []) = [[]].
Proof.
  split; [exact tags_of_input_value|]. split; reflexivity.
Qed.

Lemma tags_field_round_trip_witness :
  let tags := [js "draft"; js "science fiction"] in
  (tags <> [] /\ Forall clean_tag tags)
  /\ tags_value tags = js "draft, science fiction"
  /\ tags_of_input (js "draft, science fiction") = tags.
Proof.
  intros tags.
  assert (Hne : tags <> []) by discriminate.
  assert (Hall : Forall clean_tag tags).
  { repeat constructor; try reflexivity;
      cbv; intros H; repeat (destruct H as [H|H]; [discriminate H|]); exact H. }
  split; [split; assumption|]. split; [reflexivity|].
  exact (proj1 tags_field_round_trip tags Hne Hall).
Defined.

(** X16.  The field of the tags, from the text to the tags.  Whatever the text,
    the tags read from it are at least one, hold no comma and no whitespace
    at their ends, and are read again from the text the field shows for
    them; a whitespace character typed at the end of the text changes
    nothing in the tags that are read, so that the edit it makes is the
    edit made before it was typed. *)
Theorem tags_of_input_normal :
  forall value,
    tags_of_input value <> []
    /\ Forall clean_tag (tags_of_input value)
    /\ tags_of_input (tags_value (tags_of_input value)) = tags_of_input value
    /\ (forall c, is_whitespace c = true ->
          tags_of_input (value ++ [c]) = tags_of_input value
          /\ forall projects sel,
               onChange_tags projects sel (value ++ [c])
               = onChange_tags projects sel value).
Proof.
  intros value.
  split; [apply tags_of_input_nonempty|].
  split; [apply tags_of_input_clean|].
  split; [apply tags_of_input_value;
          [apply tags_of_input_nonempty|apply tags_of_input_clean]|].
  intros c Hc. split; [now apply tags_of_input_snoc|].
  intros projects sel. unfold onChange_tags.
  now rewrite tags_of_input_snoc.
Qed.

Lemma tags_of_input_normal_witness :
  is_whitespace 32%N = true
  /\ tags_of_input (js "draft, science ") = tags_of_input (js "draft, science")
  /\ tags_of_input (js "draft, science") = [js "draft"; js "science"].
Proof.
  assert (H : is_whitespace 32%N = true) by reflexivity.
  split; [exact H|].
  split; [|reflexivity].
  exact (proj1 (proj2 (proj2 (proj2 (tags_of_input_normal (js "draft, science")))) 32%N H)).
Defined.

(** ** The field of the goal *)

Lemma decimal_digit_char d :
  (d < 10)%N ->
  is_whitespace (48 + d)%N = false
  /\ radix_digit 10 (48 + d)%N = Some d
  /\ ((48 + d =? 45) = false /\ (48 + d =? 43) = false
      /\ (48 + d =? 120) = false /\ (48 + d =? 88) = false)%N.
Proof.
  intros Hd.
  assert (H : (d = 0 \/ d = 1 \/ d = 2 \/ d = 3 \/ d = 4 \/ d = 5 \/ d = 6
               \/ d = 7 \/ d = 8 \/ d = 9)%N) by lia.
  repeat (destruct H as [->|H]); try subst d; repeat split; reflexivity.
Qed.


Lemma drop_while_whitespace_prefix ws s :
  Forall (fun c => is_whitespace c = true) ws ->
  drop_while is_whitespace (ws ++ s) = drop_while is_whitespace s.
Proof.
  induction 1 as [|c r Hc _ IH]; [reflexivity|]. simpl. now rewrite Hc.
Qed.

Lemma leading_digits_numeral ds rest :
  Forall (fun d => (d < 10)%N) ds ->
  ends_numeral rest = true ->
  leading_digits 10 (numeral ds ++ rest) = ds.
Proof.
  intros Hds Hrest. induction Hds as [|d r Hd _ IH].
  - destruct rest as [|c t]; [reflexivity|].
    cbn [numeral List.map app leading_digits]. cbn [ends_numeral] in Hrest.
    destruct (radix_digit 10 c); [discriminate|reflexivity].
  - cbn [numeral List.map app leading_digits].
    destruct (decimal_digit_char d Hd) as [_ [-> _]].
    fold (numeral r). now rewrite IH.
Qed.

Lemma strip_prefix_numeral ds rest :
  ds <> [] -> Forall (fun d => (d < 10)%N) ds ->
  ends_numeral rest = true ->
  strip_prefix (numeral ds ++ rest) = (10%N, numeral ds ++ rest).
Proof.
  intros Hne Hds Hrest. destruct ds as [|d [|d2 r]]; [contradiction| |].
  - cbn [numeral List.map app].
    destruct rest as [|c t]; [reflexivity|]. cbn [ends_numeral] in Hrest.
    destruct (radix_digit 10 c); [discriminate|].
    apply negb_true_iff in Hrest. unfold strip_prefix.
    rewrite Hrest, andb_false_r. reflexivity.
  - inversion Hds as [|? ? _ Hr]; subst. inversion Hr as [|? ? Hd2 _]; subst.
    destruct (decimal_digit_char d2 Hd2) as [_ [_ [_ [_ [Hx HX]]]]].
    cbn [numeral List.map app]. unfold strip_prefix.
    rewrite Hx, HX, andb_false_r. reflexivity.
Qed.

Lemma strip_sign_numeral ds rest :
  ds <> [] -> Forall (fun d => (d < 10)%N) ds ->
  strip_sign (numeral ds ++ rest) = (false, numeral ds ++ rest).
Proof.
  intros Hne Hds. destruct ds as [|d r]; [contradiction|].
  inversion Hds as [|? ? Hd _]; subst.
  destruct (decimal_digit_char d Hd) as [_ [_ [Hm [Hp _]]]].
  cbn [numeral List.map app]. unfold strip_sign. now rewrite Hm, Hp.
Qed.

Lemma Number_of_Z_not_NaN z : Number_of_Z z <> NaN.
Proof.
  unfold Number_of_Z, binary_normalize, NaN.
  destruct z as [|p|p]; [discriminate| |];
    unfold binary_round; destruct (shl_align _ _ _) as [mz ez];
    apply RoundingFacts.binary_round_aux_not_nan; lia.
Qed.

(** [parseInt] on a numeral, with whitespace in front and anything that
    is no digit behind. *)
Lemma parseInt_numeral ws ds rest :
  Forall (fun c => is_whitespace c = true) ws ->
  ds <> [] -> Forall (fun d => (d < 10)%N) ds ->
  ends_numeral rest = true ->
  parseInt (ws ++ numeral ds ++ rest) = Number_of_Z (Z.of_N (digits_value 10 ds)).
Proof.
  intros Hws Hne Hds Hrest. unfold parseInt.
  rewrite (drop_while_whitespace_prefix ws _ Hws).
  assert (Hdw : drop_while is_whitespace (numeral ds ++ rest) = numeral ds ++ rest).
  { destruct ds as [|d r]; [contradiction|].
    inversion Hds as [|? ? Hd _]; subst.
    destruct (decimal_digit_char d Hd) as [Hw _].
    cbn [numeral List.map app drop_while]. now rewrite Hw. }
  rewrite Hdw, (strip_sign_numeral ds rest Hne Hds).
  rewrite (strip_prefix_numeral ds rest Hne Hds Hrest).
  rewrite (leading_digits_numeral ds rest Hds Hrest).
  destruct ds as [|d r]; [contradiction|]. cbv zeta.
  set (v := Z.of_N (digits_value 10 (d :: r))).
  destruct (Z.eqb_spec v 0) as [E|E]; [rewrite E|]; reflexivity.
Qed.

Lemma parseInt_negative_numeral ws ds rest :
  Forall (fun c => is_whitespace c = true) ws ->
  ds <> [] -> Forall (fun d => (d < 10)%N) ds ->
  ends_numeral rest = true ->
  parseInt (ws ++ 45%N :: numeral ds ++ rest)
  = if (digits_value 10 ds =? 0)%N then S754_zero true
    else Number_of_Z (- Z.of_N (digits_value 10 ds)).
Proof.
  intros Hws Hne Hds Hrest. unfold parseInt.
  rewrite (drop_while_whitespace_prefix ws _ Hws).
  cbn [drop_while app]. change (is_whitespace 45%N) with false. cbv iota.
  cbn [strip_sign]. rewrite N.eqb_refl.
  rewrite (strip_prefix_numeral ds rest Hne Hds Hrest).
  rewrite (leading_digits_numeral ds rest Hds Hrest).
  destruct ds as [|d r]; [contradiction|]. cbv zeta.
  set (n := digits_value 10 (d :: r)).
  destruct (N.eqb_spec n 0) as [E|E].
  - rewrite E. reflexivity.
  - destruct (Z.eqb_spec (Z.of_N n) 0) as [E'|_]; [lia|reflexivity].
Qed.

(** A text without a numeral at its head: only whitespace, a sign, and
    then no digit. *)
Lemma parseInt_no_digit ws sign rest :
  Forall (fun c => is_whitespace c = true) ws ->
  (sign = [] \/ sign = [45%N] \/ sign = [43%N]) ->
  match rest with
  | [] => True
  | c :: _ => is_whitespace c = false /\ c <> 45%N /\ c <> 43%N
              /\ radix_digit 10 c = None
  end ->
  parseInt (ws ++ sign ++ rest) = NaN.
Proof.
  intros Hws Hsign Hrest. unfold parseInt.
  rewrite (drop_while_whitespace_prefix ws _ Hws).
  assert (Hlead : fst (strip_prefix rest) = 10%N
                  /\ leading_digits 10 (snd (strip_prefix rest)) = []).
  { destruct rest as [|c [|c1 t]]; [split; reflexivity| |].
    - destruct Hrest as [_ [_ [_ Hc]]]. simpl. now rewrite Hc.
    - destruct Hrest as [_ [_ [_ Hc]]]. unfold strip_prefix.
      destruct (N.eqb_spec c 48) as [->|_]; [discriminate Hc|].
      simpl. now rewrite Hc. }
  assert (Hs : exists b, strip_sign (drop_while is_whitespace (sign ++ rest))
                         = (b, rest)).
  { destruct Hsign as [->|[->| ->]].
    - simpl. destruct rest as [|c t]; [now exists false|].
      destruct Hrest as [Hw [Hm [Hp _]]]. simpl. rewrite Hw. simpl.
      destruct (N.eqb_spec c 45); [contradiction|].
      destruct (N.eqb_spec c 43); [contradiction|]. now exists false.
    - now exists true.
    - now exists false. }
  destruct Hs as [b ->].
  destruct (strip_prefix rest) as [R s2]. simpl in Hlead.
  destruct Hlead as [-> ->]. reflexivity.
Qed.

Lemma updatedMetadata_NaN_goal old w now :
  wordCountGoal old = NaN ->
  completionPercentage (updatedMetadata old w now) = NaN.
Proof.
  intros H. cbn [updatedMetadata completionPercentage]. rewrite H.
  unfold NaN. destruct w; reflexivity.
Qed.

(** X17.  The field of the goal reads the numeral at the head of its text.
    After whitespace, a decimal numeral of at most twenty digits that is
    followed by nothing, or by a character that is no digit and no [x], is
    read as its value, whatever follows: a fraction or an exponent is cut
    off.  With a minus sign in front the value is negated, and zero is
    read as the negative zero. *)
Theorem parseInt_reads_leading_numeral :
  forall ws ds rest,
    Forall (fun c => is_whitespace c = true) ws ->
    ds <> [] -> Forall (fun d => (d < 10)%N) ds -> length ds <= 20 ->
    ends_numeral rest = true ->
    parseInt (ws ++ numeral ds ++ rest)
    = Number_of_Z (Z.of_N (digits_value 10 ds))
    /\ parseInt (ws ++ numeral ds ++ rest) <> NaN
    /\ parseInt (ws ++ 45%N :: numeral ds ++ rest)
       = (if (digits_value 10 ds =? 0)%N then S754_zero true
          else Number_of_Z (- Z.of_N (digits_value 10 ds))).
Proof.
  intros ws ds rest Hws Hne Hds _ Hrest.
  rewrite (parseInt_numeral ws ds rest Hws Hne Hds Hrest).
  split; [reflexivity|]. split; [apply Number_of_Z_not_NaN|].
  now apply parseInt_negative_numeral.
Qed.

Lemma parseInt_reads_leading_numeral_witness :
  parseInt (js " 2000.75") = Number_of_Z 2000
  /\ parseInt (js "1e3") = Number_of_Z 1
  /\ parseInt (js "-12 words") = Number_of_Z (-12).
Proof.
  assert (Hw : Forall (fun c => is_whitespace c = true) (js " "))
    by (repeat constructor).
  assert (Hn : Forall (fun c => is_whitespace c = true) []) by constructor.
  assert (H2000 : Forall (fun d => (d < 10)%N) [2; 0; 0; 0]%N)
    by (repeat constructor).
  assert (H1 : Forall (fun d => (d < 10)%N) [1]%N) by (repeat constructor).
  assert (H12 : Forall (fun d => (d < 10)%N) [1; 2]%N) by (repeat constructor).
  split; [|split].
  - exact (proj1 (parseInt_reads_leading_numeral (js " ") [2; 0; 0; 0]%N (js ".75")
                    Hw ltac:(discriminate) H2000 ltac:(simpl; lia) eq_refl)).
  - exact (proj1 (parseInt_reads_leading_numeral [] [1]%N (js "e3")
                    Hn ltac:(discriminate) H1 ltac:(simpl; lia) eq_refl)).
  - exact (proj2 (proj2 (parseInt_reads_leading_numeral [] [1; 2]%N (js " words")
                    Hn ltac:(discriminate) H12 ltac:(simpl; lia) eq_refl))).
Defined.

(** X18.  The field of the goal without a numeral.  A text that holds, after
    whitespace and at most one sign, no digit (the emptied field is one) is
    read as NaN.  The goal of the selection and of its node is then NaN; the
    next save of the chapter computes a completion percentage that is NaN,
    for the selection and for the node; and both numbers are written
    [null] when the forest is stored. *)
Theorem goal_field_without_numeral :
  (forall ws sign rest,
      Forall (fun c => is_whitespace c = true) ws ->
      (sign = [] \/ sign = [45%N] \/ sign = [43%N]) ->
      match rest with
      | [] => True
      | c :: _ => is_whitespace c = false /\ c <> 45%N /\ c <> 43%N
                  /\ radix_digit 10 c = None
      end ->
      parseInt (ws ++ sign ++ rest) = NaN)
  /\ (forall projects sel value editor now,
        type sel = chapter ->
        parseInt value = NaN ->
        exists projects1 sel1 projects2 sel2,
          onChange_wordCountGoal projects sel value = Some (projects1, sel1, false)
          /\ wordCountGoal (metadata sel1) = NaN
          /\ handleSaveContent projects1 (Some sel1) editor now
             = Some (projects2, sel2)
          /\ wordCountGoal (metadata sel2) = NaN
          /\ completionPercentage (metadata sel2) = NaN
          /\ (forall q, find_project (id sel) projects = Some q ->
                exists q2, find_project (id sel) projects2 = Some q2
                           /\ metadata q2 = metadata sel2)
          /\ written (VNumber (wordCountGoal (metadata sel2))) = VNull
          /\ written (VNumber (completionPercentage (metadata sel2))) = VNull).
Proof.
  split; [exact parseInt_no_digit|].
  intros projects sel value editor now Ht Hv.
  set (m1 := with_wordCountGoal (metadata sel) (parseInt value)).
  set (sel1 := with_metadata sel m1).
  set (projects1 := updateProjectMetadata projects (id sel) m1).
  assert (Ht1 : type sel1 = chapter) by exact Ht.
  pose proof (handleSaveContent_chapter projects1 sel1 editor now Ht1) as Hs.
  set (md := updatedMetadata (metadata sel1)
               (Number_of_nat (countWords (getPlainText editor))) now) in Hs.
  assert (Hg1 : wordCountGoal (metadata sel1) = NaN) by exact Hv.
  assert (Hc : completionPercentage md = NaN)
    by (apply updatedMetadata_NaN_goal; exact Hg1).
  eexists projects1, sel1, _, _.
  split; [reflexivity|]. split; [exact Hg1|]. split; [exact Hs|].
  cbn [with_content_metadata metadata].
  split; [exact Hg1|]. split; [exact Hc|].
  split.
  - intros q Hq.
    assert (Hq1 : find_project (id sel1) projects1 = Some (with_metadata q m1)).
    { unfold projects1. rewrite updateProjectMetadata_map.
      exact (find_update_nodes (id sel) _ (local_change_metadata m1) projects q Hq). }
    pose proof (handleSaveContent_node projects1 sel1 editor now _ _ _ Hs Hq1) as Hq2.
    eexists. split; [exact Hq2|reflexivity].
  - change (wordCountGoal md) with (wordCountGoal (metadata sel1)).
    rewrite Hg1, Hc. split; reflexivity.
Qed.

Lemma goal_field_without_numeral_witness :
  let ch := sample_chapter 2 (Number_of_Z 2000) in
  let projects := [sample_project 1 [ch]] in
  let editor := sample_editor (js "hello world") in
  let now := js "2024-01-01T00:00:00.000Z" in
  (type ch = chapter /\ parseInt (js "") = NaN)
  /\ exists projects1 sel1 projects2 sel2,
       onChange_wordCountGoal projects ch (js "") = Some (projects1, sel1, false)
       /\ handleSaveContent projects1 (Some sel1) editor now
          = Some (projects2, sel2)
       /\ completionPercentage (metadata sel2) = NaN.
Proof.
  intros ch projects editor now.
  assert (Ht : type ch = chapter) by reflexivity.
  assert (Hv : parseInt (js "") = NaN) by reflexivity.
  split; [split; assumption|].
  destruct (proj2 goal_field_without_numeral projects ch (js "") editor now Ht Hv)
    as [p1 [s1 [p2 [s2 [E1 [_ [E2 [_ [Hc _]]]]]]]]].
  exists p1, s1, p2, s2. repeat split; assumption.
Defined.

(** ** Tags inside a text *)

(** *** Tags inside a text *)

Lemma replace_tags_prefix before s :
  ~ In LESS_THAN before ->
  String_replace_tags (before ++ s) = before ++ String_replace_tags s.
Proof.
  induction before as [|c r IH]; intros H; [reflexivity|].
  cbn [app]. rewrite replace_tags_nomatch.
  - f_equal. apply IH. intros Hin. apply H. now right.
  - apply match_tag_other. intros ->. apply H. now left.
Qed.

Lemma match_tag_tail_body body after :
  ~ In GREATER_THAN body ->
  match_tag_tail (body ++ GREATER_THAN :: after) = Some after.
Proof.
  induction body as [|c r IH]; intros H; cbn [app match_tag_tail].
  - now rewrite N.eqb_refl.
  - destruct (N.eqb_spec c GREATER_THAN) as [->|_]; [elim H; now left|].
    apply IH. intros Hin. apply H. now right.
Qed.

Lemma match_tag_whole body after :
  body <> [] -> ~ In GREATER_THAN body ->
  match_tag (LESS_THAN :: body ++ GREATER_THAN :: after) = Some after.
Proof.
  intros Hne H. destruct body as [|d r]; [contradiction|].
  cbn [app match_tag]. rewrite N.eqb_refl.
  destruct (N.eqb_spec d GREATER_THAN) as [->|_]; [elim H; now left|].
  cbn [negb andb]. apply match_tag_tail_body. intros Hin. apply H. now right.
Qed.

Lemma replace_tags_tag before body after :
  ~ In LESS_THAN before -> body <> [] -> ~ In GREATER_THAN body ->
  String_replace_tags (before ++ LESS_THAN :: body ++ GREATER_THAN :: after)
  = before ++ String_replace_tags after.
Proof.
  intros Hb Hne Hbody. rewrite (replace_tags_prefix _ _ Hb). f_equal.
  apply replace_tags_match. now apply match_tag_whole.
Qed.

Lemma split_loop_word tok w :
  Forall (fun c => is_whitespace c = false) w ->
  split_loop false tok w = [rev tok ++ w].
Proof.
  revert tok. induction w as [|c r IH]; intros tok H; cbn [split_loop].
  - now rewrite app_nil_r.
  - inversion H as [|? ? Hc Hr]; subst. rewrite Hc, (IH _ Hr).
    cbn [rev]. now rewrite <- app_assoc.
Qed.

Lemma drop_while_word w :
  Forall (fun c => is_whitespace c = false) w -> drop_while is_whitespace w = w.
Proof. destruct 1 as [|c r Hc _]; [reflexivity|]. simpl. now rewrite Hc. Qed.

Lemma countWords_word w :
  Forall (fun c => is_whitespace c = false) w -> ~ In LESS_THAN w ->
  countWords w = 1.
Proof.
  intros Hw Hlt. unfold countWords.
  pose proof (replace_tags_prefix w [] Hlt) as E. rewrite app_nil_r in E.
  rewrite E, (replace_tags_unfold []), app_nil_r.
  unfold String_trim, String_split_whitespace.
  rewrite (drop_while_word w Hw).
  rewrite (drop_while_word (rev w)) by now apply Forall_rev.
  rewrite rev_involutive, (split_loop_word [] w Hw). reflexivity.
Qed.

(** X19.  A tag leaves no gap.  A tag [<...>] that follows a text without
    [<] is removed and nothing is put in its place: the text counts as
    many words as it does with the tag cut out.  So two words that only a
    tag separates, as in [one<br>two], count as one word. *)
Theorem countWords_tag_leaves_no_gap :
  forall before body after,
    ~ In LESS_THAN before -> body <> [] -> ~ In GREATER_THAN body ->
    String_replace_tags (before ++ LESS_THAN :: body ++ GREATER_THAN :: after)
    = before ++ String_replace_tags after
    /\ countWords (before ++ LESS_THAN :: body ++ GREATER_THAN :: after)
       = countWords (before ++ after)
    /\ (Forall (fun c => is_whitespace c = false) (before ++ after) ->
        ~ In LESS_THAN after ->
        countWords (before ++ LESS_THAN :: body ++ GREATER_THAN :: after) = 1).
Proof.
  intros before body after Hb Hne Hbody.
  pose proof (replace_tags_tag before body after Hb Hne Hbody) as E.
  assert (Hc : countWords (before ++ LESS_THAN :: body ++ GREATER_THAN :: after)
               = countWords (before ++ after)).
  { unfold countWords. now rewrite E, (replace_tags_prefix _ _ Hb). }
  split; [exact E|]. split; [exact Hc|].
  intros Hw Ha. rewrite Hc. apply countWords_word; [exact Hw|].
  intros Hin. apply in_app_or in Hin as [Hin|Hin]; auto.
Qed.

Lemma countWords_tag_leaves_no_gap_witness :
  countWords (js "one<br>two") = countWords (js "onetwo")
  /\ countWords (js "one<br>two") = 1
  /\ countWords (js "one two") = 2.
Proof.
  assert (Hb : ~ In LESS_THAN (js "one")).
  { cbv. intros H. repeat (destruct H as [H|H]; [discriminate H|]). exact H. }
  assert (Hne : js "br" <> []) by discriminate.
  assert (Hbody : ~ In GREATER_THAN (js "br")).
  { cbv. intros H. repeat (destruct H as [H|H]; [discriminate H|]). exact H. }
  assert (Ha : ~ In LESS_THAN (js "two")).
  { cbv. intros H. repeat (destruct H as [H|H]; [discriminate H|]). exact H. }
  assert (Hw : Forall (fun c => is_whitespace c = false) (js "one" ++ js "two"))
    by (repeat constructor).
  destruct (countWords_tag_leaves_no_gap (js "one") (js "br") (js "two")
              Hb Hne Hbody) as [_ [H1 H2]].
  split; [exact H1|]. split; [exact (H2 Hw Ha)|reflexivity].
Defined.

(** ** A drag from past the root list *)

Lemma plain_keyed_items items :
  plain_keyed (VArray (List.map value_of_item items)) = true.
Proof.
  cbn [plain_keyed]. apply forallb_forall. intros v Hv.
  apply in_map_iff in Hv as [[p|] [<- _]]; [apply plain_keyed_project|reflexivity].
Qed.

Lemma splice_insert_In {A : Type} (j : nat) (x : A) (l : list A) :
  In x (Array_splice_insert j x l)
  /\ length (Array_splice_insert j x l) = S (length l).
Proof.
  unfold Array_splice_insert. split.
  - apply in_or_app. right. now left.
  - rewrite length_app. cbn [length].
    rewrite <- (firstn_skipn j l) at 3. rewrite length_app. lia.
Qed.

(** X20.  A drag from past the root list is stored.  When the source index of
    a drag is not an index of the root list (the index of a chapter in a
    longer list of chapters is one), the list that [onDragEnd] sets holds
    [undefined] and is one longer than the root list; what is stored for it
    holds [null] in the place of the [undefined]; the stored text is read
    again without throwing, on every later start, and what is read holds
    the [null] and is the value of no forest. *)
Theorem onDragEnd_stores_undefined :
  forall projects src dst,
    length projects <= index src ->
    exists items,
      onDragEnd projects (mkDropResult src (Some dst)) = Some items
      /\ In None items
      /\ length items = S (length projects)
      /\ exists loaded,
           getInitialProjects (saveItemsToLocalStorage items)
           = Returned (VArray loaded)
           /\ In VNull loaded
           /\ length loaded = S (length projects)
           /\ forall forest, VArray loaded <> value_of_projects forest.
Proof.
  intros projects src dst Hi.
  assert (E : onDragEnd projects (mkDropResult src (Some dst))
              = Some (Array_splice_insert (index dst) None (List.map Some projects))).
  { unfold onDragEnd, Array_splice_remove. cbn [destination source].
    rewrite firstn_1_skipn.
    assert (Hnone : nth_error (List.map Some projects) (index src) = None).
    { apply nth_error_None. rewrite length_map. exact Hi. }
    rewrite Hnone.
    rewrite firstn_all2 by (rewrite length_map; lia).
    rewrite skipn_all2 by (rewrite length_map; lia).
    now rewrite app_nil_r. }
  set (items := Array_splice_insert (index dst) None (List.map Some projects)) in *.
  destruct (splice_insert_In (index dst) (@None Project) (List.map Some projects))
    as [Hin Hlen].
  fold items in Hin, Hlen. rewrite length_map in Hlen.
  exists items. split; [exact E|]. split; [exact Hin|]. split; [exact Hlen|].
  exists (List.map written (List.map value_of_item items)).
  split.
  { unfold getInitialProjects, saveItemsToLocalStorage.
    rewrite load_some by apply JSON_stringify_not_empty.
    exact (JSON_parse_stringify_written _ (plain_keyed_items items)). }
  assert (Hnull : In VNull (List.map written (List.map value_of_item items))).
  { apply in_map_iff. exists VNull. split; [reflexivity|].
    apply in_map_iff. exists None. split; [reflexivity|exact Hin]. }
  split; [exact Hnull|]. split; [now rewrite !length_map|].
  intros forest Heq. unfold value_of_projects in Heq. injection Heq as Heq.
  rewrite Heq in Hnull. apply in_map_iff in Hnull as [p [Hp _]].
  destruct p as [i n t cs [c|] m]; discriminate Hp.
Qed.

Lemma onDragEnd_stores_undefined_witness :
  let c := sample_project 5 [sample_chapter 6 (Number_of_Z 0);
                             sample_chapter 7 (Number_of_Z 0);
                             sample_chapter 8 (Number_of_Z 0)] in
  let level1 := js "projectList-1" in
  length [c] <= 2
  /\ exists items,
       onDragEnd [c] (mkDropResult (mkLocation level1 2)
                                   (Some (mkLocation level1 0))) = Some items
       /\ exists loaded,
            getInitialProjects (saveItemsToLocalStorage items)
            = Returned (VArray loaded)
            /\ In VNull loaded.
Proof.
  intros c level1.
  assert (H : length [c] <= index (mkLocation level1 2)) by (simpl; lia).
  split; [exact H|].
  destruct (onDragEnd_stores_undefined [c] (mkLocation level1 2)
              (mkLocation level1 0) H)
    as [items [E [_ [_ [loaded [L [N _]]]]]]].
  exists items. split; [exact E|]. exists loaded. split; assumption.
Defined.

(** ** The form of a new project *)

Lemma formStep_initial projects ev :
  snd (formStep (projects, initialForm) ev) = initialForm.
Proof. destruct ev; reflexivity. Qed.

Lemma formRun_initial events : forall projects,
  snd (formRun (projects, initialForm) events) = initialForm.
Proof.
  induction events as [|ev l IH]; intros projects; [reflexivity|].
  cbn [formRun fold_left].
  pose proof (formStep_initial projects ev) as H.
  destruct (formStep (projects, initialForm) ev) as [ps form].
  cbn [snd] in H. subst form. apply IH.
Qed.

(** X21.  New projects have no name.  Nothing sets [isCreatingNewProject]: after
    any sequence of events from the start of the component the form is
    closed and [newProjectName] is the empty string, the input of the name
    is never rendered, and the button New Project appends a project whose
    name is the empty string. *)
Theorem new_projects_have_no_name :
  forall projects0 events,
    let st := formRun (projects0, initialForm) events in
    isCreatingNewProject (snd st) = false
    /\ newProjectName (snd st) = []
    /\ (forall value, formStep st (NameInput value) = st)
    /\ (forall clock, formStep st (SaveButton clock) = st)
    /\ (forall clock,
          fst (formStep st (NewProjectButton clock))
          = fst st ++ [mkProject (Date_now clock) [] project [] None
                         (newMetadata clock)]).
Proof.
  intros projects0 events st.
  pose proof (formRun_initial events projects0) as H. fold st in H.
  destruct st as [ps form]. cbn [snd fst] in *. subst form.
  repeat split.
Qed.

(** ** Renaming the selection *)

(** X22.  A rename does not reach the selection.  [handleRename] sets the
    forest only: when the selected chapter is renamed and then saved, the
    node of the forest has the new name together with the saved content,
    and the selection, from which the header and the title of the window
    are taken, has the saved content under the old name. *)
Theorem rename_then_save :
  forall projects sel newName editor now,
    find_project (id sel) projects = Some sel ->
    type sel = chapter ->
    exists projects2 sel2 node2,
      handleSaveContent (handleRename projects (id sel) newName) (Some sel)
        editor now = Some (projects2, sel2)
      /\ find_project (id sel) projects2 = Some node2
      /\ name node2 = newName
      /\ name sel2 = name sel
      /\ content node2 = Some (rawContent editor)
      /\ content sel2 = Some (rawContent editor)
      /\ metadata node2 = metadata sel2.
Proof.
  intros projects sel newName editor now Hf Ht.
  set (projects1 := handleRename projects (id sel) newName).
  pose proof (handleSaveContent_chapter projects1 sel editor now Ht) as Hs.
  assert (Hf1 : find_project (id sel) projects1 = Some (with_name sel newName)).
  { unfold projects1, handleRename. rewrite updateProjectName_map.
    exact (find_update_nodes (id sel) _ (local_change_name newName) projects sel Hf). }
  pose proof (handleSaveContent_node projects1 sel editor now _ _ _ Hs Hf1) as Hn.
  eexists _, _, _. split; [exact Hs|]. split; [exact Hn|].
  repeat split.
Qed.

Lemma rename_then_save_witness :
  let ch := sample_chapter 2 (Number_of_Z 2000) in
  let projects := [sample_project 1 [ch]] in
  (find_project (id ch) projects = Some ch /\ type ch = chapter)
  /\ exists projects2 sel2 node2,
       handleSaveContent (handleRename projects (id ch) (js "Opening")) (Some ch)
         (sample_editor (js "hello world")) (js "2024-01-01T00:00:00.000Z")
       = Some (projects2, sel2)
       /\ find_project (id ch) projects2 = Some node2
       /\ name node2 = js "Opening"
       /\ name sel2 = js "Chapter".
Proof.
  intros ch projects.
  assert (Hf : find_project (id ch) projects = Some ch) by reflexivity.
  assert (Ht : type ch = chapter) by reflexivity.
  split; [split; assumption|].
  destruct (rename_then_save projects ch (js "Opening")
              (sample_editor (js "hello world")) (js "2024-01-01T00:00:00.000Z")
              Hf Ht)
    as [p2 [s2 [n2 [E [F [N1 [N2 _]]]]]]].
  exists p2, s2, n2. repeat split; assumption.
Defined.

(** ** The lists of a rendering *)

Lemma renderDraggable_eq level index p :
  renderDraggable level index p
  = mkDraggable p index
      (match type p with
       | project => Some (renderProjects (children p) (S level))
       | chapter => None
       end).
Proof.
  destruct p as [i n t cs c m]. cbn [renderDraggable type children].
  destruct t; [|reflexivity]. unfold renderProjects. do 3 f_equal.
  generalize 0. induction cs as [|q r IH]; intros k; [reflexivity|].
  cbn [renderRows]. now rewrite IH.
Qed.

Lemma renderRows_rows level l : forall i,
  List.map (fun r => match r with mkDraggable p _ _ => p end)
    (renderRows level i l) = l.
Proof.
  induction l as [|q r IH]; intros i; [reflexivity|].
  cbn [renderRows List.map]. rewrite renderDraggable_eq. now rewrite IH.
Qed.

Lemma renderRows_indices level l : forall i,
  indices (renderRows level i l) = seq i (length l).
Proof.
  unfold indices. induction l as [|q r IH]; intros i; [reflexivity|].
  cbn [renderRows List.map length seq]. rewrite renderDraggable_eq. now rewrite IH.
Qed.

Lemma droppables_eq i t rows :
  droppables (mkDroppable i t rows)
  = (i, List.map (fun r => match r with mkDraggable p _ _ => p end) rows)
    :: flat_map (fun r => match r with
                          | mkDraggable _ _ (Some d') => droppables d'
                          | mkDraggable _ _ None => []
                          end) rows.
Proof.
  cbn [droppables]. f_equal.
  induction rows as [|[p k [d'|]] rest IH]; [reflexivity| |].
  - cbn [flat_map]. now rewrite IH.
  - cbn [flat_map app]. exact IH.
Qed.

Lemma droppables_renderProjects projects level :
  droppables (renderProjects projects level)
  = (js "projectList-" ++ String_of_level level, projects)
    :: flat_map (fun p => match type p with
                          | project => droppables (renderProjects (children p) (S level))
                          | chapter => []
                          end) projects.
Proof.
  unfold renderProjects at 1. rewrite droppables_eq, renderRows_rows. f_equal.
  generalize 0. induction projects as [|q r IH]; intros k; [reflexivity|].
  cbn [renderRows flat_map]. rewrite renderDraggable_eq, IH.
  destruct (type q); reflexivity.
Qed.

(** X23.  The lists of a level share their [droppableId].  The root list is
    rendered as the list [projectList-0] with the indices [0, 1, ...]; every
    root of type ['project'] has its children rendered as a list of its own,
    and each of these lists has the id [projectList-1]: the id names the
    level, not the list, so that the lists of the chapters of two projects
    cannot be told apart by it. *)
Theorem renderProjects_droppableIds :
  forall projects,
    (exists rest,
        droppables (renderProjects projects 0)
        = (js "projectList-0", projects) :: rest)
    /\ (forall p,
          In p projects -> type p = project ->
          In (js "projectList-1", children p)
             (droppables (renderProjects projects 0)))
    /\ (forall p,
          In p projects -> type p = project ->
          exists t rows,
            renderProjects (children p) 1
            = mkDroppable (js "projectList-1") t rows
            /\ indices rows = seq 0 (length (children p))).
Proof.
  intros projects. rewrite droppables_renderProjects.
  split; [eexists; reflexivity|]. split.
  - intros p Hp Ht. right. apply in_flat_map. exists p. split; [exact Hp|].
    rewrite Ht, droppables_renderProjects. now left.
  - intros p Hp Ht. unfold renderProjects. eexists _, _.
    split; [reflexivity|]. apply renderRows_indices.
Qed.

Lemma renderProjects_droppableIds_witness :
  let a := sample_project 1 [sample_chapter 3 (Number_of_Z 0);
                             sample_chapter 4 (Number_of_Z 0)] in
  let b := sample_project 2 [sample_chapter 5 (Number_of_Z 0)] in
  (In a [a; b] /\ type a = project /\ In b [a; b] /\ type b = project)
  /\ In (js "projectList-1", children a) (droppables (renderProjects [a; b] 0))
  /\ In (js "projectList-1", children b) (droppables (renderProjects [a; b] 0))
  /\ children a <> children b.
Proof.
  intros a b.
  assert (Ha : In a [a; b]) by (now left).
  assert (Hb : In b [a; b]) by (right; now left).
  assert (Hta : type a = project) by reflexivity.
  assert (Htb : type b = project) by reflexivity.
  split; [repeat split; assumption|].
  destruct (renderProjects_droppableIds [a; b]) as [_ [H _]].
  split; [exact (H a Ha Hta)|]. split; [exact (H b Hb Htb)|].
  discriminate.
Defined.

(** ** Goals and the first save *)

Lemma find_project_app i a b :
  find_project i (a ++ b)
  = match find_project i a with
    | Some r => Some r
    | None => find_project i b
    end.
Proof.
  induction a as [|x l IH]; [reflexivity|]. cbn [app find_project].
  destruct (find_node i x); [reflexivity|exact IH].
Qed.

(** A chapter with a new id, once added, is the node found under that
    id. *)
Lemma find_added_chapter projects pid ch :
  occurrences (id ch) projects = 0 ->
  num_eqb (id ch) (id ch) = true ->
  existsb (fun q => num_eqb (id q) pid) projects = true ->
  find_project (id ch) (addChapterToProject projects pid ch) = Some ch.
Proof.
  intros H0 Hid. unfold addChapterToProject.
  induction projects as [|x l IH]; [discriminate|].
  rewrite occurrences_cons in H0.
  assert (Hx : find_node (id ch) x = None)
    by (apply occurrences_zero_find_node; lia).
  cbn [existsb List.map find_project].
  destruct (num_eqb (id x) pid) eqn:Hp.
  - intros _. rewrite find_node_eq in Hx |- *. cbn [with_children id children].
    destruct (num_eqb (id x) (id ch)); [discriminate|].
    rewrite find_project_app, Hx. cbn [find_project].
    rewrite find_node_eq, Hid. reflexivity.
  - cbn [orb]. intros He. rewrite Hx. apply IH; [lia|exact He].
Qed.

Lemma updatedMetadata_zero_goal old n now :
  1 <= n ->
  wordCountGoal old = S754_zero false ->
  completionPercentage (updatedMetadata old (Number_of_nat n) now)
  = Number_of_Z 100.
Proof.
  intros Hn H. cbn [updatedMetadata completionPercentage].
  rewrite H, (division_by_zero n false Hn), Number_of_Z_100. reflexivity.
Qed.

(** X24.  A goal that is a positive number.  Whatever the word count, the
    completion percentage that a save computes from a positive finite goal
    is a number, not NaN, that lies between 0 and 100. *)
Theorem handleSaveContent_positive_goal :
  forall projects sel editor now projects' sel' m e,
    handleSaveContent projects (Some sel) editor now = Some (projects', sel') ->
    wordCountGoal (metadata sel) = S754_finite false m e ->
    completionPercentage (metadata sel') <> NaN
    /\ num_leb (Number_of_Z 0) (completionPercentage (metadata sel')) = true
    /\ num_leb (completionPercentage (metadata sel')) (Number_of_Z 100) = true.
Proof.
  intros projects sel editor now projects' sel' m e H Hg.
  destruct (handleSaveContent_inv _ _ _ _ _ _ H) as [_ [_ ->]].
  cbn [with_content_metadata metadata updatedMetadata completionPercentage].
  rewrite Hg.
  pose proof (countWords_pos (getPlainText editor)) as Hw.
  destruct (RoundingFacts.num_div_finite _ false m e Hw) as [Hs Hn].
  destruct (RoundingFacts.num_mul_100_finite false _ Hs Hn) as [Hs' Hn'].
  exact (RoundingFacts.Math_min_100_range _ Hs' Hn').
Qed.

Lemma handleSaveContent_positive_goal_witness :
  let ch := sample_chapter 2 (Number_of_Z 3) in
  let editor := sample_editor (js "hello world") in
  let now := js "2024-01-01T00:00:00.000Z" in
  let md :=
    updatedMetadata (metadata ch)
      (Number_of_nat (countWords (getPlainText editor))) now in
  let sel' := with_content_metadata ch (rawContent editor) md in
  wordCountGoal (metadata ch) = S754_finite false 6755399441055744 (-51)
  /\ completionPercentage (metadata sel') <> NaN
  /\ num_leb (Number_of_Z 0) (completionPercentage (metadata sel')) = true
  /\ num_leb (completionPercentage (metadata sel')) (Number_of_Z 100) = true.
Proof.
  intros ch editor now md sel'.
  assert (Hg : wordCountGoal (metadata ch)
               = S754_finite false 6755399441055744 (-51)) by reflexivity.
  split; [exact Hg|].
  exact (handleSaveContent_positive_goal [sample_project 1 [ch]] ch editor now
           _ sel' _ _ (handleSaveContent_chapter _ ch editor now eq_refl) Hg).
Defined.

(** X25.  A new chapter is complete after its first save.  A chapter is created
    with the goal 0: when it is added below a root, at a clock reading
    that is not yet an id, it is the node found under its id, and its first
    save, whatever the text, sets the completion percentage of the
    selection and of the node to 100. *)
Theorem new_chapter_first_save :
  forall projects projectId clock editor now,
    occurrences (Date_now clock) projects = 0 ->
    num_eqb (Date_now clock) (Date_now clock) = true ->
    existsb (fun q => num_eqb (id q) projectId) projects = true ->
    let ch := newChapter clock in
    let projects1 := handleCreateNewChapter projects projectId clock in
    wordCountGoal (metadata ch) = Number_of_Z 0
    /\ find_project (id ch) projects1 = Some ch
    /\ exists projects2 sel2 node2,
         handleSaveContent projects1 (Some ch) editor now = Some (projects2, sel2)
         /\ completionPercentage (metadata sel2) = Number_of_Z 100
         /\ find_project (id ch) projects2 = Some node2
         /\ completionPercentage (metadata node2) = Number_of_Z 100.
Proof.
  intros projects pid clock editor now H0 Hid He ch projects1.
  assert (Hf : find_project (id ch) projects1 = Some ch).
  { unfold projects1, handleCreateNewChapter.
    apply (find_added_chapter projects pid ch); assumption. }
  split; [reflexivity|]. split; [exact Hf|].
  assert (Ht : type ch = chapter) by reflexivity.
  pose proof (handleSaveContent_chapter projects1 ch editor now Ht) as Hs.
  pose proof (handleSaveContent_node projects1 ch editor now _ _ _ Hs Hf) as Hn.
  assert (Hc : completionPercentage
                 (updatedMetadata (metadata ch)
                    (Number_of_nat (countWords (getPlainText editor))) now)
               = Number_of_Z 100).
  { apply updatedMetadata_zero_goal; [apply countWords_pos|reflexivity]. }
  eexists _, _, _. split; [exact Hs|]. split; [exact Hc|].
  split; [exact Hn|exact Hc].
Qed.

Lemma new_chapter_first_save_witness :
  let projects := [sample_project 1 []] in
  let ch := newChapter sample_clock in
  let projects1 := handleCreateNewChapter projects (Number_of_Z 1) sample_clock in
  (occurrences (Date_now sample_clock) projects = 0
   /\ num_eqb (Date_now sample_clock) (Date_now sample_clock) = true
   /\ existsb (fun q => num_eqb (id q) (Number_of_Z 1)) projects = true)
  /\ find_project (id ch) projects1 = Some ch
  /\ exists projects2 sel2 node2,
       handleSaveContent projects1 (Some ch) (sample_editor (js "one"))
         (js "2024-01-01T00:00:00.000Z") = Some (projects2, sel2)
       /\ completionPercentage (metadata sel2) = Number_of_Z 100
       /\ find_project (id ch) projects2 = Some node2
       /\ completionPercentage (metadata node2) = Number_of_Z 100.
Proof.
  intros projects ch projects1.
  assert (H0 : occurrences (Date_now sample_clock) projects = 0) by reflexivity.
  assert (Hid : num_eqb (Date_now sample_clock) (Date_now sample_clock) = true)
    by reflexivity.
  assert (He : existsb (fun q => num_eqb (id q) (Number_of_Z 1)) projects = true)
    by reflexivity.
  split; [repeat split; assumption|].
  destruct (new_chapter_first_save projects (Number_of_Z 1) sample_clock
              (sample_editor (js "one")) (js "2024-01-01T00:00:00.000Z")
              H0 Hid He) as [_ [Hf Hx]].
  split; [exact Hf|exact Hx].
Defined.

(** ** What a save derives *)

(** The lower bound of the clamp takes a negative number to zero. *)
Lemma clamp_negative x mh eh :
  has_sign true x -> x <> NaN ->
  clamp x (S754_zero false) (S754_finite false mh eh) = S754_zero false.
Proof.
  intros Hs Hx. unfold clamp. rewrite (Math_min_negative _ _ _ Hs).
  destruct x as [s|s| |s m e]; simpl has_sign in Hs; subst;
    try reflexivity. now elim Hx.
Qed.

Lemma negative_not_zero x : has_sign true x -> x <> NaN -> x <> S754_zero false.
Proof. intros Hs Hx ->. discriminate Hs. Qed.

(** C3 (as amended).  Saving the selected chapter, whatever the forest
    holds under its id.  The new selection keeps its id, name, type and
    children, gets the new content, and its metadata hold
    [actualWordCount = countWords(plainText)],
    [estimatedReadingTime = Math.ceil(w / 250)],
    [completionPercentage = Math.min(w / wordCountGoal * 100, 100)] and
    [lastModified = now], every other field being that of the selection.
    The percentage is [clamp(w / wordCountGoal * 100, 0, 100)] when the goal
    is not negative; there is no lower bound: for a negative goal it is the
    product itself, a negative number, where the clamp is 0.  The first
    node of the forest with the id of the selection keeps its own id, name,
    type and children and gets the content and all the metadata of the new
    selection, its own metadata being discarded; it is the new selection
    when the selection was this node; without such a node the forest stays
    as it is.  With a goal of 2000 and 500 words the three derived fields
    are 500, 2 and 25; and for fewer than [2^52] words the reading time is
    the integer [(w + 249) / 250], the rounded division never reaching the
    next integer. *)
Theorem handleSaveContent_derives_metadata :
  forall projects sel editor now,
    type sel = chapter ->
    let w := Number_of_nat (countWords (getPlainText editor)) in
    let product :=
      num_mul (num_div w (wordCountGoal (metadata sel))) (Number_of_Z 100) in
    exists projects' sel',
      handleSaveContent projects (Some sel) editor now = Some (projects', sel')
      /\ (id sel' = id sel /\ name sel' = name sel /\ type sel' = type sel
          /\ children sel' = children sel)
      /\ content sel' = Some (rawContent editor)
      /\ actualWordCount (metadata sel') = w
      /\ estimatedReadingTime (metadata sel')
         = Math_ceil (num_div w (Number_of_Z 250))
      /\ completionPercentage (metadata sel')
         = Math_min product (Number_of_Z 100)
      /\ (has_sign false (wordCountGoal (metadata sel)) ->
          completionPercentage (metadata sel')
          = clamp product (Number_of_Z 0) (Number_of_Z 100))
      /\ (forall m e,
            wordCountGoal (metadata sel) = S754_finite true m e ->
            completionPercentage (metadata sel') = product
            /\ has_sign true product /\ product <> NaN
            /\ clamp product (Number_of_Z 0) (Number_of_Z 100) = Number_of_Z 0
            /\ completionPercentage (metadata sel')
               <> clamp product (Number_of_Z 0) (Number_of_Z 100))
      /\ lastModified (metadata sel') = now
      /\ (status (metadata sel') = status (metadata sel)
          /\ wordCountGoal (metadata sel') = wordCountGoal (metadata sel)
          /\ creationDate (metadata sel') = creationDate (metadata sel)
          /\ tags (metadata sel') = tags (metadata sel)
          /\ author (metadata sel') = author (metadata sel)
          /\ version (metadata sel') = version (metadata sel))
      /\ (forall q,
            find_project (id sel) projects = Some q ->
            find_project (id sel) projects'
            = Some (with_content_metadata q (rawContent editor) (metadata sel')))
      /\ (find_project (id sel) projects = Some sel ->
          find_project (id sel) projects' = Some sel')
      /\ (find_project (id sel) projects = None -> projects' = projects)
      /\ (countWords (getPlainText editor) = 500 ->
          wordCountGoal (metadata sel) = Number_of_Z 2000 ->
          actualWordCount (metadata sel') = Number_of_Z 500
          /\ estimatedReadingTime (metadata sel') = Number_of_Z 2
          /\ completionPercentage (metadata sel') = Number_of_Z 25)
      /\ ((Z.of_nat (countWords (getPlainText editor)) < 2 ^ 52)%Z ->
          estimatedReadingTime (metadata sel')
          = Number_of_Z
              ((Z.of_nat (countWords (getPlainText editor)) + 249) / 250)).
Proof.
  intros projects sel editor now Htype w product.
  pose proof (countWords_pos (getPlainText editor)) as Hw.
  eexists. eexists.
  split; [exact (handleSaveContent_chapter projects sel editor now Htype)|].
  split; [repeat split|].
  split; [reflexivity|].
  split; [reflexivity|].
  split; [reflexivity|].
  split; [reflexivity|].
  split.
  { intros Hgoal.
    cbn [with_content_metadata metadata updatedMetadata completionPercentage].
    rewrite Number_of_Z_100. apply Math_min_clamp.
    apply num_mul_sign; [|reflexivity].
    apply num_div_sign; [|exact Hgoal].
    apply Number_of_Z_sign. lia. }
  split.
  { intros m e Hg.
    cbn [with_content_metadata metadata updatedMetadata completionPercentage].
    fold w. fold product.
    assert (Hp : has_sign true product /\ product <> NaN).
    { unfold product, w. rewrite Hg.
      destruct (num_div_finite _ true m e Hw) as [Hs Hn].
      exact (num_mul_100_finite true _ Hs Hn). }
    destruct Hp as [Hs Hn].
    assert (Hc : clamp product (Number_of_Z 0) (Number_of_Z 100) = Number_of_Z 0).
    { rewrite Number_of_Z_100. exact (clamp_negative _ _ _ Hs Hn). }
    rewrite Hc.
    assert (Hm : Math_min product (Number_of_Z 100) = product).
    { rewrite Number_of_Z_100. exact (Math_min_negative _ _ _ Hs). }
    rewrite Hm. split; [reflexivity|]. split; [exact Hs|]. split; [exact Hn|].
    split; [reflexivity|]. exact (negative_not_zero _ Hs Hn). }
  split; [reflexivity|]. split; [repeat split|].
  split; [intros q Hq; now apply find_updateProjectContent|].
  split; [intros Hq; now apply find_updateProjectContent|].
  split; [intros Hq; now apply updateProjectContent_absent|].
  split.
  - intros H500 Hg.
    cbn [with_content_metadata metadata updatedMetadata completionPercentage
         actualWordCount estimatedReadingTime].
    unfold w. rewrite H500, Hg. repeat split; vm_compute; reflexivity.
  - intros Hlt.
    cbn [with_content_metadata metadata updatedMetadata estimatedReadingTime].
    unfold w, Number_of_nat. apply Math_ceil_div_250. lia.
Qed.

(** C3, the claim as stated fails.  A chapter whose goal is -100 is saved
    with two words: the completion percentage is -2, where the clamp gives
    0.  And a selection that is no longer what the forest holds under its
    id (the forest was imported or loaded since) is saved: the node of the
    forest loses its own status, goal, tags and version for those of the
    selection. *)
Lemma derives_metadata_counterexample :
  let now := js "2024-01-01T00:00:00.000Z" in
  let editor := sample_editor (js "hello world") in
  let ch := sample_chapter 2 (Number_of_Z (-100)) in
  let saved := handleSaveContent [sample_project 1 [ch]] (Some ch) editor now in
  let sel := sample_chapter 2 (Number_of_Z 500) in
  let node := finished_chapter 2 in
  let saved' := handleSaveContent [sample_project 1 [node]] (Some sel) editor now in
  (countWords (getPlainText editor) = 2
   /\ option_map (fun r => completionPercentage (metadata (snd r))) saved
      = Some (Number_of_Z (-2))
   /\ option_map (fun r =>
        option_map (fun q => completionPercentage (metadata q))
          (find_project (id ch) (fst r))) saved
      = Some (Some (Number_of_Z (-2)))
   /\ clamp (num_mul (num_div (Number_of_Z 2) (Number_of_Z (-100)))
                     (Number_of_Z 100))
            (Number_of_Z 0) (Number_of_Z 100)
      = Number_of_Z 0
   /\ Number_of_Z (-2) <> Number_of_Z 0)
  /\ (find_project (id sel) [sample_project 1 [node]] = Some node
      /\ option_map (fun r =>
           option_map (fun q => (status (metadata q), wordCountGoal (metadata q),
                                 tags (metadata q), version (metadata q)))
             (find_project (id sel) (fst r))) saved'
         = Some (Some (InProgress, Number_of_Z 500, [js "draft"], js "1.0"))
      /\ (status (metadata node), wordCountGoal (metadata node),
          tags (metadata node), version (metadata node))
         = (Completed, Number_of_Z 2000, [js "final"], js "2.0")
      /\ status (metadata node) <> InProgress
      /\ wordCountGoal (metadata node) <> Number_of_Z 500
      /\ tags (metadata node) <> [js "draft"]
      /\ version (metadata node) <> js "1.0").
Proof.
  repeat split; try (vm_compute; reflexivity); vm_compute; discriminate.
Qed.

Lemma handleSaveContent_derives_metadata_witness :
  let ch := sample_chapter 2 (Number_of_Z 2000) in
  let projects := [sample_project 1 [ch]] in
  (type ch = chapter /\ find_project (id ch) projects = Some ch)
  /\ exists projects' sel',
       handleSaveContent projects (Some ch) (sample_editor five_hundred_words)
         (js "2024-01-01T00:00:00.000Z") = Some (projects', sel')
       /\ find_project (id ch) projects' = Some sel'
       /\ actualWordCount (metadata sel') = Number_of_Z 500
       /\ estimatedReadingTime (metadata sel') = Number_of_Z 2
       /\ completionPercentage (metadata sel') = Number_of_Z 25.
Proof.
  intros ch projects.
  assert (H1 : find_project (id ch) projects = Some ch) by reflexivity.
  assert (H2 : type ch = chapter) by reflexivity.
  split; [split; assumption|].
  destruct (handleSaveContent_derives_metadata projects ch
              (sample_editor five_hundred_words)
              (js "2024-01-01T00:00:00.000Z") H2)
    as [projects' [sel' [Hs [_ [_ [_ [_ [_ [_ [_ [_ [_ [_ [Hf [_ [Hex _]]]]]]]]]]]]]]]].
  exists projects', sel'. split; [exact Hs|]. split; [exact (Hf H1)|].
  apply Hex; [exact countWords_five_hundred|reflexivity].
Defined.
